(** * TailSSH: the tab/session lifecycle manager and the device directory

    A shallow embedding of [src/public/app.js] (the browser front end) and of
    the Cloudflare Worker that serves [/api/devices], with the properties of
    the specification stated over it.

    Conventions of the embedding:
    - JavaScript numbers that only ever hold non-negative integers (tab ids,
      array indices) are [N] and [nat], which is exact as long as they stay
      below [2^53]; millisecond timestamps are [Z]; a [NaN] time value is
      [None].
    - A value that may be [null] or [undefined] is an [option].
    - A JavaScript string is a sequence of UTF-16 code units.  The
      embedding has the strings whose code units are below 256 (Latin-1),
      one [ascii] for each code unit; on these [toLowerCase], [trim],
      [includes] and [split] are the methods of the runtime.
    - Tab objects are shared and mutated through references held by closures,
      so they live in a heap ([heap]) and the [tabs] array holds references.
    - An [async] function is split at its [await]: the part after it is a
      continuation ([Cont]) that the promise's resolution puts on the
      microtask queue.
    - The order in which an operation performs its effects is recorded in
      [trace]. *)

From stdpp Require Import gmap sorting pretty.
From Stdlib Require Import ZArith Lia Ascii String.
From stdpp Require Import list strings.

(** ** JavaScript string helpers *)

(** The lower-case mapping of one code unit below 256: the letters [A] to
    [Z] and, in the Latin-1 supplement, U+00C0 to U+00DE without the
    multiplication sign U+00D7, each 32 below its lower-case letter. *)
Definition lowerUnit (c : ascii) : ascii :=
  let n := N_of_ascii c in
  if ((65 <=? n) && (n <=? 90) ||
      (192 <=? n) && (n <=? 222) && negb (n =? 215))%N
  then ascii_of_N (n + 32) else c.

Fixpoint toLowerCase (s : string) : string :=
  match s with
  | EmptyString => EmptyString
  | String c r => String (lowerUnit c) (toLowerCase r)
  end.

(** [hay.includes(needle)] *)
Fixpoint includes (hay needle : string) : bool :=
  String.prefix needle hay ||
  match hay with
  | EmptyString => false
  | String _ r => includes r needle
  end.

(** The code units below 256 that [trim] strips, [WhiteSpace] and
    [LineTerminator]: TAB, LF, VT, FF, CR, SP and the no-break space
    U+00A0. *)
Definition isWhiteSpace (c : ascii) : bool :=
  let n := N_of_ascii c in
  ((9 <=? n) && (n <=? 13) || (n =? 32) || (n =? 160))%N.

Fixpoint trimStart (s : string) : string :=
  match s with
  | EmptyString => EmptyString
  | String c r => if isWhiteSpace c then trimStart r else s
  end.

Definition trim (s : string) : string :=
  String.rev (trimStart (String.rev (trimStart s))).

(** [s.split(".")[0]]: the part of [s] before its first dot. *)
Fixpoint splitHead (s : string) : string :=
  match s with
  | EmptyString => EmptyString
  | String c r => if Ascii.eqb c "." then EmptyString else String c (splitHead r)
  end.

(** Truthiness of a string that may be absent: [null], [undefined] and the
    empty string are falsy. *)
Definition truthy (o : option string) : bool :=
  match o with
  | Some s => negb (String.eqb s "")
  | None => false
  end.

(** [a || b] on strings. *)
Definition orElse (a b : string) : string :=
  if String.eqb a "" then b else a.

(** [Array.prototype.findIndex]; [None] stands for [-1]. *)
Fixpoint findIndex {A} (p : A → bool) (l : list A) : option nat :=
  match l with
  | [] => None
  | x :: l' => if p x then Some 0 else S <$> findIndex p l'
  end.

(** [l.splice(i, 0, x)]: a start index past the end is clamped to the end. *)
Definition insertAt {A} (i : nat) (x : A) (l : list A) : list A :=
  take i l ++ x :: drop i l.

(** The trimmed device record the Worker returns and the picker consumes. *)
Record Device := mkDevice {
  dev_id : string;
  dev_name : string;
  dev_displayName : string;
  dev_hostname : string;
  dev_addresses : list string;
  dev_os : string;
  dev_online : bool;
  dev_lastSeen : option string;
  dev_sshEnabled : bool;
}.

(** ** The Worker: [GET /api/devices] *)

Module Worker.

(** A device as the Tailscale API returns it (the fields the handler reads). *)
Record RawDevice := mkRaw {
  raw_id : string;
  raw_name : option string;
  raw_hostname : option string;
  raw_addresses : option (list string);
  raw_os : option string;
  raw_lastSeen : option string;
  raw_sshEnabled : option bool;
}.

(** An element of the [devices] array.  [null] has no properties, so
    reading [d.name] throws; a name that is truthy and not a string has no
    [split] method, so the callback throws on it as well.  Every other
    element is read through its fields, a field it lacks being [None]. *)
Inductive Element :=
| ElemNull
| ElemOddName
| ElemDevice (d : RawDevice).

(** [data.devices] *)
Inductive DevicesField :=
| DevicesAbsent                    (* undefined or null: [?? []] *)
| DevicesOther                     (* neither nullish nor an array: no [flatMap] *)
| DevicesArray (elements : list Element).

(** The body of the upstream answer, as [resp.json()] sees it. *)
Inductive Body :=
| BodyInvalid                      (* not JSON: [resp.json()] rejects *)
| BodyNull                         (* the value [null]: [data.devices] throws *)
| BodyData (devices : DevicesField).

(** The body of an answer whose [devices] field is absent or an array of
    device objects. *)
Definition jsonBody (devices : option (list RawDevice)) : Body :=
  BodyData match devices with
           | None => DevicesAbsent
           | Some l => DevicesArray (ElemDevice <$> l)
           end.

(** What the upstream [fetch] of the Tailscale API produced. *)
Inductive Upstream :=
| FetchThrows (message : string)
| FetchResponse (ok : bool) (status : nat) (body : Body).

(** What [handleDevices] answers with; [Throws] is an exception that
    nothing in the Worker catches. *)
Inductive Response :=
| ErrNoToken                       (* 500 *)
| ErrMethodNotAllowed              (* 405 *)
| ErrUnreachable (message : string)  (* 502 *)
| ErrUpstream (status : nat)
| Devices (devices : list Device)
| Throws.

Definition TEN_MINUTES : Z := 10 * 60 * 1000.

Section Handler.
(** [new Date(s).getTime()]: the time value in milliseconds, [None] for an
    invalid date. *)
Variable getTime : string → option Z.
(** [Date.now()] *)
Variable now : Z.

Definition lastSeenMs (d : RawDevice) : option Z :=
  if truthy (raw_lastSeen d)
  then getTime (default "" (raw_lastSeen d))
  else Some 0%Z.

(** [lastSeenMs > 0 && (now - lastSeenMs) < 10 * 60 * 1000]; every
    comparison with [NaN] is false. *)
Definition inferOnline (d : RawDevice) : bool :=
  match lastSeenMs d with
  | Some t => ((0 <? t) && (now - t <? TEN_MINUTES))%Z
  | None => false
  end.

(** The callback of [flatMap]. *)
Definition trimDevice (d : RawDevice) : list Device :=
  if truthy (raw_name d) then
    let name := default "" (raw_name d) in
    [ {| dev_id := raw_id d;
         dev_name := name;
         dev_displayName := splitHead name;
         dev_hostname := default "" (raw_hostname d);
         dev_addresses := default [] (raw_addresses d);
         dev_os := default "" (raw_os d);
         dev_online := inferOnline d;
         dev_lastSeen := raw_lastSeen d;
         dev_sshEnabled := default false (raw_sshEnabled d) |} ]
  else [].

(** [elements.flatMap(callback)]: the callback runs on the elements in
    order; [None] when it throws on one of them. *)
Fixpoint trimAll (elements : list Element) : option (list Device) :=
  match elements with
  | [] => Some []
  | ElemDevice d :: rest => (λ ds, trimDevice d ++ ds) <$> trimAll rest
  | ElemNull :: _ | ElemOddName :: _ => None
  end.

(** [await resp.json()] and the [flatMap] over [data.devices ?? []], neither
    inside a [try]. *)
Definition readDevices (body : Body) : option (list Device) :=
  match body with
  | BodyInvalid | BodyNull => None
  | BodyData DevicesAbsent => Some []
  | BodyData DevicesOther => None
  | BodyData (DevicesArray elements) => trimAll elements
  end.

Definition handleDevices (token : option string) (method : string)
    (upstream : Upstream) : Response :=
  if negb (truthy token) then ErrNoToken
  else if negb (String.eqb method "GET") then ErrMethodNotAllowed
  else match upstream with
       | FetchThrows msg => ErrUnreachable msg
       | FetchResponse ok status body =>
           if negb ok then
             ErrUpstream (if Nat.eqb status 401 || Nat.eqb status 403 then status else 502)
           else match readDevices body with
                | Some devices => Devices devices
                | None => Throws
                end
       end.
End Handler.

End Worker.

(** ** The device picker *)

Module Picker.

(** [a.displayName || a.name || ""] *)
Definition sortKey (d : Device) : string :=
  orElse (orElse (dev_displayName d) (dev_name d)) "".

Section Sort.
(** [String.prototype.localeCompare], the collation of the runtime. *)
Variable localeCompare : string → string → Z.

(** The comparator handed to [devices.sort]. *)
Definition compareDevices (a b : Device) : Z :=
  if negb (Bool.eqb (dev_sshEnabled a) (dev_sshEnabled b))
  then (if dev_sshEnabled a then -1 else 1)%Z
  else if negb (Bool.eqb (dev_online a) (dev_online b))
  then (if dev_online a then -1 else 1)%Z
  else localeCompare (sortKey a) (sortKey b).

(** [Array.prototype.sort] with a comparator: a stable sort.  For a
    consistent comparator the stably sorted permutation is unique; it is
    computed here by insertion from the right. *)
Fixpoint sortInsert {A} (cmp : A → A → Z) (x : A) (l : list A) : list A :=
  match l with
  | [] => [x]
  | y :: l' => if (cmp x y <=? 0)%Z then x :: y :: l' else y :: sortInsert cmp x l'
  end.

Definition arraySort {A} (cmp : A → A → Z) (l : list A) : list A :=
  foldr (sortInsert cmp) [] l.

(** The text a card is matched against by the search box. *)
Definition haystack (d : Device) : string :=
  toLowerCase
    (String.concat " "
       ([dev_displayName d; dev_hostname d; dev_os d] ++ dev_addresses d)).

(** [renderCards(query)]: the devices whose cards are appended to the grid,
    in order. *)
Definition renderCards (cards : list Device) (query : string) : list Device :=
  let q := toLowerCase (trim query) in
  List.filter (λ d, String.eqb q "" || includes (haystack d) q) cards.

(** What [loadPicker] leaves in the pane once the fetch has settled. *)
Inductive View :=
| LoadError
| NoDevices
| Cards (shown : list Device).

(** [loadPicker] after its [await]s, for what the Worker answered.  Every
    answer other than a device list ends in the [catch]: an error status
    fails the [resp.ok] test, and so does whatever the platform sends for
    an exception of the Worker, unless [resp.json()] rejects on it. *)
Definition loadPicker (response : Worker.Response) : View :=
  match response with
  | Worker.Devices devices =>
      match devices with
      | [] => NoDevices
      | _ => Cards (renderCards (arraySort compareDevices devices) "")
      end
  | _ => LoadError
  end.
End Sort.

End Picker.

(** ** The front end: [src/public/app.js] *)

Module App.

Inductive PaneContent := PaneBlank | PanePicker | PaneTerminal.

(** A tab object [{ id, tabEl, paneEl, session, label }].  Its two elements
    belong to it alone and are named by the object's reference; [session]
    is the handle of the closure stored in [tab.session]; [pane] is what
    [paneEl] holds. *)
Record Tab := mkTab {
  tab_id : N;
  session : option nat;
  label : string;
  pane : PaneContent;
}.

Definition set_session (v : option nat) (t : Tab) : Tab :=
  {| tab_id := tab_id t; session := v; label := label t; pane := pane t |}.
Definition set_label (v : string) (t : Tab) : Tab :=
  {| tab_id := tab_id t; session := session t; label := v; pane := pane t |}.
Definition set_pane (v : PaneContent) (t : Tab) : Tab :=
  {| tab_id := tab_id t; session := session t; label := label t; pane := v |}.

(** What one run of [openSession] that reached [runSSHSession] closed
    over: the tab object, the connection options and its local [closed]. *)
Record Session := mkSession {
  s_tab : nat;
  s_hostname : string;
  s_username : string;
  closed : bool;
}.

Definition set_closed (v : bool) (s : Session) : Session :=
  {| s_tab := s_tab s; s_hostname := s_hostname s;
     s_username := s_username s; closed := v |}.

(** The rest of [openSession] after [await promptUsername(device)]: the
    variables it still uses. *)
Record Cont := mkCont {
  k_tab : nat;
  k_device : Device;
  k_addr : string;
  k_displayName : string;
}.

Inductive Effect :=
| SessionClose (sid : nat)      (* tab.session.close() *)
| TabElRemove (r : nat)         (* tab.tabEl.remove() *)
| TabsSplice (r : nat)          (* tabs.splice(idx, 1) took the object out *)
| TabsClear                     (* tabs.length = 0 *)
| FetchDevices (r : nat)        (* loadPicker: fetch("/api/devices") *)
| RunSSH (r sid : nat)          (* runSSHSession(...) *)
| SessionEnd (r : nat)          (* onSessionEnd(tab, ipn) *)
| GateRelease                   (* cleanup: modalBusy = false *)
| Resolve (k : Cont) (result : option string)  (* the promise resolves *)
| IpnLogin                      (* ipn.login() *)
| IpnLogout.                    (* ipn.logout() *)

(** [window.localStorage]: its entries and what the browser lets the page
    do with them.  Every access throws while storage is blocked for the
    page; [setItem] throws while the quota is used up. *)
Record Storage := mkStorage {
  ls_items : gmap string string;
  ls_blocked : bool;
  ls_full : bool;
}.

(** The three methods the page calls; [None] is the exception thrown. *)
Definition getItem (key : string) (s : Storage) : option (option string) :=
  if ls_blocked s then None else Some (ls_items s !! key).

Definition setItem (key value : string) (s : Storage) : option Storage :=
  if ls_blocked s || ls_full s then None
  else Some {| ls_items := <[key:=value]> (ls_items s);
               ls_blocked := ls_blocked s; ls_full := ls_full s |}.

Definition removeItem (key : string) (s : Storage) : option Storage :=
  if ls_blocked s then None
  else Some {| ls_items := delete key (ls_items s);
               ls_blocked := ls_blocked s; ls_full := ls_full s |}.

Record State := mkState {
  tabIdSeq : N;  (* let tabIdSeq *)
  heap : list Tab;  (* the tab objects ever created, by reference *)
  tabs : list nat;  (* const tabs: references into the heap *)
  activeTabId : option N;  (* let activeTabId *)
  globalIpn : bool;  (* let globalIpn: is it non-null *)
  dragSrcId : option N;  (* let dragSrcId *)
  modalBusy : bool;  (* let modalBusy *)
  tabList : list nat;  (* children of #tab-list: the tabEl of each reference *)
  usernameInput : string;  (* usernameInput.value *)
  modalHidden : bool;  (* usernameModal has class hidden *)
  listeners : option Cont;  (* the click/keydown listeners of the open prompt and whom its promise resumes *)
  status : string;  (* the state last shown by setStatus *)
  localStorage : Storage;  (* window.localStorage *)
  sessions : list Session;  (* the closures created by openSession, by handle *)
  microtasks : list (Cont * option string);  (* resolved promises whose continuation has not run yet *)
  loginTimer : bool;  (* main: loginTimer !== null *)
  buttonsWired : bool;  (* main: buttonsWired *)
  ipnEverRan : bool;  (* main: ipnEverRan *)
  trace : list Effect;  (* the effects performed so far, oldest first *)
}.

Definition set_tabIdSeq (v : N) (st : State) : State :=
  {| tabIdSeq := v; heap := heap st; tabs := tabs st;
     activeTabId := activeTabId st; globalIpn := globalIpn st;
     dragSrcId := dragSrcId st; modalBusy := modalBusy st;
     tabList := tabList st; usernameInput := usernameInput st;
     modalHidden := modalHidden st; listeners := listeners st;
     status := status st; localStorage := localStorage st;
     sessions := sessions st; microtasks := microtasks st;
     loginTimer := loginTimer st; buttonsWired := buttonsWired st;
     ipnEverRan := ipnEverRan st; trace := trace st |}.
Definition set_heap (v : list Tab) (st : State) : State :=
  {| tabIdSeq := tabIdSeq st; heap := v; tabs := tabs st;
     activeTabId := activeTabId st; globalIpn := globalIpn st;
     dragSrcId := dragSrcId st; modalBusy := modalBusy st;
     tabList := tabList st; usernameInput := usernameInput st;
     modalHidden := modalHidden st; listeners := listeners st;
     status := status st; localStorage := localStorage st;
     sessions := sessions st; microtasks := microtasks st;
     loginTimer := loginTimer st; buttonsWired := buttonsWired st;
     ipnEverRan := ipnEverRan st; trace := trace st |}.
Definition set_tabs (v : list nat) (st : State) : State :=
  {| tabIdSeq := tabIdSeq st; heap := heap st; tabs := v;
     activeTabId := activeTabId st; globalIpn := globalIpn st;
     dragSrcId := dragSrcId st; modalBusy := modalBusy st;
     tabList := tabList st; usernameInput := usernameInput st;
     modalHidden := modalHidden st; listeners := listeners st;
     status := status st; localStorage := localStorage st;
     sessions := sessions st; microtasks := microtasks st;
     loginTimer := loginTimer st; buttonsWired := buttonsWired st;
     ipnEverRan := ipnEverRan st; trace := trace st |}.
Definition set_activeTabId (v : option N) (st : State) : State :=
  {| tabIdSeq := tabIdSeq st; heap := heap st; tabs := tabs st;
     activeTabId := v; globalIpn := globalIpn st; dragSrcId := dragSrcId st;
     modalBusy := modalBusy st; tabList := tabList st;
     usernameInput := usernameInput st; modalHidden := modalHidden st;
     listeners := listeners st; status := status st;
     localStorage := localStorage st; sessions := sessions st;
     microtasks := microtasks st; loginTimer := loginTimer st;
     buttonsWired := buttonsWired st; ipnEverRan := ipnEverRan st;
     trace := trace st |}.
Definition set_globalIpn (v : bool) (st : State) : State :=
  {| tabIdSeq := tabIdSeq st; heap := heap st; tabs := tabs st;
     activeTabId := activeTabId st; globalIpn := v;
     dragSrcId := dragSrcId st; modalBusy := modalBusy st;
     tabList := tabList st; usernameInput := usernameInput st;
     modalHidden := modalHidden st; listeners := listeners st;
     status := status st; localStorage := localStorage st;
     sessions := sessions st; microtasks := microtasks st;
     loginTimer := loginTimer st; buttonsWired := buttonsWired st;
     ipnEverRan := ipnEverRan st; trace := trace st |}.
Definition set_dragSrcId (v : option N) (st : State) : State :=
  {| tabIdSeq := tabIdSeq st; heap := heap st; tabs := tabs st;
     activeTabId := activeTabId st; globalIpn := globalIpn st;
     dragSrcId := v; modalBusy := modalBusy st; tabList := tabList st;
     usernameInput := usernameInput st; modalHidden := modalHidden st;
     listeners := listeners st; status := status st;
     localStorage := localStorage st; sessions := sessions st;
     microtasks := microtasks st; loginTimer := loginTimer st;
     buttonsWired := buttonsWired st; ipnEverRan := ipnEverRan st;
     trace := trace st |}.
Definition set_modalBusy (v : bool) (st : State) : State :=
  {| tabIdSeq := tabIdSeq st; heap := heap st; tabs := tabs st;
     activeTabId := activeTabId st; globalIpn := globalIpn st;
     dragSrcId := dragSrcId st; modalBusy := v; tabList := tabList st;
     usernameInput := usernameInput st; modalHidden := modalHidden st;
     listeners := listeners st; status := status st;
     localStorage := localStorage st; sessions := sessions st;
     microtasks := microtasks st; loginTimer := loginTimer st;
     buttonsWired := buttonsWired st; ipnEverRan := ipnEverRan st;
     trace := trace st |}.
Definition set_tabList (v : list nat) (st : State) : State :=
  {| tabIdSeq := tabIdSeq st; heap := heap st; tabs := tabs st;
     activeTabId := activeTabId st; globalIpn := globalIpn st;
     dragSrcId := dragSrcId st; modalBusy := modalBusy st; tabList := v;
     usernameInput := usernameInput st; modalHidden := modalHidden st;
     listeners := listeners st; status := status st;
     localStorage := localStorage st; sessions := sessions st;
     microtasks := microtasks st; loginTimer := loginTimer st;
     buttonsWired := buttonsWired st; ipnEverRan := ipnEverRan st;
     trace := trace st |}.
Definition set_usernameInput (v : string) (st : State) : State :=
  {| tabIdSeq := tabIdSeq st; heap := heap st; tabs := tabs st;
     activeTabId := activeTabId st; globalIpn := globalIpn st;
     dragSrcId := dragSrcId st; modalBusy := modalBusy st;
     tabList := tabList st; usernameInput := v;
     modalHidden := modalHidden st; listeners := listeners st;
     status := status st; localStorage := localStorage st;
     sessions := sessions st; microtasks := microtasks st;
     loginTimer := loginTimer st; buttonsWired := buttonsWired st;
     ipnEverRan := ipnEverRan st; trace := trace st |}.
Definition set_modalHidden (v : bool) (st : State) : State :=
  {| tabIdSeq := tabIdSeq st; heap := heap st; tabs := tabs st;
     activeTabId := activeTabId st; globalIpn := globalIpn st;
     dragSrcId := dragSrcId st; modalBusy := modalBusy st;
     tabList := tabList st; usernameInput := usernameInput st;
     modalHidden := v; listeners := listeners st; status := status st;
     localStorage := localStorage st; sessions := sessions st;
     microtasks := microtasks st; loginTimer := loginTimer st;
     buttonsWired := buttonsWired st; ipnEverRan := ipnEverRan st;
     trace := trace st |}.
Definition set_listeners (v : option Cont) (st : State) : State :=
  {| tabIdSeq := tabIdSeq st; heap := heap st; tabs := tabs st;
     activeTabId := activeTabId st; globalIpn := globalIpn st;
     dragSrcId := dragSrcId st; modalBusy := modalBusy st;
     tabList := tabList st; usernameInput := usernameInput st;
     modalHidden := modalHidden st; listeners := v; status := status st;
     localStorage := localStorage st; sessions := sessions st;
     microtasks := microtasks st; loginTimer := loginTimer st;
     buttonsWired := buttonsWired st; ipnEverRan := ipnEverRan st;
     trace := trace st |}.
Definition set_status (v : string) (st : State) : State :=
  {| tabIdSeq := tabIdSeq st; heap := heap st; tabs := tabs st;
     activeTabId := activeTabId st; globalIpn := globalIpn st;
     dragSrcId := dragSrcId st; modalBusy := modalBusy st;
     tabList := tabList st; usernameInput := usernameInput st;
     modalHidden := modalHidden st; listeners := listeners st; status := v;
     localStorage := localStorage st; sessions := sessions st;
     microtasks := microtasks st; loginTimer := loginTimer st;
     buttonsWired := buttonsWired st; ipnEverRan := ipnEverRan st;
     trace := trace st |}.
Definition set_localStorage (v : Storage) (st : State) : State :=
  {| tabIdSeq := tabIdSeq st; heap := heap st; tabs := tabs st;
     activeTabId := activeTabId st; globalIpn := globalIpn st;
     dragSrcId := dragSrcId st; modalBusy := modalBusy st;
     tabList := tabList st; usernameInput := usernameInput st;
     modalHidden := modalHidden st; listeners := listeners st;
     status := status st; localStorage := v; sessions := sessions st;
     microtasks := microtasks st; loginTimer := loginTimer st;
     buttonsWired := buttonsWired st; ipnEverRan := ipnEverRan st;
     trace := trace st |}.
Definition set_sessions (v : list Session) (st : State) : State :=
  {| tabIdSeq := tabIdSeq st; heap := heap st; tabs := tabs st;
     activeTabId := activeTabId st; globalIpn := globalIpn st;
     dragSrcId := dragSrcId st; modalBusy := modalBusy st;
     tabList := tabList st; usernameInput := usernameInput st;
     modalHidden := modalHidden st; listeners := listeners st;
     status := status st; localStorage := localStorage st; sessions := v;
     microtasks := microtasks st; loginTimer := loginTimer st;
     buttonsWired := buttonsWired st; ipnEverRan := ipnEverRan st;
     trace := trace st |}.
Definition set_microtasks (v : list (Cont * option string)) (st : State) : State :=
  {| tabIdSeq := tabIdSeq st; heap := heap st; tabs := tabs st;
     activeTabId := activeTabId st; globalIpn := globalIpn st;
     dragSrcId := dragSrcId st; modalBusy := modalBusy st;
     tabList := tabList st; usernameInput := usernameInput st;
     modalHidden := modalHidden st; listeners := listeners st;
     status := status st; localStorage := localStorage st;
     sessions := sessions st; microtasks := v; loginTimer := loginTimer st;
     buttonsWired := buttonsWired st; ipnEverRan := ipnEverRan st;
     trace := trace st |}.
Definition set_loginTimer (v : bool) (st : State) : State :=
  {| tabIdSeq := tabIdSeq st; heap := heap st; tabs := tabs st;
     activeTabId := activeTabId st; globalIpn := globalIpn st;
     dragSrcId := dragSrcId st; modalBusy := modalBusy st;
     tabList := tabList st; usernameInput := usernameInput st;
     modalHidden := modalHidden st; listeners := listeners st;
     status := status st; localStorage := localStorage st;
     sessions := sessions st; microtasks := microtasks st; loginTimer := v;
     buttonsWired := buttonsWired st; ipnEverRan := ipnEverRan st;
     trace := trace st |}.
Definition set_buttonsWired (v : bool) (st : State) : State :=
  {| tabIdSeq := tabIdSeq st; heap := heap st; tabs := tabs st;
     activeTabId := activeTabId st; globalIpn := globalIpn st;
     dragSrcId := dragSrcId st; modalBusy := modalBusy st;
     tabList := tabList st; usernameInput := usernameInput st;
     modalHidden := modalHidden st; listeners := listeners st;
     status := status st; localStorage := localStorage st;
     sessions := sessions st; microtasks := microtasks st;
     loginTimer := loginTimer st; buttonsWired := v;
     ipnEverRan := ipnEverRan st; trace := trace st |}.
Definition set_ipnEverRan (v : bool) (st : State) : State :=
  {| tabIdSeq := tabIdSeq st; heap := heap st; tabs := tabs st;
     activeTabId := activeTabId st; globalIpn := globalIpn st;
     dragSrcId := dragSrcId st; modalBusy := modalBusy st;
     tabList := tabList st; usernameInput := usernameInput st;
     modalHidden := modalHidden st; listeners := listeners st;
     status := status st; localStorage := localStorage st;
     sessions := sessions st; microtasks := microtasks st;
     loginTimer := loginTimer st; buttonsWired := buttonsWired st;
     ipnEverRan := v; trace := trace st |}.
Definition set_trace (v : list Effect) (st : State) : State :=
  {| tabIdSeq := tabIdSeq st; heap := heap st; tabs := tabs st;
     activeTabId := activeTabId st; globalIpn := globalIpn st;
     dragSrcId := dragSrcId st; modalBusy := modalBusy st;
     tabList := tabList st; usernameInput := usernameInput st;
     modalHidden := modalHidden st; listeners := listeners st;
     status := status st; localStorage := localStorage st;
     sessions := sessions st; microtasks := microtasks st;
     loginTimer := loginTimer st; buttonsWired := buttonsWired st;
     ipnEverRan := ipnEverRan st; trace := v |}.

Definition emit (e : Effect) (st : State) : State :=
  set_trace (trace st ++ [e]) st.

Definition init : State :=
  {| tabIdSeq := 0; heap := []; tabs := []; activeTabId := None;
     globalIpn := false; dragSrcId := None; modalBusy := false;
     tabList := []; usernameInput := ""; modalHidden := true;
     listeners := None; status := "";
     localStorage := {| ls_items := ∅; ls_blocked := false; ls_full := false |};
     sessions := [];
     microtasks := []; loginTimer := false; buttonsWired := false;
     ipnEverRan := false; trace := [] |}.

(** *** DOM primitives on a list of children *)

(** [node.remove()] *)
Definition removeNode (node : nat) (children : list nat) : list nat :=
  List.filter (λ x, negb (Nat.eqb x node)) children.

(** [parent.insertBefore(node, ref)]: [node] leaves its old place and lands
    just before [ref]; [None] is the [NotFoundError] thrown when [ref] is not
    a child. *)
Definition insertBefore (node ref : nat) (children : list nat) : option (list nat) :=
  if negb (existsb (Nat.eqb ref) children) then None
  else if Nat.eqb node ref then Some children
  else
    let rest := removeNode node children in
    match findIndex (Nat.eqb ref) rest with
    | Some i => Some (insertAt i node rest)
    | None => None
    end.

(** *** Helpers *)

Definition updTab (r : nat) (f : Tab → Tab) (st : State) : State :=
  set_heap (alter f r (heap st)) st.

(** [t.id === id] for the object behind a reference *)
Definition hasId (st : State) (id : N) (r : nat) : bool :=
  match heap st !! r with
  | Some t => N.eqb (tab_id t) id
  | None => false
  end.

Definition setStatus (state : string) (st : State) : State :=
  set_status state st.

Definition LS_PREFIX : string := "tailssh:user:".

(** [try { return localStorage.getItem(LS_PREFIX + hostname) ?? ""; }
    catch { return ""; }] *)
Definition getStoredUser (hostname : string) (st : State) : string :=
  match getItem (LS_PREFIX +:+ hostname) (localStorage st) with
  | Some v => default "" v
  | None => ""
  end.

(** [setItem] for a non-empty name, [removeItem] otherwise; an exception
    of either is caught and dropped. *)
Definition setStoredUser (hostname username : string) (st : State) : State :=
  let key := LS_PREFIX +:+ hostname in
  let result := if String.eqb username ""
                then removeItem key (localStorage st)
                else setItem key username (localStorage st) in
  match result with
  | Some s => set_localStorage s st
  | None => st
  end.

(** *** Username modal *)

(** [cleanup(result)] of the open prompt, whose promise resumes [k]. *)
Definition cleanup (k : Cont) (result : option string) (st : State) : State :=
  let st := emit GateRelease (set_modalBusy false st) in
  let st := set_modalHidden true st in
  let st := set_listeners None st in
  emit (Resolve k result) (set_microtasks (microtasks st ++ [(k, result)]) st).

Definition promptUsername (device : Device) (k : Cont) (st : State) : State :=
  if modalBusy st then
    emit (Resolve k None) (set_microtasks (microtasks st ++ [(k, None)]) st)
  else
    let st := set_modalBusy true st in
    let key := orElse (dev_displayName device) (dev_name device) in
    let stored := getStoredUser key st in
    let defaultUser :=
      orElse stored
        (if includes (toLowerCase (dev_os device)) "darwin" then "" else "root") in
    let st := set_usernameInput defaultUser st in
    let st := set_modalHidden false st in
    set_listeners (Some k) st.

Definition onConnect (st : State) : State :=
  match listeners st with
  | Some k =>
      let val := trim (usernameInput st) in
      if String.eqb val "" then st else cleanup k (Some val) st
  | None => st
  end.

Definition onCancel (st : State) : State :=
  match listeners st with
  | Some k => cleanup k None st
  | None => st
  end.

Definition onKey (key : string) (st : State) : State :=
  let st := if String.eqb key "Enter" then onConnect st else st in
  if String.eqb key "Escape" then onCancel st else st.

(** *** Tab manager *)

Definition getTab (id : N) (st : State) : option nat :=
  List.find (hasId st id) (tabs st).

Definition activateTab (id : N) (st : State) : State :=
  set_activeTabId (Some id) st.

Definition setTabLabel (id : N) (lbl : string) (st : State) : State :=
  match getTab id st with
  | None => st
  | Some r => updTab r (set_label lbl) st
  end.

(** [loadPicker(tab, ipn)] up to its first [await]. *)
Definition loadPicker (r : nat) (st : State) : State :=
  let st := match heap st !! r with
            | Some t => setTabLabel (tab_id t) "New tab" st
            | None => st
            end in
  let st := updTab r (set_pane PanePicker) st in
  emit (FetchDevices r) st.

Definition createTab (st : State) : State :=
  let id := (tabIdSeq st + 1)%N in
  let st := set_tabIdSeq id st in
  let r := length (heap st) in
  let st := set_tabList (tabList st ++ [r]) st in
  let st := set_heap (heap st ++ [mkTab id None "New tab" PaneBlank]) st in
  let st := set_tabs (tabs st ++ [r]) st in
  let st := activateTab id st in
  loadPicker r st.

(** [tab.session.close()] for the handle [sid]. *)
Definition sessionClose (sid : nat) (st : State) : State :=
  emit (SessionClose sid) (set_sessions (alter (set_closed true) sid (sessions st)) st).

(** [if (tab.session) { try { tab.session.close(); } catch {} tab.session = null; }] *)
Definition closeSessionOf (r : nat) (st : State) : State :=
  match heap st !! r with
  | Some t =>
      match session t with
      | Some sid => updTab r (set_session None) (sessionClose sid st)
      | None => st
      end
  | None => st
  end.

(** [tabs.splice(idx, 1)]; an index of [-1] counts from the end. *)
Definition spliceOut (idx : option nat) (l : list nat) : list nat :=
  match idx with
  | Some i => delete i l
  | None => removelast l
  end.

Definition closeTab (id : N) (st : State) : State :=
  match getTab id st with
  | None => st
  | Some r =>
      let st := closeSessionOf r st in
      let st := emit (TabElRemove r) (set_tabList (removeNode r (tabList st)) st) in
      let idx := findIndex (hasId st id) (tabs st) in
      let st := emit (TabsSplice r) (set_tabs (spliceOut idx (tabs st)) st) in
      match tabs st with
      | [] => if globalIpn st then createTab st else st
      | _ :: _ =>
          if bool_decide (activeTabId st = Some id) then
            match idx with
            | Some i =>
                match tabs st !! Nat.min i (length (tabs st) - 1) with
                | Some next =>
                    match heap st !! next with
                    | Some t => activateTab (tab_id t) st
                    | None => st
                    end
                | None => st
                end
            | None => st   (* tabs[-1] is undefined: reading its id throws *)
            end
          else st
      end
  end.

(** The body of the loop of [clearAllTabs]. *)
Definition destroyTab (st : State) (r : nat) : State :=
  let st := closeSessionOf r st in
  emit (TabElRemove r) (set_tabList (removeNode r (tabList st)) st).

Definition clearAllTabs (st : State) : State :=
  let st := fold_left destroyTab (tabs st) st in
  let st := emit TabsClear (set_tabs [] st) in
  set_activeTabId None st.

(** *** Drag-and-drop reorder *)

Definition onDragStart (id : N) (st : State) : State :=
  set_dragSrcId (Some id) st.

Definition onDrop (targetId : N) (st : State) : State :=
  match dragSrcId st with
  | None => st
  | Some src =>
      if N.eqb src targetId then st
      else
        match findIndex (hasId st src) (tabs st),
              findIndex (hasId st targetId) (tabs st) with
        | Some srcIdx, Some dstIdx =>
            match tabs st !! srcIdx, tabs st !! dstIdx with
            | Some srcTab, Some dstTab =>
                let st := set_tabs (insertAt dstIdx srcTab (delete srcIdx (tabs st))) st in
                match insertBefore srcTab dstTab (tabList st) with
                | Some children => set_tabList children st
                | None => st
                end
            | _, _ => st
            end
        | _, _ => st
        end
  end.

Definition onDragEnd (st : State) : State :=
  set_dragSrcId None st.

(** *** SSH session *)

(** [buildCard]: the address and the name a card's button connects with. *)
Definition cardAddr (d : Device) : string :=
  match List.find (λ a, negb (includes a ":")) (dev_addresses d) with
  | Some a => a
  | None => dev_name d
  end.

Definition cardDisplayName (d : Device) : string :=
  orElse (dev_displayName d)
    (if String.eqb (dev_name d) "" then "unknown" else splitHead (dev_name d)).

Definition canConnect (d : Device) : bool :=
  dev_online d && dev_sshEnabled d.

(** [openSession] up to [await promptUsername(device)]. *)
Definition openSession (r : nat) (d : Device) (addr displayName : string)
    (st : State) : State :=
  match heap st !! r with
  | Some t =>
      match session t with
      | Some _ => st
      | None => promptUsername d (mkCont r d addr displayName) st
      end
  | None => st
  end.

(** [openSession] from the point where the prompt's promise has resolved
    with [user]. *)
Definition openSession_resume (k : Cont) (user : option string) (st : State) : State :=
  match user with
  | None => st
  | Some u =>
      if String.eqb u "" then st
      else
        match heap st !! k_tab k with
        | Some t =>
            match session t with
            | Some _ => st
            | None =>
                let d := k_device k in
                let st := setStoredUser (orElse (dev_displayName d) (dev_name d)) u st in
                let lbl := u +:+ "@" +:+ k_displayName k in
                let st := setTabLabel (tab_id t) lbl st in
                let st := updTab (k_tab k) (set_pane PaneTerminal) st in
                let sid := length (sessions st) in
                let st := set_sessions
                            (sessions st ++ [mkSession (k_tab k) (k_addr k) u false]) st in
                let st := emit (RunSSH (k_tab k) sid) st in
                updTab (k_tab k) (set_session (Some sid)) st
            end
        | None => st
        end
  end.

Definition onSessionEnd (r : nat) (st : State) : State :=
  let st := emit (SessionEnd r) st in
  let st := updTab r (set_session None) st in
  let st := updTab r (set_pane PaneBlank) st in
  loadPicker r st.

(** The [onError] and [onDone] callbacks of the session with handle [sid]:
    [if (!closed) onSessionEnd(tab, ipn)]. *)
Definition onError (sid : nat) (st : State) : State :=
  match sessions st !! sid with
  | Some s => if closed s then st else onSessionEnd (s_tab s) st
  | None => st
  end.

Definition onDone (sid : nat) (st : State) : State :=
  match sessions st !! sid with
  | Some s => if closed s then st else onSessionEnd (s_tab s) st
  | None => st
  end.

(** *** Main: the handlers given to [ipn.run] *)

Definition scheduleLogin (st : State) : State :=
  set_loginTimer true st.

Definition notifyState (state : string) (st : State) : State :=
  let st := setStatus state st in
  if String.eqb state "Running" then
    let st := set_loginTimer false st in
    let st := set_ipnEverRan true st in
    let st := if buttonsWired st then st
              else set_globalIpn true (set_buttonsWired true st) in
    match tabs st with
    | [] => createTab st
    | _ :: _ => st
    end
  else if String.eqb state "NeedsLogin" || String.eqb state "NeedsMachineAuth" then
    scheduleLogin (clearAllTabs st)
  else if String.eqb state "Stopped" then clearAllTabs st
  else st.

Definition notifyPanicRecover (st : State) : State :=
  clearAllTabs st.

(** *** The event loop

    What the browser, the user and the Tailscale node can make the page do,
    one turn at a time.  Listeners exist only once they were registered:
    the new-tab and logout buttons after [buttonsWired], a card's button
    only for a device that can be connected to.  [StorageEvent] is the
    browser changing what [localStorage] holds or allows: another page of
    the origin writes to it, site data is cleared or blocked, the quota
    fills up. *)
Inductive Input :=
| NotifyState (state : string)
| NotifyPanicRecover
| NewTabClick
| LogoutClick
| TabCloseClick (id : N)
| TabClick (id : N)
| DragStart (id : N)
| Drop (targetId : N)
| DragEnd
| ConnectClick (r : nat) (d : Device)
| UsernameType (text : string)
| ModalConnectClick
| ModalCancelClick
| ModalKey (key : string)
| Microtask
| SshError (sid : nat)
| SshDone (sid : nat)
| LoginTimerFires
| StorageEvent (s : Storage).

Definition step (st : State) (i : Input) : State :=
  match i with
  | NotifyState state => notifyState state st
  | NotifyPanicRecover => notifyPanicRecover st
  | NewTabClick => if buttonsWired st then createTab st else st
  | LogoutClick => if buttonsWired st then emit IpnLogout st else st
  | TabCloseClick id => closeTab id st
  | TabClick id => activateTab id st
  | DragStart id => onDragStart id st
  | Drop targetId => onDrop targetId st
  | DragEnd => onDragEnd st
  | ConnectClick r d =>
      if canConnect d then openSession r d (cardAddr d) (cardDisplayName d) st else st
  | UsernameType text => set_usernameInput text st
  | ModalConnectClick => onConnect st
  | ModalCancelClick => onCancel st
  | ModalKey key => onKey key st
  | Microtask =>
      match microtasks st with
      | (k, result) :: rest => openSession_resume k result (set_microtasks rest st)
      | [] => st
      end
  | SshError sid => onError sid st
  | SshDone sid => onDone sid st
  | LoginTimerFires =>
      if loginTimer st then emit IpnLogin (set_loginTimer false st) else st
  | StorageEvent s => set_localStorage s st
  end.

Definition run (inputs : list Input) (st : State) : State :=
  fold_left step inputs st.

(** The ids of the tabs in the [tabs] array, in array order. *)
Definition tabIds (st : State) : list N :=
  omap (λ r, tab_id <$> heap st !! r) (tabs st).

(** The ids of the tab elements under [#tab-list], in document order. *)
Definition tabListIds (st : State) : list N :=
  omap (λ r, tab_id <$> heap st !! r) (tabList st).

End App.

(** ** Observations and predicates the properties are stated with *)

Module Obs.
Import Worker Picker App.

(** *** The directory and the picker *)

(** A clock for the examples: it knows two instants of 1 January 2026. *)
Definition sampleGetTime (s : string) : option Z :=
  if String.eqb s "2026-01-01T00:00:00Z" then Some 1767225600000%Z
  else if String.eqb s "2026-01-01T01:00:00Z" then Some 1767229200000%Z
  else None.

(** A device of the Tailscale API with a name, a [lastSeen] and an SSH flag. *)
Definition sampleRaw (name lastSeen : string) (ssh : bool) : RawDevice :=
  {| raw_id := "n1"; raw_name := Some name; raw_hostname := None;
     raw_addresses := None; raw_os := None; raw_lastSeen := Some lastSeen;
     raw_sshEnabled := Some ssh |}.

(** [x] is the first element of [l] that satisfies [p]. *)
Definition firstWith {A} (p : A → bool) (l : list A) (x : A) : Prop :=
  ∃ pre post, l = pre ++ x :: post ∧ Forall (λ y, p y = false) pre ∧ p x = true.

(** The name a device goes by in the picker: its display name, or its full
    name when it has none. *)
Definition shownName (d : Device) : string :=
  if String.eqb (dev_displayName d) "" then dev_name d else dev_displayName d.

(** The order of names a collation gives: [x] is not after [y]. *)
Definition collates (localeCompare : string → string → Z) (x y : string) : Prop :=
  (localeCompare x y ≤ 0)%Z.

(** The order of the specification: remote-shell-enabled first, then online
    first, then name ascending, [before] being the order of names. *)
Definition pickerOrder (before : string → string → Prop) (a b : Device) : Prop :=
  (dev_sshEnabled a = true ∧ dev_sshEnabled b = false) ∨
  (dev_sshEnabled a = dev_sshEnabled b ∧
   ((dev_online a = true ∧ dev_online b = false) ∨
    (dev_online a = dev_online b ∧ before (shownName a) (shownName b)))).

(** A collation for the examples: code-unit order of the lower-cased names. *)
Definition ciCompare (x y : string) : Z :=
  match String.compare (toLowerCase x) (toLowerCase y) with
  | Lt => (-1)%Z
  | Eq => 0%Z
  | Gt => 1%Z
  end.

(** *** The tab registry *)

(** Everything except the tab objects, the sessions, the modal, the store,
    the microtask queue and the trace. *)
Definition skeleton (st : State) :=
  (tabIdSeq st, tabs st, activeTabId st, globalIpn st, dragSrcId st,
   tabList st, status st, loginTimer st, buttonsWired st, ipnEverRan st).

(** The connectivity latches of [main] and the state shown in the badge. *)
Definition coord (st : State) : bool * bool * string :=
  (globalIpn st, buttonsWired st, status st).

(** The ids of all tab objects ever created, in creation order. *)
Definition heapIds (st : State) : list N := tab_id <$> heap st.

(** The [session] field of every tab object, in creation order. *)
Definition heapSessions (st : State) : list (option nat) := session <$> heap st.

(** The tab bar shows the tabs of the array in the array's order, no tab
    twice, and every reference is to an existing object. *)
Definition registryOk (st : State) : Prop :=
  tabList st = tabs st ∧ NoDup (tabs st) ∧
  Forall (λ r, r < length (heap st)) (tabs st).

(** Once anything was wired, shown as running or opened, the node handle
    is set. *)
Definition linked (st : State) : Prop :=
  (buttonsWired st = true → globalIpn st = true) ∧
  (status st = "Running" → globalIpn st = true) ∧
  (tabs st ≠ [] → globalIpn st = true).

(** The two operations of the registry the property ranges over. *)
Inductive TabOp :=
| Create
| Close (id : N).

(** [createTab] and [closeTab] called from outside, one after the other. *)
Definition applyOp (st : State) (op : TabOp) : State :=
  match op with
  | Create => createTab st
  | Close id => closeTab id st
  end.

Definition runOps (ops : list TabOp) (st : State) : State :=
  fold_left applyOp ops st.

(** Ids were handed out in increasing order and none exceeds the counter;
    the array lists existing objects in the order they were created. *)
Definition idsOk (st : State) : Prop :=
  StronglySorted N.lt (heapIds st) ∧
  Forall (λ id, (id ≤ tabIdSeq st)%N) (heapIds st) ∧
  StronglySorted lt (tabs st) ∧
  Forall (λ r, r < length (heap st)) (tabs st).

(** *** Sessions and prompts *)

(** The [close()] calls [closeSessionOf] makes. *)
Definition closeEvents (st : State) (r : nat) : list Effect :=
  match heap st !! r with
  | Some t =>
      match session t with
      | Some sid => [SessionClose sid]
      | None => []
      end
  | None => []
  end.

(** The session with handle [sid] had its [close()] called: its [closed]
    flag is set. *)
Definition closedAt (st : State) (sid : nat) : Prop :=
  closed <$> sessions st !! sid = Some true.

(** Is the effect a run of [onSessionEnd] for the tab object [r]? *)
Definition isSessionEnd (r : nat) (e : Effect) : bool :=
  match e with
  | SessionEnd r' => Nat.eqb r' r
  | _ => false
  end.

(** How many times [onSessionEnd] ran for the tab object [r]. *)
Definition sessionEnds (r : nat) (st : State) : nat :=
  length (List.filter (isSessionEnd r) (trace st)).

(** An [onError] or [onDone] callback of the session [sid]. *)
Definition isCallbackOf (sid : nat) (i : Input) : Prop :=
  i = SshError sid ∨ i = SshDone sid.

(** The inputs that only move a prompt forward: a click on a card, typing,
    the modal's buttons and keys, and a continuation being resumed.  None
    of them closes a session, ends one or closes a tab. *)
Definition promptPhase (i : Input) : bool :=
  match i with
  | ConnectClick _ _ | UsernameType _ | ModalConnectClick | ModalCancelClick
  | ModalKey _ | Microtask => true
  | _ => false
  end.

(** How many times [runSSHSession] was called for the tab object [r]. *)
Definition sessionsOf (r : nat) (st : State) : nat :=
  length (List.filter (λ s, Nat.eqb (s_tab s) r) (sessions st)).

(** The part of the state a prompt works on. *)
Definition promptView (st : State) :=
  (heap st, sessions st).

(** Where the prompt stands, relative to the state [st0] it started from. *)
Definition stage (st0 st : State) (busy : bool) (waiting : option Cont)
    (queue : list (Cont * option string)) : Prop :=
  promptView st = promptView st0 ∧ modalBusy st = busy ∧
  listeners st = waiting ∧ microtasks st = queue.

(** The continuation a click on the card of [d] in the picker of [r]
    leaves behind. *)
Definition cardCont (r : nat) (d : Device) : Cont :=
  mkCont r d (cardAddr d) (cardDisplayName d).

(** *** States used in the scenarios *)

(** The workspace after three tabs were opened: ids [1; 2; 3]. *)
Definition threeTabs : State :=
  run [NotifyState "Running"; NewTabClick; NewTabClick] init.

Definition sampleDevice : Device :=
  mkDevice "n1" "a.ts.net" "a" "host-a" ["100.64.0.1"] "linux" true None true.

(** One tab, connected to [sampleDevice] as [alice]. *)
Definition connected : State :=
  run [NotifyState "Running"; ConnectClick 0 sampleDevice; UsernameType "alice";
       ModalConnectClick; Microtask] init.

End Obs.

(** ** The Worker's router *)

Module Router.
Import Worker.

(** What [fetch(request, env)] answers with. *)
Inductive Reply :=
| Healthz                          (* json({ ok: true }) *)
| Api (response : Response)        (* handleDevices(request, env) *)
| NotFound.                        (* new Response("Not found", { status: 404 }) *)

Definition fetch (getTime : string → option Z) (now : Z) (pathname : string)
    (token : option string) (method : string) (upstream : Upstream) : Reply :=
  if String.eqb pathname "/api/healthz" then Healthz
  else if String.eqb pathname "/api/devices"
  then Api (handleDevices getTime now token method upstream)
  else NotFound.

(** The [status] each reply is built with; [json] defaults it to 200.
    When the handler throws there is no reply of the Worker's own. *)
Definition replyStatus (r : Reply) : option nat :=
  match r with
  | Healthz => Some 200
  | NotFound => Some 404
  | Api ErrNoToken => Some 500
  | Api ErrMethodNotAllowed => Some 405
  | Api (ErrUnreachable _) => Some 502
  | Api (ErrUpstream status) => Some status
  | Api (Devices _) => Some 200
  | Api Throws => None
  end.

End Router.

(** ** Device cards *)

Module Cards.

Inductive Icon := Penguin | Apple | Window | Robot | Phone | Laptop.

Definition osIcon (os : string) : Icon :=
  let o := toLowerCase os in
  if includes o "linux" then Penguin
  else if includes o "darwin" || includes o "mac" then Apple
  else if includes o "windows" then Window
  else if includes o "android" then Robot
  else if includes o "ios" then Phone
  else Laptop.

(** The branch [relativeTime] returns from, with the number it prints;
    [DaysAgo None] is the last branch reached with [NaN]. *)
Inductive Age :=
| Never
| JustNow
| MinutesAgo (m : Z)
| HoursAgo (h : Z)
| DaysAgo (d : option Z).

Section Clock.
Variable getTime : string → option Z.
Variable now : Z.

(** [relativeTime(iso)] up to the text: for an invalid date [diff] is [NaN],
    every comparison fails and the last [return] is taken. *)
Definition relativeAge (iso : option string) : Age :=
  if negb (truthy iso) then Never
  else match getTime (default "" iso) with
       | None => DaysAgo None
       | Some t =>
           let diff := (now - t)%Z in
           let m := (diff / 60000)%Z in
           if (m <? 1)%Z then JustNow
           else if (m <? 60)%Z then MinutesAgo m
           else let h := (m / 60)%Z in
                if (h <? 24)%Z then HoursAgo h
                else DaysAgo (Some (h / 24)%Z)
       end.

Definition ageText (a : Age) : string :=
  match a with
  | Never => "never"
  | JustNow => "just now"
  | MinutesAgo m => pretty m +:+ "m ago"
  | HoursAgo h => pretty h +:+ "h ago"
  | DaysAgo (Some d) => pretty d +:+ "d ago"
  | DaysAgo None => "NaNd ago"
  end.

Definition relativeTime (iso : option string) : string :=
  ageText (relativeAge iso).

(** What [buildCard] puts on a card. *)
Record Card := mkCard {
  card_icon : Icon;
  card_name : string;
  card_os : string;
  card_ipv4 : string;
  card_ipv6 : option string;
  card_lastSeen : string;
  card_badge : string;
  card_button : string;
  card_disabled : bool;
  card_title : option string;
  card_onClick : option (string * string);  (* the addr and displayName given to openSession *)
}.

Definition buildCard (device : Device) : Card :=
  let addrs := dev_addresses device in
  let ipv4 := App.cardAddr device in
  let ipv6 := List.find (λ a, includes a ":") addrs in
  let displayName := App.cardDisplayName device in
  let canConnect := App.canConnect device in
  let disabledReason :=
    if negb (dev_online device) then Some "Device is offline"
    else if negb (dev_sshEnabled device)
    then Some "Tailscale SSH not enabled on this device"
    else None in
  {| card_icon := osIcon (dev_os device);
     card_name := displayName;
     card_os := orElse (dev_os device) "unknown";
     card_ipv4 := ipv4;
     card_ipv6 := ipv6;
     card_lastSeen := "Last seen: " +:+ relativeTime (dev_lastSeen device);
     card_badge := if dev_online device then "Online" else "Offline";
     card_button := if dev_sshEnabled device then "Connect" else "SSH disabled";
     card_disabled := negb canConnect;
     card_title := if canConnect then None else disabledReason;
     card_onClick := if canConnect then Some (ipv4, displayName) else None |}.
End Clock.

End Cards.

(** ** Invariants and counters of the event loop *)

Module Inv.
Import App Obs.

(** No tab is listed twice, every reference is to an existing object, ids
    were handed out in increasing order and none exceeds the counter. *)
Definition wellFormed (st : State) : Prop :=
  NoDup (tabs st) ∧
  Forall (λ r, r < length (heap st)) (tabs st) ∧
  StronglySorted N.lt (heapIds st) ∧
  Forall (λ id, (id ≤ tabIdSeq st)%N) (heapIds st).

(** [st'] has the objects and the counter of [st] and no tab [st] lacks. *)
Definition shrinks (st st' : State) : Prop :=
  heapIds st' = heapIds st ∧ tabIdSeq st' = tabIdSeq st ∧ tabs st' ⊆+ tabs st.

(** While there are tabs, the active id is the id of one of them. *)
Definition activeOk (st : State) : Prop :=
  tabs st ≠ [] → ∃ id, activeTabId st = Some id ∧ id ∈ tabIds st.

(** Every click on a tab in the run is on a tab that is in the array at
    that moment: only those have an element to click on. *)
Fixpoint clicksLive (inputs : list Input) (st : State) : Prop :=
  match inputs with
  | [] => True
  | i :: rest =>
      (∀ id, i = TabClick id → id ∈ tabIds st) ∧ clicksLive rest (step st i)
  end.

Definition isLogin (e : Effect) : bool :=
  match e with
  | IpnLogin => true
  | _ => false
  end.

(** How many times [ipn.login()] was called. *)
Definition logins (st : State) : nat :=
  length (List.filter isLogin (trace st)).

(** The states whose notification tears the workspace down. *)
Definition tearsDown (state : string) : Prop :=
  state = "NeedsLogin" ∨ state = "NeedsMachineAuth" ∨ state = "Stopped".

(** The turn leaves the array, the ids, the counter, the latches and the
    tab bar alone. *)
Definition quiet (st st' : State) : Prop :=
  tabs st' = tabs st ∧ heapIds st' = heapIds st ∧
  tabIdSeq st' = tabIdSeq st ∧ coord st' = coord st ∧
  tabList st' = tabList st.

(** Either a panic or the notification of a state that tears down. *)
Definition isTeardown (i : Input) : Prop :=
  i = NotifyPanicRecover ∨ ∃ state, i = NotifyState state ∧ tearsDown state.

(** The states in which the node asks for a login. *)
Definition needsAuth (state : string) : Prop :=
  state = "NeedsLogin" ∨ state = "NeedsMachineAuth".

(** The tab bar and the array hold the same tabs, in whatever order. *)
Definition sameTabs (st : State) : Prop :=
  tabList st ≡ₚ tabs st.

(** The session fields of the tab objects and the session handles. *)
Definition View : Type := list (option nat) * list Session.

Definition view (st : State) : View := (heapSessions st, sessions st).

(** What the page does to the sessions: a new tab object holds none;
    [runSSHSession] gives a tab without a session a new handle;
    [tab.session.close()] closes the handle of a tab of the array and
    clears the field; [onSessionEnd] clears the field. *)
Inductive viewStep (live : list nat) : View → View → Prop :=
| view_new hs ss :
    viewStep live (hs, ss) (hs ++ [None], ss)
| view_open hs ss r a u :
    hs !! r = Some None →
    viewStep live (hs, ss)
      (<[r:=Some (length ss)]> hs, ss ++ [mkSession r a u false])
| view_close hs ss r sid :
    r ∈ live → hs !! r = Some (Some sid) →
    viewStep live (hs, ss) (<[r:=None]> hs, alter (set_closed true) sid ss)
| view_end hs ss r :
    viewStep live (hs, ss) (<[r:=None]> hs, ss).

(** The session a tab object holds was opened for that tab and its handle
    has not been closed. *)
Definition heldOpen (v : View) : Prop :=
  ∀ r sid, v.1 !! r = Some (Some sid) →
    ∃ s, v.2 !! sid = Some s ∧ s_tab s = r ∧ closed s = false.

(** The session [sid] was opened for the tab object [r] and is not closed. *)
Definition openFor (sid r : nat) (v : View) : Prop :=
  ∃ s, v.2 !! sid = Some s ∧ s_tab s = r ∧ closed s = false.

(** An id that was issued and is not in the array. *)
Definition retired (id : N) (st : State) : Prop :=
  (id ≤ tabIdSeq st)%N ∧ id ∉ tabIds st.

(** The state Running is never shown over an empty tab bar. *)
Definition shown (st : State) : Prop :=
  status st = "Running" → tabs st ≠ [].

End Inv.

(** * Properties *)

(** ** The Worker's [online] flag *)

Module WorkerSpec.
Import Worker Obs.

#[local] Open Scope Z_scope.

Lemma truthy_Some (o : option string) :
  truthy o = true ↔ ∃ s, o = Some s ∧ s ≠ "".
Proof.
  destruct o as [s|]; simpl.
  - rewrite negb_true_iff, String.eqb_neq. split.
    + intros H. exists s. auto.
    + intros (s' & [= <-] & H). exact H.
  - split; [discriminate | intros (s & [=] & _)].
Qed.

Lemma inferOnline_spec getTime now (d : RawDevice) :
  inferOnline getTime now d = true ↔
  ∃ s t, raw_lastSeen d = Some s ∧ s ≠ "" ∧ getTime s = Some t ∧
         0 < t ∧ now - t < TEN_MINUTES.
Proof.
  unfold inferOnline, lastSeenMs.
  destruct (truthy (raw_lastSeen d)) eqn:Htr.
  - apply truthy_Some in Htr as (s & Hs & Hne). rewrite Hs. simpl.
    destruct (getTime s) as [t|] eqn:Ht.
    + rewrite andb_true_iff, Z.ltb_lt, Z.ltb_lt. split.
      * intros [H1 H2]. exists s, t. auto.
      * intros (s' & t' & [= <-] & _ & Ht' & H1 & H2).
        rewrite Ht in Ht'. injection Ht' as <-. auto.
    + split; [discriminate|].
      intros (s' & t' & [= <-] & _ & Ht' & _). congruence.
  - simpl. split; [discriminate|].
    intros (s & t & Hs & Hne & _).
    assert (truthy (raw_lastSeen d) = true) by (apply truthy_Some; eauto).
    congruence.
Qed.

Lemma trimDevice_elem getTime now (r : RawDevice) (d : Device) :
  d ∈ trimDevice getTime now r →
  dev_online d = inferOnline getTime now r ∧ dev_lastSeen d = raw_lastSeen r ∧
  dev_name d ≠ "".
Proof.
  unfold trimDevice. destruct (truthy (raw_name r)) eqn:Hn.
  - intros ->%list_elem_of_singleton. simpl.
    apply truthy_Some in Hn as (s & -> & Hne). auto.
  - intros H. inversion H.
Qed.

(** The callback throws on the first element that is [null] or has an odd
    name; otherwise the records are those of the device objects, in order. *)
Lemma trimAll_Some getTime now (elements : list Element) (devices : list Device) :
  trimAll getTime now elements = Some devices ↔
  ∃ raws, elements = ElemDevice <$> raws ∧
          devices = flat_map (trimDevice getTime now) raws.
Proof.
  revert devices. induction elements as [|e l IH]; intros devices; simpl.
  - split.
    + intros [= <-]. by exists [].
    + intros (raws & Hl & ->). by destruct raws.
  - destruct e as [| |r]; simpl.
    + split; [done|]. intros (raws & Hl & _). by destruct raws.
    + split; [done|]. intros (raws & Hl & _). by destruct raws.
    + destruct (trimAll getTime now l) as [ds|] eqn:Hl; simpl.
      * split.
        -- intros [= <-]. destruct (proj1 (IH ds) eq_refl) as (raws & -> & ->).
           by exists (r :: raws).
        -- intros (raws & Hraws & ->). destruct raws as [|r' raws]; [done|].
           injection Hraws as <- ->. simpl. do 2 f_equal.
           symmetry. assert (Some ds = Some (flat_map (trimDevice getTime now) raws))
             as [= ->]; [|done].
           apply IH. eauto.
      * split; [done|]. intros (raws & Hraws & ->).
        destruct raws as [|r' raws]; [done|]. injection Hraws as <- ->.
        assert (None = Some (flat_map (trimDevice getTime now) raws)); [|done].
        apply IH. eauto.
Qed.

(** The body is read without an exception exactly when its [devices] field
    is absent or an array of device objects. *)
Lemma readDevices_Some getTime now (body : Body) (devices : list Device) :
  readDevices getTime now body = Some devices ↔
  ∃ raws, body = jsonBody raws ∧
          devices = flat_map (trimDevice getTime now) (default [] raws).
Proof.
  unfold readDevices, jsonBody. destruct body as [| |[| |l]].
  - split; [done|]. by intros ([?|] & [=] & _).
  - split; [done|]. by intros ([?|] & [=] & _).
  - split.
    + intros [= <-]. by exists None.
    + intros ([?|] & [=] & ->). done.
  - split; [done|]. by intros ([?|] & [=] & _).
  - rewrite trimAll_Some. split.
    + intros (raws & -> & ->). by exists (Some raws).
    + intros ([raws|] & [=] & ->). eauto.
Qed.

Lemma jsonBody_inj (a b : option (list RawDevice)) :
  jsonBody a = jsonBody b → a = b.
Proof.
  unfold jsonBody. destruct a as [l|], b as [k|]; intros H; try done.
  injection H as H. f_equal.
  revert k H. induction l as [|x l IH]; intros [|y k] H; try done.
  injection H as -> H. f_equal. by apply IH.
Qed.

Lemma handleDevices_Devices getTime now token method upstream devices :
  handleDevices getTime now token method upstream = Devices devices ↔
  truthy token = true ∧ method = "GET" ∧
  ∃ status raws,
    upstream = FetchResponse true status (jsonBody raws) ∧
    devices = flat_map (trimDevice getTime now) (default [] raws).
Proof.
  unfold handleDevices. destruct (truthy token); simpl.
  2:{ split; [done|]. by intros [? _]. }
  destruct (String.eqb_spec method "GET") as [->|Hm]; simpl.
  2:{ split; [done|]. by intros (_ & ? & _). }
  destruct upstream as [msg|ok st body].
  { split; [done|]. by intros (_ & _ & ? & ? & ? & _). }
  destruct ok; simpl.
  2:{ split; [done|]. by intros (_ & _ & ? & ? & [=] & _). }
  destruct (readDevices getTime now body) as [ds|] eqn:Hb.
  - apply readDevices_Some in Hb as (raws & -> & ->). split.
    + intros [= <-]. eauto 10.
    + intros (_ & _ & status & raws' & Heq & ->). f_equal.
      assert (jsonBody raws = jsonBody raws') as ->%jsonBody_inj by congruence.
      done.
  - split; [done|]. intros (_ & _ & status & raws & Heq & ->).
    assert (body = jsonBody raws) as -> by congruence.
    assert (readDevices getTime now (jsonBody raws) =
            Some (flat_map (trimDevice getTime now) (default [] raws))) as Hs
      by (apply readDevices_Some; eauto).
    congruence.
Qed.

Lemma handleDevices_elem getTime now token method upstream devices (d : Device) :
  handleDevices getTime now token method upstream = Devices devices →
  d ∈ devices →
  ∃ r, d ∈ trimDevice getTime now r.
Proof.
  intros (_ & _ & status & raws & _ & ->)%handleDevices_Devices Hd.
  apply list_elem_of_In, in_flat_map in Hd as (r & _ & Hr).
  exists r. by apply list_elem_of_In.
Qed.

(** C10, as the code has it: a returned record is online exactly when its
    [lastSeen] is a non-empty string whose time value [t] is positive and
    satisfies [now - t < 10 min], a signed difference. *)
Theorem online_iff_recent_lastSeen
    getTime now token method upstream devices (d : Device) :
  handleDevices getTime now token method upstream = Devices devices →
  d ∈ devices →
  (dev_online d = true ↔
   ∃ s t, dev_lastSeen d = Some s ∧ s ≠ "" ∧ getTime s = Some t ∧
          0 < t ∧ now - t < 10 * 60 * 1000).
Proof.
  intros Hresp Hd.
  destruct (handleDevices_elem _ _ _ _ _ _ _ Hresp Hd) as (r & Hr).
  apply trimDevice_elem in Hr as (-> & -> & _).
  apply inferOnline_spec.
Qed.

Lemma online_iff_recent_lastSeen_witness :
  let d := {| dev_id := "n1"; dev_name := "a.ts.net"; dev_displayName := "a";
              dev_hostname := ""; dev_addresses := []; dev_os := "";
              dev_online := true; dev_lastSeen := Some "2026-01-01T00:00:00Z";
              dev_sshEnabled := true |} in
  dev_online d = true ↔
  ∃ s t, dev_lastSeen d = Some s ∧ s ≠ "" ∧ sampleGetTime s = Some t ∧
         0 < t ∧ 1767225660000 - t < 10 * 60 * 1000.
Proof.
  intros d.
  apply (online_iff_recent_lastSeen sampleGetTime 1767225660000 (Some "tskey")
           "GET"
           (FetchResponse true 200
              (jsonBody (Some [sampleRaw "a.ts.net" "2026-01-01T00:00:00Z" true])))
           [d] d).
  - reflexivity.
  - apply list_elem_of_here.
Defined.

(** C10, as stated, fails: a [lastSeen] one hour after the handler's clock
    is at a distance of sixty minutes, and the record is online. *)
Lemma online_future_lastSeen :
  let now := 1767225600000 in
  ∃ d t,
    handleDevices sampleGetTime now (Some "tskey") "GET"
      (FetchResponse true 200
         (jsonBody (Some [sampleRaw "a.ts.net" "2026-01-01T01:00:00Z" true])))
    = Devices [d] ∧
    dev_lastSeen d = Some "2026-01-01T01:00:00Z" ∧
    sampleGetTime "2026-01-01T01:00:00Z" = Some t ∧
    dev_online d = true ∧
    ¬ (Z.abs (now - t) < 10 * 60 * 1000).
Proof.
  eexists _, _. split; [reflexivity|].
  split; [reflexivity|]. split; [reflexivity|]. split; [reflexivity|].
  vm_compute. intros H. discriminate H.
Qed.

End WorkerSpec.

(** ** The order of the picker's cards *)

Module PickerSpec.
Import Worker Picker Obs.

Lemma sortKey_shownName (d : Device) : sortKey d = shownName d.
Proof.
  unfold sortKey, shownName, orElse.
  destruct (String.eqb_spec (dev_displayName d) "") as [He|Hne].
  - by destruct (String.eqb (dev_name d) "") eqn:E; [apply String.eqb_eq in E|].
  - by destruct (String.eqb_spec (dev_displayName d) "").
Qed.

Lemma pickerOrder_trans (before : string → string → Prop) a b c :
  (∀ x y z, before x y → before y z → before x z) →
  pickerOrder before a b → pickerOrder before b c → pickerOrder before a c.
Proof.
  intros Htrans. unfold pickerOrder.
  destruct (dev_sshEnabled a), (dev_sshEnabled b), (dev_sshEnabled c),
    (dev_online a), (dev_online b), (dev_online c);
    intros [[? ?]|[? [[? ?]|[? Hab]]]] [[? ?]|[? [[? ?]|[? Hbc]]]];
    try discriminate; auto.
  all: right; split; [done|]; right; split; [done|]; by eapply Htrans.
Qed.

Lemma sortInsert_perm {A} (cmp : A → A → Z) x l :
  sortInsert cmp x l ≡ₚ x :: l.
Proof.
  induction l as [|y l IH]; simpl; [done|].
  destruct (cmp x y <=? 0)%Z; [done|].
  rewrite IH. apply Permutation_swap.
Qed.

Lemma arraySort_perm {A} (cmp : A → A → Z) l :
  arraySort cmp l ≡ₚ l.
Proof.
  induction l as [|x l IH]; simpl; [done|].
  rewrite sortInsert_perm. by constructor.
Qed.

Section Sorted.
Context {A : Type} (cmp : A → A → Z) (R : A → A → Prop).
Hypothesis R_trans : ∀ x y z, R x y → R y z → R x z.
Hypothesis cmp_le : ∀ x y, (cmp x y ≤ 0)%Z → R x y.
Hypothesis cmp_gt : ∀ x y, (0 < cmp x y)%Z → R y x.

Lemma sortInsert_sorted x l :
  StronglySorted R l → StronglySorted R (sortInsert cmp x l).
Proof.
  induction 1 as [|y l Hl IH Hy]; simpl.
  - repeat constructor.
  - destruct (Z.leb_spec (cmp x y) 0) as [Hle|Hgt].
    + constructor; [by constructor|].
      constructor; [by apply cmp_le|].
      eapply Forall_impl; [exact Hy|].
      intros z Hz. eapply R_trans; [|exact Hz]. by apply cmp_le.
    + constructor; [exact IH|].
      rewrite sortInsert_perm. constructor; [by apply cmp_gt | exact Hy].
Qed.

Lemma arraySort_sorted l : StronglySorted R (arraySort cmp l).
Proof.
  induction l as [|x l IH]; simpl; [constructor|].
  by apply sortInsert_sorted.
Qed.
End Sorted.

Section Collation.
Variable localeCompare : string → string → Z.
(** What ECMAScript requires of [localeCompare]: it is a consistent
    comparison function, so it orders all strings totally.  Nothing is
    assumed of which strings it puts first. *)
Hypothesis localeCompare_total :
  ∀ x y, (localeCompare x y ≤ 0 ∨ localeCompare y x ≤ 0)%Z.
Hypothesis localeCompare_trans :
  ∀ x y z, (localeCompare x y ≤ 0)%Z → (localeCompare y z ≤ 0)%Z →
           (localeCompare x z ≤ 0)%Z.

Lemma compareDevices_le a b :
  (compareDevices localeCompare a b ≤ 0)%Z →
  pickerOrder (collates localeCompare) a b.
Proof.
  unfold compareDevices, pickerOrder, collates. rewrite !sortKey_shownName.
  destruct (dev_sshEnabled a), (dev_sshEnabled b),
    (dev_online a), (dev_online b); simpl; intros H; try lia; auto.
  all: right; split; [done|]; right; split; [done|]; auto.
Qed.

Lemma compareDevices_gt a b :
  (0 < compareDevices localeCompare a b)%Z →
  pickerOrder (collates localeCompare) b a.
Proof using localeCompare_total.
  unfold compareDevices, pickerOrder, collates. rewrite !sortKey_shownName.
  destruct (dev_sshEnabled a), (dev_sshEnabled b),
    (dev_online a), (dev_online b); simpl; intros H; try lia; auto.
  all: right; split; [done|]; right; split; [done|].
  all: destruct (localeCompare_total (shownName a) (shownName b)); [lia|done].
Qed.



Lemma arraySort_pickerOrder (devices : list Device) :
  StronglySorted (pickerOrder (collates localeCompare))
    (arraySort (compareDevices localeCompare) devices).
Proof using localeCompare_total localeCompare_trans.
  apply arraySort_sorted.
  - intros a b c. apply pickerOrder_trans. exact localeCompare_trans.
  - apply compareDevices_le.
  - apply compareDevices_gt.
Qed.

End Collation.

Lemma ciCompare_le x y :
  (ciCompare x y ≤ 0)%Z ↔ (toLowerCase x ≤ toLowerCase y)%string.
Proof.
  unfold ciCompare, String.le, String.leb.
  destruct (String.compare (toLowerCase x) (toLowerCase y)); simpl; split;
    intros H; try done; lia.
Qed.

Lemma ciCompare_total x y : (ciCompare x y ≤ 0 ∨ ciCompare y x ≤ 0)%Z.
Proof.
  rewrite !ciCompare_le.
  destruct (total String.le (toLowerCase x) (toLowerCase y)); auto.
Qed.

Lemma ciCompare_trans x y z :
  (ciCompare x y ≤ 0)%Z → (ciCompare y z ≤ 0)%Z → (ciCompare x z ≤ 0)%Z.
Proof. rewrite !ciCompare_le. apply transitivity. Qed.


End PickerSpec.

(** ** Array and DOM helpers *)

Section ListHelpers.
Context {A : Type}.
Implicit Types (l : list A) (p : A → bool).

Lemma findIndex_Some p l i :
  findIndex p l = Some i → ∃ x, l !! i = Some x ∧ p x = true.
Proof.
  revert i. induction l as [|y l IH]; intros i; simpl; [discriminate|].
  destruct (p y) eqn:Hy.
  - intros [= <-]. eauto.
  - destruct (findIndex p l) as [j|]; [|discriminate].
    intros [= <-]. simpl. by apply IH.
Qed.

Lemma findIndex_find p l i x :
  findIndex p l = Some i → l !! i = Some x → List.find p l = Some x.
Proof.
  revert i. induction l as [|y l IH]; intros i; simpl; [discriminate|].
  destruct (p y) eqn:Hy.
  - intros [= <-] [= <-]. done.
  - destruct (findIndex p l) as [j|]; [|discriminate].
    intros [= <-]. simpl. by apply IH.
Qed.

Lemma find_findIndex p l x :
  List.find p l = Some x → ∃ i, findIndex p l = Some i ∧ l !! i = Some x.
Proof.
  induction l as [|y l IH]; simpl; [discriminate|].
  destruct (p y) eqn:Hy.
  - intros [= <-]. by exists 0.
  - intros (i & -> & Hi)%IH. by exists (S i).
Qed.

Lemma findIndex_ext p q l :
  (∀ x, p x = q x) → findIndex p l = findIndex q l.
Proof.
  intros Hpq. induction l as [|y l IH]; simpl; [done|].
  by rewrite Hpq, IH.
Qed.

Lemma find_ext p q l :
  (∀ x, p x = q x) → List.find p l = List.find q l.
Proof.
  intros Hpq. induction l as [|y l IH]; simpl; [done|].
  by rewrite Hpq, IH.
Qed.

Lemma insertAt_lookup i x l :
  i ≤ length l → insertAt i x l !! i = Some x.
Proof.
  intros Hi. unfold insertAt.
  rewrite lookup_app_r; rewrite length_take, Nat.min_l by lia; [|lia].
  by rewrite Nat.sub_diag.
Qed.

Lemma insertAt_perm i x l : insertAt i x l ≡ₚ x :: l.
Proof.
  unfold insertAt. rewrite <- Permutation_middle. by rewrite take_drop.
Qed.
End ListHelpers.

(** ** Drag-and-drop reorder *)

Module ReorderSpec.
Import App Obs.

(** C2: dragging [A] onto [C] in [[A; B; C]] gives [[B; C; A]]; in general a
    drop does nothing when no drag is under way, when source and target are
    the same tab or when either is not in the array, and otherwise takes the
    source out and puts it back at the index the target had. *)
Theorem onDrop_reorder :
  (tabIds threeTabs = [1; 2; 3]%N ∧
   tabIds (run [DragStart 1; Drop 3] threeTabs) = [2; 3; 1]%N) ∧
  (∀ st dst, dragSrcId st = None → onDrop dst st = st) ∧
  (∀ st src dst,
     dragSrcId st = Some src →
     src = dst ∨ findIndex (hasId st src) (tabs st) = None
             ∨ findIndex (hasId st dst) (tabs st) = None →
     onDrop dst st = st) ∧
  (∀ st src dst i j,
     dragSrcId st = Some src →
     src ≠ dst →
     findIndex (hasId st src) (tabs st) = Some i →
     findIndex (hasId st dst) (tabs st) = Some j →
     ∃ srcTab,
       tabs st !! i = Some srcTab ∧
       tabs (onDrop dst st) = insertAt j srcTab (delete i (tabs st)) ∧
       tabs (onDrop dst st) !! j = Some srcTab ∧
       tabs (onDrop dst st) ≡ₚ tabs st).
Proof.
  split; [split; reflexivity|].
  split; [|split].
  - intros st dst H. unfold onDrop. by rewrite H.
  - intros st src dst H Hcase. unfold onDrop. rewrite H.
    destruct Hcase as [->|[Hs|Hd]].
    + by rewrite N.eqb_refl.
    + destruct (N.eqb src dst); [done|]. by rewrite Hs.
    + destruct (N.eqb src dst); [done|]. rewrite Hd.
      by destruct (findIndex (hasId st src) (tabs st)).
  - intros st src dst i j H Hne Hi Hj.
    destruct (findIndex_Some _ _ _ Hi) as (srcTab & Hsrc & _).
    destruct (findIndex_Some _ _ _ Hj) as (dstTab & Hdst & _).
    exists srcTab. split; [done|].
    assert (Htabs : tabs (onDrop dst st) = insertAt j srcTab (delete i (tabs st))).
    { unfold onDrop. rewrite H.
      apply N.eqb_neq in Hne. rewrite Hne, Hi, Hj, Hsrc, Hdst.
      by destruct (insertBefore _ _ _). }
    split; [done|]. rewrite Htabs. split.
    + apply insertAt_lookup.
      rewrite length_delete by eauto.
      apply lookup_lt_Some in Hsrc, Hdst. lia.
    + rewrite insertAt_perm. symmetry. by apply delete_Permutation.
Qed.

Lemma onDrop_reorder_witness :
  let st := onDragStart 1 threeTabs in
  ∃ srcTab,
    tabs st !! 0 = Some srcTab ∧
    tabs (onDrop 3 st) = insertAt 2 srcTab (delete 0 (tabs st)) ∧
    tabs (onDrop 3 st) !! 2 = Some srcTab ∧
    tabs (onDrop 3 st) ≡ₚ tabs st.
Proof.
  intros st.
  apply (proj2 (proj2 (proj2 onDrop_reorder)) st 1%N 3%N 0 2).
  - reflexivity.
  - discriminate.
  - reflexivity.
  - reflexivity.
Defined.

(** C1 at its failing input: dragging the first of three tabs onto the last
    leaves the array as [[2; 3; 1]] and the tab bar as [[2; 1; 3]]. *)
Theorem onDrop_forward_drag_desync :
  let before := threeTabs in
  let after := run [DragStart 1; Drop 3] before in
  tabIds before = tabListIds before ∧
  tabIds after = [2; 3; 1]%N ∧
  tabListIds after = [2; 1; 3]%N.
Proof. repeat split; reflexivity. Qed.

End ReorderSpec.

(** ** What each operation leaves alone *)

Module AppFacts.
Import App Obs.

Lemma skeleton_coord st st' : skeleton st' = skeleton st → coord st' = coord st.
Proof. unfold skeleton, coord. intros [=]. congruence. Qed.

Lemma skeleton_tabs st st' : skeleton st' = skeleton st → tabs st' = tabs st.
Proof. unfold skeleton. by intros [=]. Qed.

Lemma skeleton_tabList st st' : skeleton st' = skeleton st → tabList st' = tabList st.
Proof. unfold skeleton. by intros [=]. Qed.

Lemma skeleton_tabIdSeq st st' : skeleton st' = skeleton st → tabIdSeq st' = tabIdSeq st.
Proof. unfold skeleton. by intros [=]. Qed.

Lemma skeleton_emit e st : skeleton (emit e st) = skeleton st.
Proof. reflexivity. Qed.

Lemma skeleton_updTab r f st : skeleton (updTab r f st) = skeleton st.
Proof. reflexivity. Qed.

Lemma skeleton_setTabLabel id lbl st : skeleton (setTabLabel id lbl st) = skeleton st.
Proof. unfold setTabLabel. by case_match. Qed.

Lemma skeleton_loadPicker r st : skeleton (loadPicker r st) = skeleton st.
Proof.
  unfold loadPicker. rewrite skeleton_emit, skeleton_updTab.
  case_match; [apply skeleton_setTabLabel | done].
Qed.

Lemma skeleton_closeSessionOf r st : skeleton (closeSessionOf r st) = skeleton st.
Proof. unfold closeSessionOf. by repeat case_match. Qed.

Lemma skeleton_promptUsername d k st : skeleton (promptUsername d k st) = skeleton st.
Proof. unfold promptUsername. by case_match. Qed.

Lemma skeleton_openSession r d a n st : skeleton (openSession r d a n st) = skeleton st.
Proof.
  unfold openSession. repeat case_match; try done. apply skeleton_promptUsername.
Qed.

Lemma skeleton_setStoredUser h u st : skeleton (setStoredUser h u st) = skeleton st.
Proof. unfold setStoredUser. by case_match. Qed.

Lemma skeleton_openSession_resume k u st :
  skeleton (openSession_resume k u st) = skeleton st.
Proof.
  unfold openSession_resume. repeat case_match; try done.
  cbv zeta. rewrite skeleton_updTab, skeleton_emit.
  etrans; [|apply (skeleton_setStoredUser
                     (orElse (dev_displayName (k_device k)) (dev_name (k_device k))) s)].
  etrans; [|apply (skeleton_setTabLabel (tab_id t) (s +:+ "@" +:+ k_displayName k))].
  reflexivity.
Qed.

Lemma skeleton_onConnect st : skeleton (onConnect st) = skeleton st.
Proof. unfold onConnect. by repeat case_match. Qed.

Lemma skeleton_onCancel st : skeleton (onCancel st) = skeleton st.
Proof. unfold onCancel. by case_match. Qed.

Lemma skeleton_onKey key st : skeleton (onKey key st) = skeleton st.
Proof.
  unfold onKey. cbv zeta.
  repeat case_match; rewrite ?skeleton_onCancel, ?skeleton_onConnect; done.
Qed.

Lemma skeleton_onSessionEnd r st : skeleton (onSessionEnd r st) = skeleton st.
Proof. unfold onSessionEnd. cbv zeta. by rewrite skeleton_loadPicker. Qed.

Lemma skeleton_onError sid st : skeleton (onError sid st) = skeleton st.
Proof. unfold onError. repeat case_match; try done. apply skeleton_onSessionEnd. Qed.

Lemma skeleton_onDone sid st : skeleton (onDone sid st) = skeleton st.
Proof. unfold onDone. repeat case_match; try done. apply skeleton_onSessionEnd. Qed.

(** *** The latches *)

Lemma coord_createTab st : coord (createTab st) = coord st.
Proof. unfold createTab. cbv zeta. by erewrite skeleton_coord by apply skeleton_loadPicker. Qed.

Lemma coord_closeTab id st : coord (closeTab id st) = coord st.
Proof.
  unfold closeTab. case_match; [|done]. cbv zeta.
  repeat case_match; rewrite ?coord_createTab;
    (etrans; [|apply (skeleton_coord _ _ (skeleton_closeSessionOf n st))]);
    reflexivity.
Qed.

Lemma coord_destroyTab st r : coord (destroyTab st r) = coord st.
Proof.
  unfold destroyTab. cbv zeta.
  etrans; [|apply (skeleton_coord _ _ (skeleton_closeSessionOf r st))].
  reflexivity.
Qed.

Lemma coord_fold_destroyTab l st : coord (fold_left destroyTab l st) = coord st.
Proof.
  revert st. induction l as [|r l IH]; intros st; simpl; [done|].
  by rewrite IH, coord_destroyTab.
Qed.

Lemma coord_clearAllTabs st : coord (clearAllTabs st) = coord st.
Proof. unfold clearAllTabs. apply coord_fold_destroyTab. Qed.

Lemma coord_onDrop id st : coord (onDrop id st) = coord st.
Proof. unfold onDrop. by repeat case_match. Qed.

(** Only a state notification changes the latches or the badge. *)
Lemma coord_step st i :
  (∀ state, i ≠ NotifyState state) → coord (step st i) = coord st.
Proof.
  intros Hi. destruct i; simpl; try done.
  - by destruct (Hi state).
  - apply coord_clearAllTabs.
  - case_match; [apply coord_createTab | done].
  - by case_match.
  - apply coord_closeTab.
  - apply coord_onDrop.
  - case_match; [apply skeleton_coord, skeleton_openSession | done].
  - apply skeleton_coord, skeleton_onConnect.
  - apply skeleton_coord, skeleton_onCancel.
  - apply skeleton_coord, skeleton_onKey.
  - case_match; [done|]. case_match.
    by erewrite skeleton_coord by apply skeleton_openSession_resume.
  - apply skeleton_coord, skeleton_onError.
  - apply skeleton_coord, skeleton_onDone.
  - by case_match.
Qed.

(** *** The ids of the tab objects *)

Lemma fmap_alter_id (f : Tab → Tab) r (h : list Tab) :
  (∀ t, tab_id (f t) = tab_id t) → tab_id <$> alter f r h = tab_id <$> h.
Proof.
  intros Hf. revert r. induction h as [|t h IH]; intros [|r]; simpl; try done.
  - by rewrite Hf.
  - f_equal. apply IH.
Qed.

Lemma heapIds_updTab r f st :
  (∀ t, tab_id (f t) = tab_id t) → heapIds (updTab r f st) = heapIds st.
Proof. intros Hf. unfold heapIds, updTab. simpl. by apply fmap_alter_id. Qed.

Lemma heapIds_setTabLabel id lbl st : heapIds (setTabLabel id lbl st) = heapIds st.
Proof. unfold setTabLabel. case_match; [|done]. by apply heapIds_updTab. Qed.

Lemma heapIds_loadPicker r st : heapIds (loadPicker r st) = heapIds st.
Proof.
  unfold loadPicker. cbv zeta.
  change (heapIds (emit ?e ?s)) with (heapIds s).
  rewrite heapIds_updTab by done.
  case_match; [apply heapIds_setTabLabel | done].
Qed.

Lemma heapIds_closeSessionOf r st : heapIds (closeSessionOf r st) = heapIds st.
Proof.
  unfold closeSessionOf. repeat case_match; try done.
  by rewrite heapIds_updTab.
Qed.

Lemma heapIds_createTab st :
  heapIds (createTab st) = heapIds st ++ [(tabIdSeq st + 1)%N].
Proof.
  unfold createTab. cbv zeta. rewrite heapIds_loadPicker.
  unfold heapIds. simpl. by rewrite fmap_app.
Qed.

Lemma heapIds_length st st' :
  heapIds st' = heapIds st → length (heap st') = length (heap st).
Proof. unfold heapIds. intros H. by rewrite <- (length_fmap tab_id), H, length_fmap. Qed.

Lemma length_heapIds st : length (heapIds st) = length (heap st).
Proof. unfold heapIds. by rewrite length_fmap. Qed.

Lemma length_heap_createTab st :
  length (heap (createTab st)) = S (length (heap st)).
Proof.
  rewrite <- !length_heapIds, heapIds_createTab, length_app. simpl. lia.
Qed.

Lemma hasId_heapIds st id r :
  hasId st id r = bool_decide (heapIds st !! r = Some id).
Proof.
  unfold hasId, heapIds. rewrite list_lookup_fmap.
  destruct (heap st !! r) as [t|]; simpl; [|done].
  destruct (N.eqb_spec (tab_id t) id) as [->|Hne]; symmetry.
  - by apply bool_decide_eq_true_2.
  - apply bool_decide_eq_false_2. congruence.
Qed.

Lemma hasId_ext st st' id :
  heapIds st' = heapIds st → ∀ r, hasId st' id r = hasId st id r.
Proof. intros H r. by rewrite !hasId_heapIds, H. Qed.

Lemma tabIds_heapIds st : tabIds st = omap (λ r, heapIds st !! r) (tabs st).
Proof.
  unfold tabIds, heapIds.
  induction (tabs st) as [|r l IH]; [done|].
  cbn [omap list_omap]. by rewrite list_lookup_fmap, IH.
Qed.

Lemma tabs_createTab st : tabs (createTab st) = tabs st ++ [length (heap st)].
Proof.
  unfold createTab. cbv zeta. by erewrite skeleton_tabs by apply skeleton_loadPicker.
Qed.

Lemma tabList_createTab st : tabList (createTab st) = tabList st ++ [length (heap st)].
Proof.
  unfold createTab. cbv zeta. by erewrite skeleton_tabList by apply skeleton_loadPicker.
Qed.

Lemma tabIdSeq_createTab st : tabIdSeq (createTab st) = (tabIdSeq st + 1)%N.
Proof.
  unfold createTab. cbv zeta. by erewrite skeleton_tabIdSeq by apply skeleton_loadPicker.
Qed.

Lemma getTab_findIndex id st r :
  getTab id st = Some r ↔
  ∃ i, findIndex (hasId st id) (tabs st) = Some i ∧ tabs st !! i = Some r.
Proof.
  unfold getTab. split.
  - apply find_findIndex.
  - intros (i & Hi & Hr). by eapply findIndex_find.
Qed.

End AppFacts.

(** ** Closing the last tab *)

Module LastTabSpec.
Import App Obs AppFacts.

Lemma coord_globalIpn st st' : coord st' = coord st → globalIpn st' = globalIpn st.
Proof. intros H. exact (f_equal (λ c, c.1.1) H). Qed.

Lemma coord_buttonsWired st st' :
  coord st' = coord st → buttonsWired st' = buttonsWired st.
Proof. intros H. exact (f_equal (λ c, c.1.2) H). Qed.

Lemma coord_status st st' : coord st' = coord st → status st' = status st.
Proof. intros H. exact (f_equal (λ c, c.2) H). Qed.

Lemma closeTab_nil id st : tabs st = [] → closeTab id st = st.
Proof. intros H. unfold closeTab, getTab. by rewrite H. Qed.

Lemma onDrop_nil id st : tabs st = [] → onDrop id st = st.
Proof. intros H. unfold onDrop. rewrite H. simpl. by repeat case_match. Qed.

Lemma tabs_clearAllTabs st : tabs (clearAllTabs st) = [].
Proof. reflexivity. Qed.

Lemma tabs_step_nonempty st i :
  (∀ state, i ≠ NotifyState state) → i ≠ NewTabClick →
  tabs (step st i) ≠ [] → tabs st ≠ [].
Proof.
  intros Hn Hc. destruct i; simpl; try done.
  - by destruct (Hn state).
  - by case_match.
  - intros H Hnil. by rewrite closeTab_nil in H.
  - intros H Hnil. by rewrite onDrop_nil in H.
  - case_match; [|done]. by erewrite skeleton_tabs by apply skeleton_openSession.
  - by erewrite skeleton_tabs by apply skeleton_onConnect.
  - by erewrite skeleton_tabs by apply skeleton_onCancel.
  - by erewrite skeleton_tabs by apply skeleton_onKey.
  - case_match; [done|]. case_match.
    by erewrite skeleton_tabs by apply skeleton_openSession_resume.
  - by erewrite skeleton_tabs by apply skeleton_onError.
  - by erewrite skeleton_tabs by apply skeleton_onDone.
  - by case_match.
Qed.

Lemma linked_notifyState state st : linked st → linked (notifyState state st).
Proof.
  intros (Hw & Hr & Ht). unfold notifyState. cbv zeta.
  destruct (String.eqb state "Running") eqn:Erun.
  - set (st2 := set_ipnEverRan true (set_loginTimer false (setStatus state st))).
    set (st3 := if buttonsWired st2 then st2
                else set_globalIpn true (set_buttonsWired true st2)).
    assert (Hg3 : globalIpn st3 = true).
    { unfold st3. change (buttonsWired st2) with (buttonsWired st).
      destruct (buttonsWired st) eqn:E; [by apply Hw | done]. }
    assert (globalIpn (match tabs st3 with
                       | [] => createTab st3
                       | _ :: _ => st3
                       end) = true).
    { destruct (tabs st3); [|done].
      by rewrite (coord_globalIpn _ _ (coord_createTab st3)). }
    by repeat split.
  - destruct (String.eqb state "NeedsLogin" || String.eqb state "NeedsMachineAuth").
    { pose proof (coord_clearAllTabs (setStatus state st)) as Hc.
      split; [|split]; [| |done].
      - intros Hb. change (globalIpn (clearAllTabs (setStatus state st)) = true).
        rewrite (coord_globalIpn _ _ Hc). apply Hw.
        change (buttonsWired (clearAllTabs (setStatus state st)) = true) in Hb.
        by rewrite (coord_buttonsWired _ _ Hc) in Hb.
      - intros Hs. change (status (clearAllTabs (setStatus state st)) = "Running") in Hs.
        rewrite (coord_status _ _ Hc) in Hs. simpl in Hs. by subst state. }
    destruct (String.eqb state "Stopped").
    { pose proof (coord_clearAllTabs (setStatus state st)) as Hc.
      split; [|split]; [| |done].
      - intros Hb. change (globalIpn (clearAllTabs (setStatus state st)) = true).
        rewrite (coord_globalIpn _ _ Hc). apply Hw.
        change (buttonsWired (clearAllTabs (setStatus state st)) = true) in Hb.
        by rewrite (coord_buttonsWired _ _ Hc) in Hb.
      - intros Hs. change (status (clearAllTabs (setStatus state st)) = "Running") in Hs.
        rewrite (coord_status _ _ Hc) in Hs. simpl in Hs. by subst state. }
    repeat split; simpl; try done.
    intros ->. done.
Qed.

Lemma linked_step st i : linked st → linked (step st i).
Proof.
  intros Hl.
  assert ((∃ state, i = NotifyState state) ∨ ∀ state, i ≠ NotifyState state)
    as [[state ->]|Hn'].
  { destruct i; [left; eauto | right; intros; discriminate ..]. }
  { by apply linked_notifyState. }
  pose proof (coord_step st i Hn') as Hc.
  pose proof (coord_globalIpn _ _ Hc) as Hg.
  pose proof (coord_buttonsWired _ _ Hc) as Hw.
  pose proof (coord_status _ _ Hc) as Hs.
  destruct Hl as (Hlw & Hlr & Hlt).
  repeat split; rewrite ?Hg, ?Hw, ?Hs; try done.
  intros Ht.
  assert (i = NewTabClick ∨ i ≠ NewTabClick) as [->|Hne].
  { destruct i; auto; right; discriminate. }
  - simpl in Ht. destruct (buttonsWired st) eqn:E; auto.
  - apply Hlt. by eapply tabs_step_nonempty.
Qed.

Lemma linked_run inputs st : linked st → linked (run inputs st).
Proof.
  revert st. induction inputs as [|i inputs IH]; intros st Hl; simpl; [done|].
  by apply IH, linked_step.
Qed.

Lemma linked_init : linked init.
Proof. by repeat split. Qed.

(** [closeTab] with its intermediate states named. *)
Lemma closeTab_unfold id st r :
  getTab id st = Some r →
  closeTab id st =
    let st0 := closeSessionOf r st in
    let idx := findIndex (hasId st0 id) (tabs st0) in
    let st1 := emit (TabsSplice r)
                 (set_tabs (spliceOut idx (tabs st0))
                    (emit (TabElRemove r)
                       (set_tabList (removeNode r (tabList st0)) st0))) in
    match spliceOut idx (tabs st0) with
    | [] => if globalIpn st0 then createTab st1 else st1
    | _ :: _ =>
        if bool_decide (activeTabId st0 = Some id) then
          match idx with
          | Some i =>
              match spliceOut idx (tabs st0)
                      !! Nat.min i (length (spliceOut idx (tabs st0)) - 1) with
              | Some next =>
                  match heap st0 !! next with
                  | Some t => activateTab (tab_id t) st1
                  | None => st1
                  end
              | None => st1
              end
          | None => st1
          end
        else st1
    end.
Proof. intros H. unfold closeTab. rewrite H. reflexivity. Qed.

Lemma closeTab_single st id r :
  tabs st = [r] → hasId st id r = true →
  let st0 := closeSessionOf r st in
  let st1 := emit (TabsSplice r)
               (set_tabs [] (emit (TabElRemove r)
                  (set_tabList (removeNode r (tabList st0)) st0))) in
  closeTab id st = if globalIpn st then createTab st1 else st1.
Proof.
  intros Ht Hid st0 st1.
  assert (Ht0 : tabs st0 = [r]).
  { unfold st0. by erewrite skeleton_tabs by apply skeleton_closeSessionOf. }
  assert (Hid0 : hasId st0 id r = true).
  { unfold st0. by erewrite hasId_ext by apply heapIds_closeSessionOf. }
  assert (Hg0 : globalIpn st0 = globalIpn st).
  { apply coord_globalIpn, skeleton_coord, skeleton_closeSessionOf. }
  rewrite (closeTab_unfold id st r).
  2:{ unfold getTab. rewrite Ht. simpl. by rewrite Hid. }
  cbv zeta. fold st0. rewrite Ht0. simpl findIndex. rewrite Hid0.
  simpl. by rewrite Hg0.
Qed.

(** C3, as the code has it: what [closeTab] does with the last tab is
    decided by the node handle [globalIpn], not by the connectivity state.
    With the handle set one fresh tab replaces the closed one; without it
    no tab is left.  In a run the handle is set whenever the state shown is
    [Running] and whenever a tab exists. *)
Theorem closeTab_last_tab_replacement :
  (∀ st id r,
     tabs st = [r] → hasId st id r = true →
     (globalIpn st = true →
        tabs (closeTab id st) = [length (heap st)] ∧
        tabIds (closeTab id st) = [(tabIdSeq st + 1)%N] ∧
        length (heap (closeTab id st)) = S (length (heap st))) ∧
     (globalIpn st = false →
        tabs (closeTab id st) = [] ∧
        length (heap (closeTab id st)) = length (heap st))) ∧
  (∀ inputs,
     let st := run inputs init in
     status st = "Running" ∨ tabs st ≠ [] → globalIpn st = true).
Proof.
  split.
  - intros st id r Ht Hid.
    pose proof (closeTab_single st id r Ht Hid) as Hclose. cbv zeta in Hclose.
    set (st0 := closeSessionOf r st) in *.
    set (st1 := emit (TabsSplice r) _) in *.
    assert (Hids1 : heapIds st1 = heapIds st).
    { change (heapIds st0 = heapIds st). apply heapIds_closeSessionOf. }
    assert (Hlen1 : length (heap st1) = length (heap st)).
    { by apply heapIds_length. }
    assert (Hseq1 : tabIdSeq st1 = tabIdSeq st).
    { change (tabIdSeq st0 = tabIdSeq st).
      apply skeleton_tabIdSeq, skeleton_closeSessionOf. }
    split; intros Hg; rewrite Hg in Hclose; rewrite Hclose.
    + split; [|split].
      * rewrite tabs_createTab. change (tabs st1) with (@nil nat).
        by rewrite Hlen1.
      * rewrite tabIds_heapIds, tabs_createTab, heapIds_createTab.
        change (tabs st1) with (@nil nat). cbn [app omap list_omap].
        rewrite list_lookup_middle; [by rewrite Hseq1|].
        unfold heapIds. by rewrite length_fmap.
      * by rewrite length_heap_createTab, Hlen1.
    + split; [done|]. exact Hlen1.
  - intros inputs st [Hs|Ht];
      destruct (linked_run inputs init linked_init) as (_ & Hr & Hn); auto.
Qed.

Lemma closeTab_last_tab_replacement_witness :
  let st := run [NotifyState "Running"] init in
  tabs (closeTab 1 st) = [1] ∧
  tabIds (closeTab 1 st) = [2%N] ∧
  length (heap (closeTab 1 st)) = 2.
Proof.
  intros st.
  apply (proj1 (proj1 closeTab_last_tab_replacement st 1%N 0 eq_refl eq_refl)).
  reflexivity.
Defined.

(** C3, as stated, fails: with the node back in [Starting] after it ran,
    closing the only tab opens a new one. *)
Lemma closeTab_last_tab_while_not_running :
  let st := run [NotifyState "Running"; NotifyState "Starting"] init in
  status st = "Starting" ∧
  tabIds st = [1%N] ∧
  tabIds (step st (TabCloseClick 1)) = [2%N] ∧
  length (tabs (step st (TabCloseClick 1))) ≠ 0.
Proof. repeat split; try reflexivity. discriminate. Qed.

End LastTabSpec.

(** ** Tab ids *)

Module TabIdSpec.
Import App Obs AppFacts LastTabSpec.

Section Sorted.
Context {A : Type} (R : A → A → Prop).

Lemma StronglySorted_sublist (l1 l2 : list A) :
  l1 `sublist_of` l2 → StronglySorted R l2 → StronglySorted R l1.
Proof.
  induction 1 as [|x l1 l2 Hsub IH|x l1 l2 Hsub IH];
    rewrite ?StronglySorted_cons; [done|..].
  - intros [Hx Hl]. split; [|by apply IH].
    rewrite Forall_forall in *. intros y Hy. apply Hx.
    by eapply elem_of_sublist.
  - intros [_ Hl]. by apply IH.
Qed.

Lemma StronglySorted_snoc (l : list A) x :
  StronglySorted R l → Forall (λ y, R y x) l → StronglySorted R (l ++ [x]).
Proof.
  intros Hl Hx. apply StronglySorted_app. split; [|split].
  - intros y z Hy ->%list_elem_of_singleton.
    by eapply Forall_forall in Hx.
  - done.
  - repeat constructor.
Qed.

Lemma StronglySorted_lookup (l : list A) i j x y :
  StronglySorted R l → i < j → l !! i = Some x → l !! j = Some y → R x y.
Proof.
  intros Hl. revert i j. induction Hl as [|z l Hl IH Hz]; intros i j Hij; [done|].
  destruct j as [|j]; [lia|]. destruct i as [|i]; simpl.
  - intros [= ->] Hy. eapply Forall_forall in Hz; [done|].
    by eapply list_elem_of_lookup_2.
  - apply IH. lia.
Qed.

Lemma StronglySorted_NoDup (l : list A) :
  (∀ x, ¬ R x x) → StronglySorted R l → NoDup l.
Proof.
  intros Hirr. induction 1 as [|x l Hl IH Hx]; constructor; [|done].
  intros Hin. eapply Forall_forall in Hx; [|done]. by eapply Hirr.
Qed.
End Sorted.

Lemma removelast_sublist {A} (l : list A) : removelast l `sublist_of` l.
Proof.
  induction l as [|x [|y l] IH]; simpl; [done| |].
  - by constructor.
  - by constructor.
Qed.

Lemma spliceOut_sublist idx l : spliceOut idx l `sublist_of` l.
Proof.
  destruct idx; simpl; [apply sublist_delete | apply removelast_sublist].
Qed.

Lemma idsOk_createTab st : idsOk st → idsOk (createTab st).
Proof.
  intros (Hs & Hb & Ht & Hr).
  unfold idsOk.
  rewrite heapIds_createTab, tabs_createTab, tabIdSeq_createTab.
  rewrite length_heap_createTab. split; [|split; [|split]].
  - apply StronglySorted_snoc; [done|].
    eapply Forall_impl; [exact Hb|]. intros; simpl in *; lia.
  - apply Forall_app. split.
    + eapply Forall_impl; [exact Hb|]. intros; simpl in *; lia.
    + repeat constructor. lia.
  - by apply StronglySorted_snoc.
  - apply Forall_app. split.
    + eapply Forall_impl; [exact Hr|]. intros; simpl in *; lia.
    + repeat constructor.
Qed.

(** A state with the same objects and counter whose array is a sub-list. *)
Lemma idsOk_shrink st st' :
  idsOk st →
  heapIds st' = heapIds st → tabIdSeq st' = tabIdSeq st →
  tabs st' `sublist_of` tabs st →
  idsOk st'.
Proof.
  intros (Hs & Hb & Ht & Hr) Hids Hseq Hsub. unfold idsOk.
  rewrite Hids, Hseq, (heapIds_length _ _ Hids). split; [done|]. split; [done|].
  split.
  - by eapply StronglySorted_sublist.
  - rewrite Forall_forall in *. intros r Hin. apply Hr.
    by eapply elem_of_sublist.
Qed.

Lemma idsOk_closeTab id st : idsOk st → idsOk (closeTab id st).
Proof.
  intros Hok. destruct (getTab id st) as [r|] eqn:Hget.
  2:{ unfold closeTab. by rewrite Hget. }
  rewrite (closeTab_unfold id st r Hget). cbv zeta.
  set (st0 := closeSessionOf r st).
  set (idx := findIndex (hasId st0 id) (tabs st0)).
  set (st1 := emit (TabsSplice r) _).
  assert (Hok1 : idsOk st1).
  { apply (idsOk_shrink st); [done|..].
    - change (heapIds st0 = heapIds st). apply heapIds_closeSessionOf.
    - change (tabIdSeq st0 = tabIdSeq st).
      apply skeleton_tabIdSeq, skeleton_closeSessionOf.
    - change (spliceOut idx (tabs st0) `sublist_of` tabs st).
      rewrite <- (skeleton_tabs st st0) by apply skeleton_closeSessionOf.
      apply spliceOut_sublist. }
  repeat case_match; try done.
  by apply idsOk_createTab.
Qed.

Lemma idsOk_runOps ops st : idsOk st → idsOk (runOps ops st).
Proof.
  revert st. induction ops as [|op ops IH]; intros st Hok; simpl; [done|].
  apply IH. destruct op; simpl; [by apply idsOk_createTab | by apply idsOk_closeTab].
Qed.

Lemma idsOk_tabIds st :
  idsOk st →
  StronglySorted N.lt (tabIds st) ∧ length (tabIds st) = length (tabs st).
Proof.
  intros (Hs & _ & Ht & Hr). rewrite tabIds_heapIds.
  assert (Hlen : length (heapIds st) = length (heap st)).
  { unfold heapIds. by rewrite length_fmap. }
  rewrite <- Hlen in Hr. clear Hlen.
  induction Ht as [|r l Hl IH Hrl]; [by split; [constructor|]|].
  apply Forall_cons in Hr as [Hr Hrs]. specialize (IH Hrs) as [IH1 IH2].
  destruct (lookup_lt_is_Some_2 _ _ Hr) as [x Hx].
  cbn [omap list_omap]. rewrite Hx. simpl. split; [|by rewrite IH2].
  constructor; [done|].
  apply Forall_forall. intros y Hy.
  apply list_elem_of_omap in Hy as (r' & Hr' & Hy).
  eapply (StronglySorted_lookup N.lt (heapIds st) r r'); [done| |done..].
  by eapply Forall_forall in Hrl.
Qed.

(** C9: after any sequence of [createTab] and [closeTab] calls the ids of
    the live tabs strictly increase along the array, which is their
    creation order, so they are pairwise distinct; the ids of all tabs ever
    created strictly increase too, and the next id is larger than all of
    them, so no id is handed out twice. *)
Theorem tab_ids_unique_increasing (ipnSet : bool) (ops : list TabOp) :
  let st := runOps ops (set_globalIpn ipnSet init) in
  StronglySorted N.lt (tabIds st) ∧
  NoDup (tabIds st) ∧
  length (tabIds st) = length (tabs st) ∧
  StronglySorted lt (tabs st) ∧
  StronglySorted N.lt (heapIds st) ∧
  NoDup (heapIds st) ∧
  heapIds (createTab st) = heapIds st ++ [(tabIdSeq st + 1)%N] ∧
  Forall (λ id, (id < tabIdSeq st + 1)%N) (heapIds st).
Proof.
  intros st.
  assert (Hok : idsOk st).
  { apply idsOk_runOps. repeat split; constructor. }
  destruct (idsOk_tabIds st Hok) as [Hsorted Hlen].
  destruct Hok as (Hs & Hb & Ht & Hr).
  repeat split; try done.
  - eapply StronglySorted_NoDup; [|done]. intros x. lia.
  - eapply StronglySorted_NoDup; [|done]. intros x. lia.
  - apply heapIds_createTab.
  - eapply Forall_impl; [exact Hb|]. intros; simpl in *; lia.
Qed.

End TabIdSpec.

(** ** Sessions are closed before their tab goes away *)

Module TeardownSpec.
Import App Obs AppFacts LastTabSpec.

(** *** Operations that only touch the tab objects *)

Lemma set_heap_same st : set_heap (heap st) st = st.
Proof. by destruct st. Qed.

Lemma setTabLabel_nf id lbl st :
  setTabLabel id lbl st = set_heap (heap (setTabLabel id lbl st)) st.
Proof. unfold setTabLabel. case_match; [done|]. by rewrite set_heap_same. Qed.

Lemma loadPicker_nf r st :
  loadPicker r st = emit (FetchDevices r) (set_heap (heap (loadPicker r st)) st).
Proof.
  unfold loadPicker. case_match; [|done].
  by rewrite (setTabLabel_nf (tab_id t) "New tab" st).
Qed.

Lemma createTab_nf st :
  createTab st =
  emit (FetchDevices (length (heap st)))
    (set_heap (heap (createTab st))
       (activateTab (tabIdSeq st + 1)
          (set_tabs (tabs st ++ [length (heap st)])
             (set_tabList (tabList st ++ [length (heap st)])
                (set_tabIdSeq (tabIdSeq st + 1) st))))).
Proof. unfold createTab. cbv zeta. by rewrite loadPicker_nf at 1. Qed.

Lemma trace_createTab st :
  trace (createTab st) = trace st ++ [FetchDevices (length (heap st))].
Proof. by rewrite createTab_nf. Qed.

Lemma sessions_createTab st : sessions (createTab st) = sessions st.
Proof. by rewrite createTab_nf. Qed.

(** *** The session field of the tab objects *)

Lemma fmap_session_alter_same (f : Tab → Tab) r (h : list Tab) :
  (∀ t, session (f t) = session t) → session <$> alter f r h = session <$> h.
Proof.
  intros Hf. revert r. induction h as [|t h IH]; intros [|r]; simpl; try done.
  - by rewrite Hf.
  - f_equal. apply IH.
Qed.

Lemma fmap_session_alter_set v r (h : list Tab) :
  session <$> alter (set_session v) r h = <[r:=v]> (session <$> h).
Proof.
  revert r. induction h as [|t h IH]; intros [|r]; simpl; try done.
  f_equal. apply IH.
Qed.

Lemma heapSessions_lookup st r :
  heapSessions st !! r = session <$> heap st !! r.
Proof. unfold heapSessions. by rewrite list_lookup_fmap. Qed.

Lemma heapSessions_setTabLabel id lbl st :
  heapSessions (setTabLabel id lbl st) = heapSessions st.
Proof.
  unfold setTabLabel. case_match; [|done].
  unfold heapSessions, updTab. simpl. by apply fmap_session_alter_same.
Qed.

Lemma heapSessions_loadPicker r st :
  heapSessions (loadPicker r st) = heapSessions st.
Proof.
  unfold loadPicker. cbv zeta.
  change (heapSessions (emit ?e ?s)) with (heapSessions s).
  unfold heapSessions at 1, updTab. simpl.
  rewrite fmap_session_alter_same by done.
  case_match; [apply heapSessions_setTabLabel | done].
Qed.

Lemma heapSessions_createTab st :
  heapSessions (createTab st) = heapSessions st ++ [None].
Proof.
  unfold createTab. cbv zeta. rewrite heapSessions_loadPicker.
  unfold heapSessions. simpl. by rewrite fmap_app.
Qed.

(** *** Closing the session of a tab object *)

Lemma trace_closeSessionOf r st :
  trace (closeSessionOf r st) = trace st ++ closeEvents st r.
Proof.
  unfold closeSessionOf, closeEvents. repeat case_match; try done.
  all: by rewrite app_nil_r.
Qed.

Lemma heapSessions_closeSessionOf r st :
  heapSessions (closeSessionOf r st) = <[r:=None]> (heapSessions st).
Proof.
  unfold closeSessionOf. destruct (heap st !! r) as [t|] eqn:Ht.
  - destruct (session t) as [sid|] eqn:Hs.
    + unfold heapSessions, updTab. simpl. apply fmap_session_alter_set.
    + symmetry. apply list_insert_id. by rewrite heapSessions_lookup, Ht, <- Hs.
  - symmetry. apply list_insert_ge. unfold heapSessions.
    rewrite length_fmap. by apply lookup_ge_None.
Qed.

Lemma closedAt_alter sid sid' (l : list Session) :
  closed <$> l !! sid = Some true →
  closed <$> alter (set_closed true) sid' l !! sid = Some true.
Proof.
  intros H. destruct (decide (sid' = sid)) as [->|Hne].
  - rewrite list_lookup_alter_eq. by destruct (l !! sid).
  - by rewrite list_lookup_alter_ne.
Qed.

Lemma closedAt_closeSessionOf_mono r st sid :
  closedAt st sid → closedAt (closeSessionOf r st) sid.
Proof.
  unfold closedAt, closeSessionOf. intros H. repeat case_match; try done.
  simpl. by apply closedAt_alter.
Qed.

Lemma closedAt_closeSessionOf r st t sid :
  heap st !! r = Some t → session t = Some sid → is_Some (sessions st !! sid) →
  closedAt (closeSessionOf r st) sid.
Proof.
  intros Ht Hs [s Hsid]. unfold closedAt, closeSessionOf. rewrite Ht, Hs. simpl.
  by rewrite list_lookup_alter_eq, Hsid.
Qed.

(** *** The loop of [clearAllTabs] *)

Lemma trace_destroyTab st r :
  trace (destroyTab st r) = trace st ++ closeEvents st r ++ [TabElRemove r].
Proof.
  unfold destroyTab. cbv zeta. simpl.
  by rewrite trace_closeSessionOf, <- app_assoc.
Qed.

Lemma heapSessions_destroyTab st r :
  heapSessions (destroyTab st r) = <[r:=None]> (heapSessions st).
Proof. apply heapSessions_closeSessionOf. Qed.

Lemma heap_destroyTab_ne st r r' :
  r ≠ r' → heap (destroyTab st r') !! r = heap st !! r.
Proof.
  intros Hne. unfold destroyTab, closeSessionOf. cbv zeta. simpl.
  repeat case_match; try done. simpl. by rewrite list_lookup_alter_ne.
Qed.

Lemma closedAt_destroyTab_mono st r sid :
  closedAt st sid → closedAt (destroyTab st r) sid.
Proof. apply closedAt_closeSessionOf_mono. Qed.

Lemma trace_fold_destroyTab l st :
  ∃ post, trace (fold_left destroyTab l st) = trace st ++ post.
Proof.
  revert st. induction l as [|r l IH]; intros st; simpl.
  - exists []. by rewrite app_nil_r.
  - destruct (IH (destroyTab st r)) as [post ->].
    rewrite trace_destroyTab, <- app_assoc. eauto.
Qed.

Lemma closedAt_fold_destroyTab_mono l st sid :
  closedAt st sid → closedAt (fold_left destroyTab l st) sid.
Proof.
  revert st. induction l as [|r l IH]; intros st H; simpl; [done|].
  by apply IH, closedAt_destroyTab_mono.
Qed.

Lemma heapSessions_fold_destroyTab l st r :
  r ∈ l → r < length (heap st) →
  heapSessions (fold_left destroyTab l st) !! r = Some None.
Proof.
  revert st. induction l as [|r' l IH]; intros st Hin Hr; [by inversion Hin|].
  simpl.
  assert (Hlen : length (heap (destroyTab st r')) = length (heap st)).
  { rewrite <- (length_fmap session (heap (destroyTab st r'))).
    fold (heapSessions (destroyTab st r')).
    rewrite heapSessions_destroyTab, length_insert.
    unfold heapSessions. by rewrite length_fmap. }
  destruct (decide (r ∈ l)) as [Hl|Hl].
  - apply IH; [done|]. by rewrite Hlen.
  - apply elem_of_cons in Hin as [->|]; [|done].
    clear IH. revert st Hr Hlen.
    assert (∀ st, heapSessions st !! r' = Some None →
                  heapSessions (fold_left destroyTab l st) !! r' = Some None) as Hkeep.
    { induction l as [|x l IHl]; intros st H; simpl; [done|].
      apply IHl.
      - intros Hx. apply Hl. by right.
      - rewrite heapSessions_destroyTab.
        destruct (decide (x = r')) as [->|Hne].
        + rewrite list_lookup_insert_eq; [done|]. by eapply lookup_lt_Some.
        + by rewrite list_lookup_insert_ne. }
    intros st Hr Hlen. apply Hkeep.
    rewrite heapSessions_destroyTab, list_lookup_insert_eq; [done|].
    unfold heapSessions. by rewrite length_fmap.
Qed.

Lemma fold_destroyTab_closes l st r t sid :
  r ∈ l → heap st !! r = Some t → session t = Some sid →
  ∃ pre post,
    trace (fold_left destroyTab l st) =
      trace st ++ pre ++ SessionClose sid :: TabElRemove r :: post ∧
    Forall (λ e, e ≠ TabElRemove r ∧ e ≠ TabsClear) pre ∧
    (is_Some (sessions st !! sid) → closedAt (fold_left destroyTab l st) sid).
Proof.
  revert st. induction l as [|r' l IH]; intros st Hin Ht Hs; [by inversion Hin|].
  simpl. destruct (decide (r' = r)) as [->|Hne].
  - destruct (trace_fold_destroyTab l (destroyTab st r)) as [post Hpost].
    exists [], post. split; [|split; [done|]].
    + rewrite Hpost, trace_destroyTab. unfold closeEvents. rewrite Ht, Hs.
      simpl. by rewrite <- app_assoc.
    + intros Hsid. apply closedAt_fold_destroyTab_mono.
      by eapply closedAt_closeSessionOf.
  - apply elem_of_cons in Hin as [->|Hin]; [done|].
    destruct (IH (destroyTab st r') Hin) as (pre & post & Htr & Hpre & Hcl).
    { by rewrite heap_destroyTab_ne. }
    { done. }
    exists (closeEvents st r' ++ TabElRemove r' :: pre), post.
    split; [|split].
    + rewrite Htr, trace_destroyTab. by rewrite <- !app_assoc.
    + apply Forall_app. split; [|constructor; [|done]].
      * unfold closeEvents. repeat case_match; repeat constructor; done.
      * split; [|done]. intros [= ->]. done.
    + intros [s Hsid]. apply Hcl.
      unfold destroyTab, closeSessionOf. cbv zeta. simpl.
      repeat case_match; simpl; eauto.
      destruct (decide (n = sid)) as [->|Hn].
      * rewrite list_lookup_alter_eq, Hsid. eauto.
      * rewrite list_lookup_alter_ne by done. eauto.
Qed.

(** When [closeTab] or [clearAllTabs] meets a tab that holds a session,
    the first thing it does to that tab is to call the session's [close];
    the tab's element is removed and the tab leaves the array only after
    that.  Afterwards the tab holds no session and the session's [closed]
    flag is set. *)
Lemma session_closed_before_tab_removed :
  (∀ st id r t sid,
     getTab id st = Some r → heap st !! r = Some t → session t = Some sid →
     (∃ rest, trace (closeTab id st) =
                trace st ++ SessionClose sid :: TabElRemove r :: TabsSplice r :: rest) ∧
     heapSessions (closeTab id st) !! r = Some None ∧
     (is_Some (sessions st !! sid) → closedAt (closeTab id st) sid)) ∧
  (∀ st r t sid,
     r ∈ tabs st → heap st !! r = Some t → session t = Some sid →
     (∃ pre post,
        trace (clearAllTabs st) =
          trace st ++ pre ++ SessionClose sid :: TabElRemove r :: post ++ [TabsClear] ∧
        Forall (λ e, e ≠ TabElRemove r ∧ e ≠ TabsClear) pre) ∧
     tabs (clearAllTabs st) = [] ∧
     heapSessions (clearAllTabs st) !! r = Some None ∧
     (is_Some (sessions st !! sid) → closedAt (clearAllTabs st) sid)).
Proof.
  split.
  - intros st id r t sid Hget Ht Hs.
    rewrite (closeTab_unfold id st r Hget). cbv zeta.
    set (st0 := closeSessionOf r st).
    set (idx := findIndex (hasId st0 id) (tabs st0)).
    set (st1 := emit (TabsSplice r) _).
    assert (Htr1 : trace st1 =
              trace st ++ [SessionClose sid; TabElRemove r; TabsSplice r]).
    { change (trace st1) with ((trace st0 ++ [TabElRemove r]) ++ [TabsSplice r]).
      unfold st0. rewrite trace_closeSessionOf. unfold closeEvents.
      rewrite Ht, Hs. by rewrite <- !app_assoc. }
    assert (Hr : r < length (heapSessions st)).
    { unfold heapSessions. rewrite length_fmap. by eapply lookup_lt_Some. }
    assert (Hhs1 : heapSessions st1 !! r = Some None).
    { change (heapSessions st0 !! r = Some None). unfold st0.
      by rewrite heapSessions_closeSessionOf, list_lookup_insert_eq. }
    assert (Hcl1 : is_Some (sessions st !! sid) → closedAt st1 sid).
    { intros Hsid. change (closedAt st0 sid). by eapply closedAt_closeSessionOf. }
    assert (Hnew : (∃ rest, trace (createTab st1) =
                      trace st ++ SessionClose sid :: TabElRemove r
                        :: TabsSplice r :: rest) ∧
                   heapSessions (createTab st1) !! r = Some None ∧
                   (is_Some (sessions st !! sid) → closedAt (createTab st1) sid)).
    { split; [|split].
      - eexists. rewrite trace_createTab, Htr1, <- app_assoc. done.
      - rewrite heapSessions_createTab, lookup_app_l; [done|].
        by eapply lookup_lt_Some.
      - intros Hsid. unfold closedAt. rewrite sessions_createTab. by apply Hcl1. }
    assert (Hsame : (∃ rest, trace st1 =
                      trace st ++ SessionClose sid :: TabElRemove r
                        :: TabsSplice r :: rest) ∧
                   heapSessions st1 !! r = Some None ∧
                   (is_Some (sessions st !! sid) → closedAt st1 sid)).
    { split; [|done]. exists []. exact Htr1. }
    repeat case_match; done.
  - intros st r t sid Hin Ht Hs.
    destruct (fold_destroyTab_closes (tabs st) st r t sid Hin Ht Hs)
      as (pre & post & Htr & Hpre & Hcl).
    split; [|split; [done|split]].
    + exists pre, post. split; [|done].
      change (trace (clearAllTabs st))
        with (trace (fold_left destroyTab (tabs st) st) ++ [TabsClear]).
      rewrite Htr. by rewrite <- !app_assoc.
    + change (heapSessions (fold_left destroyTab (tabs st) st) !! r = Some None).
      apply heapSessions_fold_destroyTab; [done|]. by eapply lookup_lt_Some.
    + exact Hcl.
Qed.

(** C4: a session can outlive its tab.  The node asks for a login while
    the user-name prompt of tab 1 is open, which removes the tab, and is
    Running again; the user then confirms the prompt.  [openSession]
    starts the session for the tab that is gone, and neither closing the
    tabs that exist nor any teardown calls its [close]. *)
Lemma session_outlives_its_tab :
  let opened := run [NotifyState "Running"; ConnectClick 0 sampleDevice;
                     NotifyState "NeedsLogin"; NotifyState "Running";
                     UsernameType "alice"; ModalConnectClick; Microtask] init in
  let later := run [TabCloseClick 2; NotifyState "Stopped"; NotifyPanicRecover]
                 opened in
  tabs opened = [1] ∧ tabIds opened = [2%N] ∧
  (∃ before, trace opened = before ++ [RunSSH 0 0] ∧
             TabElRemove 0 ∈ before ∧ TabsClear ∈ before) ∧
  heapSessions opened !! 0 = Some (Some 0) ∧
  sessions opened = [mkSession 0 "100.64.0.1" "alice" false] ∧
  tabs later = [] ∧
  sessions later = [mkSession 0 "100.64.0.1" "alice" false] ∧
  Forall (λ e, e ≠ SessionClose 0) (trace later).
Proof.
  intros opened later.
  split; [reflexivity|]. split; [reflexivity|]. split.
  { exists (take 6 (trace opened)). split; [reflexivity|].
    split; vm_compute;
      repeat first [by apply list_elem_of_here | apply list_elem_of_further]. }
  split; [reflexivity|]. split; [reflexivity|]. split; [reflexivity|].
  split; [reflexivity|]. vm_compute. repeat constructor; discriminate.
Qed.

End TeardownSpec.

(** ** The username modal is single-flight *)

Module ArbiterSpec.
Import App Obs AppFacts.

Lemma cleanup_effect k result st :
  trace (cleanup k result st) = trace st ++ [GateRelease; Resolve k result] ∧
  microtasks (cleanup k result st) = microtasks st ++ [(k, result)] ∧
  modalBusy (cleanup k result st) = false ∧
  listeners (cleanup k result st) = None.
Proof. unfold cleanup. simpl. by rewrite <- app_assoc. Qed.

Lemma onConnect_confirm st k :
  listeners st = Some k → trim (usernameInput st) ≠ "" →
  onConnect st = cleanup k (Some (trim (usernameInput st))) st.
Proof.
  intros Hl Ht%String.eqb_neq. unfold onConnect. by rewrite Hl, Ht.
Qed.

Lemma onConnect_blank st :
  trim (usernameInput st) = "" → onConnect st = st.
Proof.
  intros Ht. unfold onConnect. rewrite Ht. by destruct (listeners st).
Qed.

Lemma onCancel_open st k :
  listeners st = Some k → onCancel st = cleanup k None st.
Proof. intros Hl. unfold onCancel. by rewrite Hl. Qed.

(** C6: of two overlapping prompts the first takes the gate and waits; the
    second resolves with [null] at once, is not queued and leaves the modal
    alone; confirming a non-blank name resolves the first with that name,
    cancelling resolves it with [null], and in both cases [modalBusy] is
    cleared before the promise resolves.  A blank name keeps the prompt
    open. *)
Theorem promptUsername_single_flight st d1 k1 d2 k2 :
  modalBusy st = false →
  let st1 := promptUsername d1 k1 st in
  let st2 := promptUsername d2 k2 st1 in
  (modalBusy st1 = true ∧ listeners st1 = Some k1 ∧
   trace st1 = trace st ∧ microtasks st1 = microtasks st) ∧
  (trace st2 = trace st1 ++ [Resolve k2 None] ∧
   microtasks st2 = microtasks st1 ++ [(k2, None)] ∧
   modalBusy st2 = true ∧ listeners st2 = Some k1 ∧
   usernameInput st2 = usernameInput st1 ∧ modalHidden st2 = false) ∧
  (∀ text, trim text ≠ "" →
     let st3 := onConnect (set_usernameInput text st2) in
     trace st3 = trace st2 ++ [GateRelease; Resolve k1 (Some (trim text))] ∧
     microtasks st3 = microtasks st2 ++ [(k1, Some (trim text))] ∧
     modalBusy st3 = false ∧ listeners st3 = None) ∧
  (let st3 := onCancel st2 in
   trace st3 = trace st2 ++ [GateRelease; Resolve k1 None] ∧
   microtasks st3 = microtasks st2 ++ [(k1, None)] ∧
   modalBusy st3 = false ∧ listeners st3 = None) ∧
  (∀ text, trim text = "" →
     onConnect (set_usernameInput text st2) = set_usernameInput text st2).
Proof.
  intros Hfree st1 st2.
  assert (E1 : st1 =
    set_listeners (Some k1) (set_modalHidden false
      (set_usernameInput
         (orElse (getStoredUser (orElse (dev_displayName d1) (dev_name d1))
                    (set_modalBusy true st))
            (if includes (toLowerCase (dev_os d1)) "darwin" then "" else "root"))
         (set_modalBusy true st)))).
  { unfold st1, promptUsername. by rewrite Hfree. }
  assert (E2 : st2 =
    emit (Resolve k2 None) (set_microtasks (microtasks st1 ++ [(k2, None)]) st1)).
  { unfold st2, promptUsername. by rewrite E1. }
  assert (Hl2 : listeners st2 = Some k1) by by rewrite E2, E1.
  split; [by rewrite E1|].
  split; [by rewrite E2, E1|].
  split; [|split].
  - intros text Htext st3. unfold st3.
    rewrite (onConnect_confirm _ k1) by done.
    apply (cleanup_effect k1 (Some (trim text)) (set_usernameInput text st2)).
  - intros st3. unfold st3. rewrite (onCancel_open _ k1) by done.
    apply cleanup_effect.
  - intros text Htext. by apply onConnect_blank.
Qed.

Lemma promptUsername_single_flight_witness :
  let st := run [NotifyState "Running"] init in
  let k1 := mkCont 0 sampleDevice "100.64.0.1" "a" in
  let k2 := mkCont 0 sampleDevice "100.64.0.1" "a" in
  let st2 := promptUsername sampleDevice k2
               (promptUsername sampleDevice k1 st) in
  let st3 := onConnect (set_usernameInput " alice " st2) in
  trace st3 = trace st2 ++ [GateRelease; Resolve k1 (Some "alice")] ∧
  microtasks st3 = microtasks st2 ++ [(k1, Some "alice")] ∧
  modalBusy st3 = false ∧ listeners st3 = None.
Proof.
  intros st k1 k2 st2 st3.
  apply (proj1 (proj2 (proj2
           (promptUsername_single_flight st sampleDevice k1
              sampleDevice k2 eq_refl))) " alice ").
  discriminate.
Defined.

End ArbiterSpec.

(** ** The end of a session *)

Module SessionEndSpec.
Import App Obs AppFacts TeardownSpec.

Lemma onSessionEnd_nf r st :
  onSessionEnd r st =
  emit (FetchDevices r) (set_heap (heap (onSessionEnd r st)) (emit (SessionEnd r) st)).
Proof. unfold onSessionEnd. cbv zeta. by rewrite loadPicker_nf at 1. Qed.

Lemma sessions_onSessionEnd r st : sessions (onSessionEnd r st) = sessions st.
Proof. by rewrite onSessionEnd_nf. Qed.

Lemma trace_onSessionEnd r st :
  trace (onSessionEnd r st) = trace st ++ [SessionEnd r; FetchDevices r].
Proof. rewrite onSessionEnd_nf. simpl. by rewrite <- app_assoc. Qed.

Lemma sessionEnds_onSessionEnd r st :
  sessionEnds r (onSessionEnd r st) = S (sessionEnds r st).
Proof.
  unfold sessionEnds. rewrite trace_onSessionEnd, List.filter_app, length_app.
  simpl. rewrite Nat.eqb_refl. simpl. lia.
Qed.

Lemma heapSessions_onSessionEnd r st :
  heapSessions (onSessionEnd r st) = <[r:=None]> (heapSessions st).
Proof.
  unfold onSessionEnd. cbv zeta. rewrite heapSessions_loadPicker.
  unfold heapSessions, updTab. simpl.
  rewrite fmap_session_alter_same by done.
  apply fmap_session_alter_set.
Qed.

Lemma callback_open sid st s i :
  sessions st !! sid = Some s → closed s = false → isCallbackOf sid i →
  step st i = onSessionEnd (s_tab s) st.
Proof.
  intros Hs Hc [-> | ->]; simpl; unfold onError, onDone; by rewrite Hs, Hc.
Qed.

Lemma callback_closed sid st s i :
  sessions st !! sid = Some s → closed s = true → isCallbackOf sid i →
  step st i = st.
Proof.
  intros Hs Hc [-> | ->]; simpl; unfold onError, onDone; by rewrite Hs, Hc.
Qed.

(** C7, as the code has it: [closed] is set by the handle's [close()] and
    by nothing else.  While it is unset every firing of [onError] or
    [onDone] runs [onSessionEnd] again, so [n] firings run it [n] times and
    leave the tab without a session; once it is set the callbacks change
    nothing. *)
Theorem session_callbacks_gated_by_close st sid s callbacks :
  sessions st !! sid = Some s →
  Forall (isCallbackOf sid) callbacks →
  (closed s = true → run callbacks st = st) ∧
  (closed s = false →
     sessionEnds (s_tab s) (run callbacks st) =
       sessionEnds (s_tab s) st + length callbacks ∧
     sessions (run callbacks st) = sessions st ∧
     (callbacks ≠ [] → s_tab s < length (heap st) →
      heapSessions (run callbacks st) !! s_tab s = Some None)) ∧
  closedAt (sessionClose sid st) sid.
Proof.
  intros Hs Hcbs. split; [|split].
  - intros Hc. revert st Hs. induction Hcbs as [|i l Hi Hl IH]; intros st Hs; [done|].
    simpl. rewrite (callback_closed sid st s i) by done. by apply IH.
  - intros Hc. revert st Hs.
    induction Hcbs as [|i l Hi Hl IH]; intros st Hs.
    { simpl. split; [lia|]. split; [done|]. by intros []. }
    simpl. rewrite (callback_open sid st s i) by done.
    destruct (IH (onSessionEnd (s_tab s) st)) as (He & Hss & Hh).
    { by rewrite sessions_onSessionEnd. }
    split; [|split].
    + rewrite He, sessionEnds_onSessionEnd. lia.
    + by rewrite Hss, sessions_onSessionEnd.
    + intros _ Hr.
      assert (Hlen : length (heap (onSessionEnd (s_tab s) st)) = length (heap st)).
      { rewrite <- (length_fmap session (heap (onSessionEnd (s_tab s) st))).
        change (length (heapSessions (onSessionEnd (s_tab s) st)) = length (heap st)).
        rewrite heapSessions_onSessionEnd, length_insert.
        unfold heapSessions. by rewrite length_fmap. }
      destruct l as [|i' l'].
      * simpl. rewrite heapSessions_onSessionEnd.
        apply list_lookup_insert_eq. unfold heapSessions. by rewrite length_fmap.
      * apply Hh; [done|]. by rewrite Hlen.
  - unfold closedAt, sessionClose. simpl.
    by rewrite list_lookup_alter_eq, Hs.
Qed.

Lemma session_callbacks_gated_by_close_witness :
  let s := mkSession 0 "100.64.0.1" "alice" false in
  sessionEnds 0 (run [SshError 0; SshDone 0; SshDone 0] connected) =
    sessionEnds 0 connected + 3 ∧
  sessions (run [SshError 0; SshDone 0; SshDone 0] connected) = sessions connected ∧
  ([SshError 0; SshDone 0; SshDone 0] ≠ [] → 0 < length (heap connected) →
   heapSessions (run [SshError 0; SshDone 0; SshDone 0] connected) !! 0 = Some None).
Proof.
  intros s.
  apply (proj1 (proj2 (session_callbacks_gated_by_close connected 0 s
                         [SshError 0; SshDone 0; SshDone 0] eq_refl
                         ltac:(repeat constructor; (by left) || (by right))))).
  reflexivity.
Defined.

(** C7, as stated, fails: after a session opened, its [onError] followed by
    its [onDone] runs the end transition twice. *)
Lemma session_end_runs_twice :
  closed <$> sessions connected !! 0 = Some false ∧
  sessionEnds 0 connected = 0 ∧
  sessionEnds 0 (run [SshError 0; SshDone 0] connected) = 2 ∧
  sessionEnds 0 (run [SshDone 0; SshDone 0] connected) = 2.
Proof. repeat split; reflexivity. Qed.

(** A late callback of an ended session also takes apart the session that
    was opened on the same tab in the meantime: the tab forgets the new
    session, whose [closed] flag is unset, and shows the picker again. *)
Example stale_callback_drops_new_session :
  let reopened :=
    run [SshError 0; ConnectClick 0 sampleDevice; UsernameType "bob";
         ModalConnectClick; Microtask] connected in
  heapSessions reopened !! 0 = Some (Some 1) ∧
  heapSessions (step reopened (SshDone 0)) !! 0 = Some None ∧
  closed <$> sessions (step reopened (SshDone 0)) !! 1 = Some false.
Proof. repeat split; reflexivity. Qed.

End SessionEndSpec.

(** ** At most one session per tab *)

Module OpenSessionSpec.
Import App Obs AppFacts TeardownSpec ArbiterSpec.

Lemma promptView_promptUsername d k st :
  promptView (promptUsername d k st) = promptView st.
Proof. unfold promptUsername. by case_match. Qed.

Lemma promptView_openSession r d a n st :
  promptView (openSession r d a n st) = promptView st.
Proof.
  unfold openSession. repeat case_match; try done. apply promptView_promptUsername.
Qed.

Lemma promptView_onConnect st : promptView (onConnect st) = promptView st.
Proof. unfold onConnect. by repeat case_match. Qed.

Lemma promptView_onCancel st : promptView (onCancel st) = promptView st.
Proof. unfold onCancel. by case_match. Qed.

Lemma promptView_onKey key st : promptView (onKey key st) = promptView st.
Proof.
  unfold onKey. cbv zeta.
  repeat case_match; rewrite ?promptView_onCancel, ?promptView_onConnect; done.
Qed.

Lemma promptView_heapSessions st st' :
  promptView st' = promptView st → heapSessions st' = heapSessions st.
Proof. unfold promptView, heapSessions. by intros [= -> _]. Qed.

Lemma promptView_sessions st st' :
  promptView st' = promptView st → sessions st' = sessions st.
Proof. unfold promptView. by intros [= _ ->]. Qed.

(** *** The two guards of [openSession] *)

Lemma openSession_guarded r d a n st sid :
  heapSessions st !! r = Some (Some sid) → openSession r d a n st = st.
Proof.
  rewrite heapSessions_lookup. unfold openSession.
  destruct (heap st !! r) as [t|]; [|done]. simpl. by intros [= ->].
Qed.

Lemma openSession_free r d a n st :
  heapSessions st !! r = Some None →
  openSession r d a n st = promptUsername d (mkCont r d a n) st.
Proof.
  rewrite heapSessions_lookup. unfold openSession.
  destruct (heap st !! r) as [t|]; [|done]. simpl. by intros [= ->].
Qed.

Lemma openSession_resume_guarded k u st sid :
  heapSessions st !! k_tab k = Some (Some sid) → openSession_resume k u st = st.
Proof.
  rewrite heapSessions_lookup. unfold openSession_resume.
  destruct u as [name|]; [|done]. destruct (String.eqb name ""); [done|].
  destruct (heap st !! k_tab k) as [t|]; [|done]. simpl. by intros [= ->].
Qed.

Lemma setStoredUser_nf h u st :
  setStoredUser h u st = set_localStorage (localStorage (setStoredUser h u st)) st.
Proof. unfold setStoredUser. cbv zeta. case_match; [done | by destruct st]. Qed.

(** [openSession] past both guards: one [runSSHSession], whose handle goes
    into [tab.session]. *)
Lemma openSession_resume_open k name st :
  heapSessions st !! k_tab k = Some None → name ≠ "" →
  let st' := openSession_resume k (Some name) st in
  sessions st' = sessions st ++ [mkSession (k_tab k) (k_addr k) name false] ∧
  heapSessions st' = <[k_tab k:=Some (length (sessions st))]> (heapSessions st) ∧
  microtasks st' = microtasks st ∧
  modalBusy st' = modalBusy st ∧
  listeners st' = listeners st ∧
  trace st' = trace st ++ [RunSSH (k_tab k) (length (sessions st))].
Proof.
  rewrite heapSessions_lookup. intros Hh Hname%String.eqb_neq.
  destruct (heap st !! k_tab k) as [t|] eqn:Ht; [|done].
  simpl in Hh. injection Hh as Hs.
  unfold openSession_resume. rewrite Hname, Ht, Hs. cbv zeta.
  set (key := orElse _ _). set (lbl := name +:+ _).
  set (stL := setTabLabel (tab_id t) lbl (setStoredUser key name st)).
  assert (EL : stL = set_heap (heap stL)
                       (set_localStorage (localStorage (setStoredUser key name st)) st)).
  { etrans; [apply setTabLabel_nf|]. fold stL. f_equal. apply setStoredUser_nf. }
  assert (HhL : heapSessions stL = heapSessions st).
  { unfold stL. rewrite heapSessions_setTabLabel.
    unfold setStoredUser. by case_match. }
  assert (HsL : sessions stL = sessions st) by by rewrite EL.
  change (sessions (updTab (k_tab k) (set_pane PaneTerminal) stL))
    with (sessions stL). rewrite HsL.
  split; [done|]. split; [|by rewrite EL].
  change (session <$> alter (set_session (Some (length (sessions st)))) (k_tab k)
            (alter (set_pane PaneTerminal) (k_tab k) (heap stL))
          = <[k_tab k:=Some (length (sessions st))]> (heapSessions st)).
  rewrite fmap_session_alter_set, fmap_session_alter_same by done.
  by fold (heapSessions stL); rewrite HhL.
Qed.

Lemma openSession_resume_absent k u st :
  heapSessions st !! k_tab k = None → openSession_resume k u st = st.
Proof.
  rewrite heapSessions_lookup. unfold openSession_resume.
  destruct u as [name|]; [|done]. destruct (String.eqb name ""); [done|].
  by destruct (heap st !! k_tab k).
Qed.

Lemma openSession_resume_blank k st : openSession_resume k (Some "") st = st.
Proof. done. Qed.

(** *** One input of the prompt phase *)

Lemma sessionsOf_ext r st st' :
  sessions st' = sessions st → sessionsOf r st' = sessionsOf r st.
Proof. unfold sessionsOf. by intros ->. Qed.

Lemma sessionsOf_snoc r st st' s :
  sessions st' = sessions st ++ [s] →
  sessionsOf r st' = sessionsOf r st + (if Nat.eqb (s_tab s) r then 1 else 0).
Proof.
  unfold sessionsOf. intros ->. rewrite List.filter_app, length_app. simpl.
  by destruct (Nat.eqb (s_tab s) r).
Qed.

Lemma step_promptPhase r st i :
  promptPhase i = true →
  (heapSessions (step st i) !! r = heapSessions st !! r ∧
   sessionsOf r (step st i) = sessionsOf r st) ∨
  (heapSessions st !! r = Some None ∧
   heapSessions (step st i) !! r = Some (Some (length (sessions st))) ∧
   sessionsOf r (step st i) = S (sessionsOf r st)).
Proof.
  assert (Hview : ∀ st', promptView st' = promptView st →
            heapSessions st' !! r = heapSessions st !! r ∧
            sessionsOf r st' = sessionsOf r st).
  { intros st' Hv. split.
    - by rewrite (promptView_heapSessions _ _ Hv).
    - by apply sessionsOf_ext, promptView_sessions. }
  destruct i; try discriminate; intros _; simpl.
  - left. apply Hview. case_match; [apply promptView_openSession | done].
  - left. by apply Hview.
  - left. apply Hview, promptView_onConnect.
  - left. apply Hview, promptView_onCancel.
  - left. apply Hview, promptView_onKey.
  - destruct (microtasks st) as [|[k u] rest] eqn:Hm; [by left|].
    set (st0 := set_microtasks rest st).
    assert (Hv0 : promptView st0 = promptView st) by done.
    destruct u as [name|]; [|left; by apply Hview].
    destruct (decide (name = "")) as [->|Hname]; [left; by apply Hview|].
    destruct (heapSessions st0 !! k_tab k) as [[sid|]|] eqn:Hk.
    + rewrite (openSession_resume_guarded _ _ _ _ Hk). left. by apply Hview.
    + destruct (openSession_resume_open k name st0 Hk Hname)
        as (Hs & Hh & _). cbv zeta in *.
      change (sessions st0) with (sessions st) in *.
      change (heapSessions st0) with (heapSessions st) in *.
      destruct (decide (k_tab k = r)) as [<-|Hne].
      * right. split; [done|]. split.
        -- rewrite Hh. apply list_lookup_insert_eq. by eapply lookup_lt_Some.
        -- rewrite (sessionsOf_snoc _ _ _ _ Hs). simpl.
           rewrite Nat.eqb_refl. lia.
      * left. split.
        -- rewrite Hh. by apply list_lookup_insert_ne.
        -- rewrite (sessionsOf_snoc _ _ _ _ Hs). simpl.
           apply Nat.eqb_neq in Hne. rewrite Hne. lia.
    + rewrite (openSession_resume_absent _ _ _ Hk). left. by apply Hview.
Qed.

Lemma run_promptPhase_guarded r inputs st sid :
  forallb promptPhase inputs = true →
  heapSessions st !! r = Some (Some sid) →
  heapSessions (run inputs st) !! r = Some (Some sid) ∧
  sessionsOf r (run inputs st) = sessionsOf r st.
Proof.
  revert st. induction inputs as [|i inputs IH]; intros st Hall Hs; [done|].
  simpl in Hall. apply andb_true_iff in Hall as [Hi Hall]. simpl.
  destruct (step_promptPhase r st i Hi) as [[Hh Hn]|[Hh _]]; [|congruence].
  rewrite <- Hn. apply IH; [done|]. by rewrite Hh.
Qed.

Lemma run_promptPhase_bound r inputs st :
  forallb promptPhase inputs = true →
  sessionsOf r st ≤ sessionsOf r (run inputs st) ≤ S (sessionsOf r st).
Proof.
  revert st. induction inputs as [|i inputs IH]; intros st Hall; [simpl; lia|].
  simpl in Hall. apply andb_true_iff in Hall as [Hi Hall]. simpl.
  destruct (step_promptPhase r st i Hi) as [[Hh Hn]|(_ & Hh & Hn)].
  - rewrite <- Hn. by apply IH.
  - destruct (run_promptPhase_guarded r inputs _ _ Hall Hh) as [_ ->]. lia.
Qed.

(** *** Following a prompt through the event loop *)

Lemma stage_click_free st0 st r d waiting queue :
  stage st0 st false waiting queue →
  heapSessions st0 !! r = Some None → canConnect d = true →
  stage st0 (step st (ConnectClick r d)) true (Some (cardCont r d)) queue.
Proof.
  intros (Hv & Hb & Hl & Hq) Hr Hd. simpl. rewrite Hd.
  rewrite openSession_free by by rewrite (promptView_heapSessions _ _ Hv).
  unfold stage. rewrite promptView_promptUsername.
  unfold promptUsername. by rewrite Hb.
Qed.

Lemma stage_click_busy st0 st r d waiting queue :
  stage st0 st true waiting queue →
  heapSessions st0 !! r = Some None → canConnect d = true →
  stage st0 (step st (ConnectClick r d)) true waiting
    (queue ++ [(cardCont r d, None)]).
Proof.
  intros (Hv & Hb & Hl & Hq) Hr Hd. simpl. rewrite Hd.
  rewrite openSession_free by by rewrite (promptView_heapSessions _ _ Hv).
  unfold stage. rewrite promptView_promptUsername.
  unfold promptUsername. rewrite Hb. simpl. by rewrite Hq.
Qed.

Lemma stage_confirm st0 st busy k queue text :
  stage st0 st busy (Some k) queue → trim text ≠ "" →
  stage st0 (run [UsernameType text; ModalConnectClick] st) false None
    (queue ++ [(k, Some (trim text))]).
Proof.
  intros (Hv & Hb & Hl & Hq) Ht. simpl.
  rewrite (onConnect_confirm _ k) by done.
  destruct (cleanup_effect k (Some (trim text)) (set_usernameInput text st))
    as (_ & Hq' & Hb' & Hl').
  change (usernameInput (set_usernameInput text st)) with text.
  split; [|by rewrite Hq', Hb', Hl'; simpl; rewrite Hq].
  by unfold cleanup.
Qed.

Lemma stage_resume_cancelled st0 st busy waiting k queue :
  stage st0 st busy waiting ((k, None) :: queue) →
  stage st0 (step st Microtask) busy waiting queue.
Proof. intros (Hv & Hb & Hl & Hq). simpl. by rewrite Hq. Qed.

Lemma stage_resume_open st0 st busy waiting k name queue :
  stage st0 st busy waiting ((k, Some name) :: queue) →
  name ≠ "" → heapSessions st0 !! k_tab k = Some None →
  let st' := step st Microtask in
  sessions st' = sessions st0 ++ [mkSession (k_tab k) (k_addr k) name false] ∧
  heapSessions st' = <[k_tab k:=Some (length (sessions st0))]> (heapSessions st0) ∧
  microtasks st' = queue.
Proof.
  intros (Hv & Hb & Hl & Hq) Hname Hk. simpl. rewrite Hq.
  destruct (openSession_resume_open k name (set_microtasks queue st))
    as (Hs & Hh & Hm & _); [|done|].
  { change (heapSessions st !! k_tab k = Some None).
    by rewrite (promptView_heapSessions _ _ Hv). }
  cbv zeta in *.
  change (sessions (set_microtasks queue st)) with (sessions st) in *.
  change (heapSessions (set_microtasks queue st)) with (heapSessions st) in *.
  by rewrite Hs, Hh, Hm, (promptView_heapSessions _ _ Hv),
       (promptView_sessions _ _ Hv).
Qed.

(** What the two scenarios of "twice in a row" come to. *)
Lemma open_then_open st r d text :
  heapSessions st !! r = Some None → canConnect d = true →
  modalBusy st = false → microtasks st = [] → trim text ≠ "" →
  let opened := {| s_tab := r; s_hostname := cardAddr d;
                   s_username := trim text; closed := false |} in
  ∀ st',
    st' = run [ConnectClick r d; UsernameType text; ModalConnectClick; Microtask;
               ConnectClick r d; Microtask] st ∨
    st' = run [ConnectClick r d; ConnectClick r d; UsernameType text;
               ModalConnectClick; Microtask; Microtask] st →
    sessions st' = sessions st ++ [opened] ∧
    heapSessions st' = <[r:=Some (length (sessions st))]> (heapSessions st).
Proof.
  intros Hr Hd Hb Hq Ht opened st' Hst'.
  assert (H0 : stage st st false (listeners st) []) by done.
  assert (Hlt : r < length (heapSessions st)) by by eapply lookup_lt_Some.
  destruct Hst' as [-> | ->].
  - pose proof (stage_click_free _ _ r d _ _ H0 Hr Hd) as H1.
    pose proof (stage_confirm _ _ _ _ _ text H1 Ht) as H3.
    destruct (stage_resume_open _ _ _ _ _ _ _ H3 Ht Hr) as (Hs & Hh & Hm).
    cbv zeta in *. simpl k_tab in *. simpl k_addr in *.
    set (s4 := step (run [UsernameType text; ModalConnectClick]
                       (step st (ConnectClick r d))) Microtask) in *.
    change (run _ st) with (step (step s4 (ConnectClick r d)) Microtask).
    assert (E5 : step s4 (ConnectClick r d) = s4).
    { simpl. rewrite Hd. apply (openSession_guarded _ _ _ _ _ (length (sessions st))).
      rewrite Hh. by apply list_lookup_insert_eq. }
    rewrite E5. simpl. by rewrite Hm.
  - pose proof (stage_click_free _ _ r d _ _ H0 Hr Hd) as H1.
    pose proof (stage_click_busy _ _ r d _ _ H1 Hr Hd) as H2.
    pose proof (stage_confirm _ _ _ _ _ text H2 Ht) as H3.
    pose proof (stage_resume_cancelled _ _ _ _ _ _ H3) as H4.
    destruct (stage_resume_open _ _ _ _ _ _ _ H4 Ht Hr) as (Hs & Hh & Hm).
    done.
Qed.

(** C5: [openSession] does nothing on a tab that holds a session, neither
    on entry nor when it resumes after the prompt; no run of prompt inputs
    opens more than one session on a tab, and none at all on a tab that
    holds one; and two calls in a row, the second after the first has
    finished or while its prompt is still open, open exactly one. *)
Theorem openSession_twice_one_session :
  (∀ st r d addr displayName sid,
     heapSessions st !! r = Some (Some sid) →
     openSession r d addr displayName st = st) ∧
  (∀ st k user sid,
     heapSessions st !! k_tab k = Some (Some sid) →
     openSession_resume k user st = st) ∧
  (∀ st r inputs,
     forallb promptPhase inputs = true →
     sessionsOf r (run inputs st) ≤ S (sessionsOf r st) ∧
     (∀ sid, heapSessions st !! r = Some (Some sid) →
             sessionsOf r (run inputs st) = sessionsOf r st)) ∧
  (∀ st r d text,
     heapSessions st !! r = Some None → canConnect d = true →
     modalBusy st = false → microtasks st = [] → trim text ≠ "" →
     let sequential :=
       [ConnectClick r d; UsernameType text; ModalConnectClick; Microtask;
        ConnectClick r d; Microtask] in
     let overlapping :=
       [ConnectClick r d; ConnectClick r d; UsernameType text;
        ModalConnectClick; Microtask; Microtask] in
     sessionsOf r (run sequential st) = S (sessionsOf r st) ∧
     heapSessions (run sequential st) !! r = Some (Some (length (sessions st))) ∧
     sessionsOf r (run overlapping st) = S (sessionsOf r st) ∧
     heapSessions (run overlapping st) !! r = Some (Some (length (sessions st)))).
Proof.
  split; [|split; [|split]].
  - intros. by eapply openSession_guarded.
  - intros. by eapply openSession_resume_guarded.
  - intros st r inputs Hall. split.
    + by apply run_promptPhase_bound.
    + intros sid Hs. by eapply run_promptPhase_guarded.
  - intros st r d text Hr Hd Hb Hq Ht sequential overlapping.
    pose proof (open_then_open st r d text Hr Hd Hb Hq Ht) as Hboth.
    cbv zeta in Hboth.
    assert (Hlt : r < length (heapSessions st)) by by eapply lookup_lt_Some.
    destruct (Hboth (run sequential st)) as [Hs1 Hh1]; [by left|].
    destruct (Hboth (run overlapping st)) as [Hs2 Hh2]; [by right|].
    rewrite (sessionsOf_snoc _ _ _ _ Hs1), (sessionsOf_snoc _ _ _ _ Hs2), Hh1, Hh2.
    simpl. rewrite Nat.eqb_refl, list_lookup_insert_eq by done.
    repeat split; lia.
Qed.

Lemma openSession_twice_one_session_witness :
  let st := run [NotifyState "Running"] init in
  let d := sampleDevice in
  sessionsOf 0 (run [ConnectClick 0 d; UsernameType "alice"; ModalConnectClick;
                     Microtask; ConnectClick 0 d; Microtask] st)
    = S (sessionsOf 0 st) ∧
  heapSessions (run [ConnectClick 0 d; UsernameType "alice"; ModalConnectClick;
                     Microtask; ConnectClick 0 d; Microtask] st) !! 0
    = Some (Some (length (sessions st))) ∧
  sessionsOf 0 (run [ConnectClick 0 d; ConnectClick 0 d; UsernameType "alice";
                     ModalConnectClick; Microtask; Microtask] st)
    = S (sessionsOf 0 st) ∧
  heapSessions (run [ConnectClick 0 d; ConnectClick 0 d; UsernameType "alice";
                     ModalConnectClick; Microtask; Microtask] st) !! 0
    = Some (Some (length (sessions st))).
Proof.
  intros st d.
  apply (proj2 (proj2 (proj2 openSession_twice_one_session)) st 0 d "alice").
  - reflexivity.
  - reflexivity.
  - reflexivity.
  - reflexivity.
  - discriminate.
Defined.

End OpenSessionSpec.

(** ** The array and the tab bar *)

Module OrderSyncSpec.
Import App Obs AppFacts LastTabSpec TeardownSpec SessionEndSpec OpenSessionSpec.

(** *** Lists without duplicates *)

Lemma removeNode_notin x (l : list nat) : x ∉ l → removeNode x l = l.
Proof.
  induction l as [|y l IH]; intros Hx; simpl; [done|].
  apply not_elem_of_cons in Hx as [Hne Hx].
  destruct (Nat.eqb_spec y x) as [->|_]; [done|]. simpl. by rewrite IH.
Qed.

Lemma removeNode_delete x (l : list nat) i :
  NoDup l → l !! i = Some x → removeNode x l = delete i l.
Proof.
  intros Hnd. revert i. induction Hnd as [|y l Hy Hnd IH]; intros i Hi; [done|].
  destruct i as [|i]; simpl in *.
  - injection Hi as ->. rewrite Nat.eqb_refl. simpl. by apply removeNode_notin.
  - destruct (Nat.eqb_spec y x) as [->|_].
    + destruct Hy. by eapply list_elem_of_lookup_2.
    + simpl. f_equal. by apply IH.
Qed.

Lemma findIndex_eqb x (l : list nat) i :
  NoDup l → l !! i = Some x → findIndex (Nat.eqb x) l = Some i.
Proof.
  intros Hnd. revert i. induction Hnd as [|y l Hy Hnd IH]; intros i Hi; [done|].
  destruct i as [|i]; simpl in *.
  - injection Hi as ->. by rewrite Nat.eqb_refl.
  - destruct (Nat.eqb_spec x y) as [->|_].
    + destruct Hy. by eapply list_elem_of_lookup_2.
    + by rewrite (IH i Hi).
Qed.

Lemma existsb_eqb x (l : list nat) : x ∈ l → existsb (Nat.eqb x) l = true.
Proof.
  intros Hx. apply existsb_exists. exists x. split.
  - by apply list_elem_of_In.
  - apply Nat.eqb_refl.
Qed.

Lemma fold_removeNode_all (l acc : list nat) :
  acc ⊆ l → fold_left (λ a r, removeNode r a) l acc = [].
Proof.
  revert acc. induction l as [|r l IH]; intros acc Hsub; simpl.
  - destruct acc as [|x acc]; [done|]. specialize (Hsub x). set_solver.
  - apply IH. intros x Hx. unfold removeNode in Hx.
    apply list_elem_of_In, filter_In in Hx as [Hx Hne].
    apply list_elem_of_In, Hsub, elem_of_cons in Hx as [->|Hx]; [|done].
    by rewrite Nat.eqb_refl in Hne.
Qed.

(** *** The mutations that keep the two orders equal *)

Lemma registryOk_grow st st' :
  registryOk st → tabs st' = tabs st → tabList st' = tabList st →
  length (heap st) ≤ length (heap st') → registryOk st'.
Proof.
  intros (Hsync & Hnd & Hr) Ht Hl Hlen. unfold registryOk.
  rewrite Ht, Hl. split; [done|]. split; [done|].
  eapply Forall_impl; [exact Hr|]. intros; simpl in *; lia.
Qed.

Lemma registryOk_skeleton st st' :
  registryOk st → skeleton st' = skeleton st →
  length (heap st') = length (heap st) → registryOk st'.
Proof.
  intros Hok Hsk Hlen. apply (registryOk_grow st); [done|..].
  - by apply skeleton_tabs.
  - by apply skeleton_tabList.
  - lia.
Qed.

Lemma registryOk_createTab st : registryOk st → registryOk (createTab st).
Proof.
  intros (Hsync & Hnd & Hr). unfold registryOk.
  rewrite tabs_createTab, tabList_createTab, length_heap_createTab, Hsync.
  split; [done|]. split.
  - apply NoDup_app. split; [done|]. split; [|apply NoDup_singleton].
    intros x Hx ->%list_elem_of_singleton.
    eapply Forall_forall in Hr; [|done]. lia.
  - apply Forall_app. split.
    + eapply Forall_impl; [exact Hr|]. intros; simpl in *; lia.
    + repeat constructor.
Qed.

Lemma registryOk_closeTab id st : registryOk st → registryOk (closeTab id st).
Proof.
  intros Hok. destruct (getTab id st) as [r|] eqn:Hget.
  2:{ unfold closeTab. by rewrite Hget. }
  rewrite (closeTab_unfold id st r Hget). cbv zeta.
  set (st0 := closeSessionOf r st).
  set (idx := findIndex (hasId st0 id) (tabs st0)).
  set (st1 := emit (TabsSplice r) _).
  destruct Hok as (Hsync & Hnd & Hr).
  assert (Ht0 : tabs st0 = tabs st).
  { apply skeleton_tabs, skeleton_closeSessionOf. }
  assert (Hl0 : tabList st0 = tabList st).
  { apply skeleton_tabList, skeleton_closeSessionOf. }
  assert (Hlen0 : length (heap st0) = length (heap st)).
  { apply heapIds_length, heapIds_closeSessionOf. }
  apply getTab_findIndex in Hget as (i & Hi & Hri).
  assert (Hidx : idx = Some i).
  { unfold idx. rewrite Ht0, <- Hi. apply findIndex_ext.
    apply hasId_ext, heapIds_closeSessionOf. }
  assert (Hok1 : registryOk st1).
  { unfold registryOk.
    change (tabList st1) with (removeNode r (tabList st0)).
    change (tabs st1) with (spliceOut idx (tabs st0)).
    change (heap st1) with (heap st0).
    rewrite Hidx, Ht0, Hl0, Hlen0, Hsync. simpl.
    split; [by apply removeNode_delete|]. split.
    - eapply sublist_NoDup; [done | apply sublist_delete].
    - rewrite Forall_forall in *. intros x Hx. apply Hr.
      eapply elem_of_sublist; [done | apply sublist_delete]. }
  repeat case_match; try done.
  by apply registryOk_createTab.
Qed.

Lemma tabList_fold_destroyTab l st :
  tabList (fold_left destroyTab l st) =
  fold_left (λ a r, removeNode r a) l (tabList st).
Proof.
  revert st. induction l as [|r l IH]; intros st; simpl; [done|].
  rewrite IH. f_equal. unfold destroyTab. cbv zeta. simpl.
  by rewrite (skeleton_tabList _ _ (skeleton_closeSessionOf r st)).
Qed.

Lemma registryOk_clearAllTabs st : registryOk st → registryOk (clearAllTabs st).
Proof.
  intros (Hsync & Hnd & Hr). unfold registryOk.
  change (tabs (clearAllTabs st)) with (@nil nat).
  change (tabList (clearAllTabs st))
    with (tabList (fold_left destroyTab (tabs st) st)).
  rewrite tabList_fold_destroyTab, Hsync.
  split; [by apply fold_removeNode_all|]. split; constructor.
Qed.

Lemma heapIds_openSession_resume k u st :
  heapIds (openSession_resume k u st) = heapIds st.
Proof.
  unfold openSession_resume. repeat case_match; try done. cbv zeta.
  rewrite heapIds_updTab by done.
  change (heapIds (emit ?e ?s)) with (heapIds s).
  change (heapIds (set_sessions ?v ?s)) with (heapIds s).
  rewrite heapIds_updTab, heapIds_setTabLabel by done.
  unfold setStoredUser. by case_match.
Qed.

Lemma heapIds_onSessionEnd r st : heapIds (onSessionEnd r st) = heapIds st.
Proof.
  unfold onSessionEnd. cbv zeta. rewrite heapIds_loadPicker.
  by rewrite !heapIds_updTab.
Qed.

Lemma promptView_length st st' :
  promptView st' = promptView st → length (heap st') = length (heap st).
Proof. unfold promptView. by intros [= -> _]. Qed.

(** Every input other than a drop keeps the array and the tab bar in the
    same order. *)
Lemma registryOk_step st i :
  registryOk st → (∀ id, i ≠ Drop id) → registryOk (step st i).
Proof.
  intros Hok Hi. destruct i; simpl; try done.
  - assert (Hst : registryOk (setStatus state st)) by done.
    unfold notifyState. cbv zeta.
    destruct (String.eqb state "Running").
    { set (st3 := if buttonsWired _ then _ else _).
      assert (Hok3 : registryOk st3).
      { apply (registryOk_grow st); [done|..]; unfold st3; by case_match. }
      destruct (tabs st3); [by apply registryOk_createTab | done]. }
    destruct (String.eqb state "NeedsLogin" || String.eqb state "NeedsMachineAuth").
    { by apply (registryOk_clearAllTabs (setStatus state st)). }
    destruct (String.eqb state "Stopped"); [|done].
    by apply (registryOk_clearAllTabs (setStatus state st)).
  - by apply registryOk_clearAllTabs.
  - case_match; [by apply registryOk_createTab | done].
  - by case_match.
  - by apply registryOk_closeTab.
  - by destruct (Hi targetId).
  - case_match; [|done].
    apply (registryOk_skeleton st); [done|apply skeleton_openSession|].
    apply promptView_length, promptView_openSession.
  - apply (registryOk_skeleton st); [done|apply skeleton_onConnect|].
    apply promptView_length, promptView_onConnect.
  - apply (registryOk_skeleton st); [done|apply skeleton_onCancel|].
    apply promptView_length, promptView_onCancel.
  - apply (registryOk_skeleton st); [done|apply skeleton_onKey|].
    apply promptView_length, promptView_onKey.
  - case_match; [done|]. case_match.
    apply (registryOk_skeleton st); [done| |].
    + by rewrite skeleton_openSession_resume.
    + by rewrite (heapIds_length _ _ (heapIds_openSession_resume _ _ _)).
  - unfold onError. repeat case_match; try done.
    apply (registryOk_skeleton st); [done|apply skeleton_onSessionEnd|].
    apply heapIds_length, heapIds_onSessionEnd.
  - unfold onDone. repeat case_match; try done.
    apply (registryOk_skeleton st); [done|apply skeleton_onSessionEnd|].
    apply heapIds_length, heapIds_onSessionEnd.
  - by case_match.
Qed.

(** *** A drop *)

(** In a synchronised registry a drop keeps the two orders equal exactly
    when the source comes after the target; a source that comes before it
    ends up at the target's index in the array and one place earlier in
    the tab bar. *)
Lemma onDrop_sync st src dst i j :
  registryOk st → dragSrcId st = Some src → src ≠ dst →
  findIndex (hasId st src) (tabs st) = Some i →
  findIndex (hasId st dst) (tabs st) = Some j →
  (j < i → registryOk (onDrop dst st)) ∧
  (i < j → tabList (onDrop dst st) ≠ tabs (onDrop dst st)).
Proof.
  intros (Hsync & Hnd & Hr) Hdrag Hne Hi Hj.
  destruct (findIndex_Some _ _ _ Hi) as (a & Ha & Hida).
  destruct (findIndex_Some _ _ _ Hj) as (b & Hb & Hidb).
  assert (Hab : a ≠ b).
  { intros ->. rewrite hasId_heapIds in Hida, Hidb.
    apply bool_decide_eq_true in Hida, Hidb. congruence. }
  assert (Hij : i ≠ j) by (intros ->; congruence).
  set (rest := delete i (tabs st)).
  assert (Hrest : removeNode a (tabList st) = rest).
  { rewrite Hsync. by apply removeNode_delete. }
  assert (Hndr : NoDup rest).
  { eapply sublist_NoDup; [done | apply sublist_delete]. }
  assert (Hlen : length rest = length (tabs st) - 1).
  { unfold rest. rewrite length_delete; eauto. }
  pose proof (lookup_lt_Some _ _ _ Ha) as Hia.
  pose proof (lookup_lt_Some _ _ _ Hb) as Hjb.
  assert (Hdrop : ∀ j', rest !! j' = Some b →
            onDrop dst st =
            set_tabList (insertAt j' a rest) (set_tabs (insertAt j a rest) st)).
  { intros j' Hj'. unfold onDrop.
    apply N.eqb_neq in Hne. rewrite Hdrag, Hne, Hi, Hj, Ha, Hb. cbv zeta.
    change (tabList (set_tabs ?v st)) with (tabList st).
    unfold insertBefore.
    rewrite existsb_eqb by (rewrite Hsync; by eapply list_elem_of_lookup_2).
    apply Nat.eqb_neq in Hab. rewrite Hab. simpl. rewrite Hrest.
    by rewrite (findIndex_eqb b rest j'). }
  split; intros Hlt.
  - rewrite (Hdrop j).
    2:{ unfold rest. by rewrite list_lookup_delete_lt. }
    unfold registryOk. simpl. split; [done|]. split.
    + rewrite insertAt_perm. constructor; [|done].
      unfold rest. intros Hin. apply list_elem_of_lookup in Hin as [k Hk].
      destruct (decide (k < i)).
      * rewrite list_lookup_delete_lt in Hk by done.
        pose proof (NoDup_lookup _ _ _ _ Hnd Hk Ha). lia.
      * rewrite list_lookup_delete_ge in Hk by lia.
        pose proof (NoDup_lookup _ _ _ _ Hnd Hk Ha). lia.
    + apply Forall_forall. intros x Hx.
      rewrite Forall_forall in Hr. apply Hr.
      rewrite insertAt_perm in Hx. apply elem_of_cons in Hx as [->|Hx].
      * by eapply list_elem_of_lookup_2.
      * eapply elem_of_sublist; [done | apply sublist_delete].
  - destruct j as [|j]; [lia|].
    rewrite (Hdrop j).
    2:{ unfold rest. by rewrite list_lookup_delete_ge by lia. }
    simpl. intros Heq.
    assert (insertAt j a rest !! j = insertAt (S j) a rest !! j) as Hlook
      by by rewrite Heq.
    rewrite insertAt_lookup in Hlook by lia.
    unfold insertAt in Hlook.
    rewrite lookup_app_l in Hlook by (rewrite length_take; lia).
    rewrite lookup_take_lt in Hlook by lia.
    unfold rest in Hlook. rewrite list_lookup_delete_ge in Hlook by lia.
    congruence.
Qed.

End OrderSyncSpec.

(** ** The Worker's replies *)

Module RouterSpec.
Import Worker Router Obs.

Ltac in_list :=
  repeat first [by apply list_elem_of_here | apply list_elem_of_further].

Lemma readDevices_None getTime now (body : Body) :
  readDevices getTime now body = None ↔ ∀ raws, body ≠ jsonBody raws.
Proof.
  split.
  - intros Hnone raws ->.
    assert (readDevices getTime now (jsonBody raws) =
            Some (flat_map (trimDevice getTime now) (default [] raws))) as Hs
      by (apply WorkerSpec.readDevices_Some; eauto).
    congruence.
  - intros Hno. destruct (readDevices getTime now body) as [ds|] eqn:Hb; [|done].
    apply WorkerSpec.readDevices_Some in Hb as (raws & -> & _).
    by destruct (Hno raws).
Qed.

(** X1: the Worker answers with 200, 401, 403, 404, 405, 500 or 502, or,
    on [/api/devices] only, throws.  [/api/devices] answers 200 exactly
    when the token is configured, the method is GET, the Tailscale API
    answered with success and the body has a [devices] field that is absent
    or an array of device objects; it throws exactly when the first three
    hold and the body is anything else.  A missing token is reported
    before the method is looked at, and an upstream failure other than
    401 and 403 is reported as 502, whatever its body. *)
Theorem fetch_status getTime now pathname token method upstream :
  let reply := fetch getTime now pathname token method upstream in
  (∀ s, replyStatus reply = Some s → s ∈ [200; 401; 403; 404; 405; 500; 502]) ∧
  (pathname ≠ "/api/devices" → is_Some (replyStatus reply)) ∧
  (pathname = "/api/devices" →
   (replyStatus reply = Some 200 ↔
    truthy token = true ∧ method = "GET" ∧
    ∃ status raws, upstream = FetchResponse true status (jsonBody raws)) ∧
   (replyStatus reply = None ↔
    truthy token = true ∧ method = "GET" ∧
    ∃ status body, upstream = FetchResponse true status body ∧
                   ∀ raws, body ≠ jsonBody raws) ∧
   (truthy token = false → replyStatus reply = Some 500) ∧
   (∀ status body,
      truthy token = true → method = "GET" →
      upstream = FetchResponse false status body →
      status ≠ 401 → status ≠ 403 → replyStatus reply = Some 502)).
Proof.
  intros reply. split; [|split].
  - unfold reply, fetch.
    destruct (String.eqb pathname "/api/healthz"); [by intros s [= <-]; in_list|].
    destruct (String.eqb pathname "/api/devices"); [|by intros s [= <-]; in_list].
    unfold handleDevices.
    destruct (negb (truthy token)); [by intros s [= <-]; in_list|].
    destruct (negb (String.eqb method "GET")); [by intros s [= <-]; in_list|].
    destruct upstream as [msg|ok status body]; [by intros s [= <-]; in_list|].
    destruct (negb ok).
    + cbn [replyStatus].
      destruct (Nat.eqb_spec status 401) as [->|_]; [by intros s [= <-]; in_list|].
      destruct (Nat.eqb_spec status 403) as [->|_]; by intros s [= <-]; in_list.
    + destruct (readDevices getTime now body); [by intros s [= <-]; in_list|].
      by intros s.
  - intros Hpath. unfold reply, fetch.
    destruct (String.eqb pathname "/api/healthz"); [by eexists|].
    destruct (String.eqb_spec pathname "/api/devices"); [done|by eexists].
  - intros ->. unfold reply, fetch, handleDevices. simpl.
    destruct (truthy token) eqn:Htok; simpl.
    2:{ split; [|split; [|split]]; [| |done|done].
        - split; [done|]. by intros (? & _).
        - split; [done|]. by intros (? & _). }
    destruct (String.eqb_spec method "GET") as [->|Hm]; simpl.
    2:{ split; [|split; [|split]]; [| |done|done].
        - split; [done|]. by intros (_ & ? & _).
        - split; [done|]. by intros (_ & ? & _). }
    destruct upstream as [msg|ok status body]; simpl.
    { split; [|split; [|split]]; [| |done|done].
      - split; [done|]. by intros (_ & _ & ? & ? & ?).
      - split; [done|]. by intros (_ & _ & ? & ? & ? & _). }
    destruct ok; simpl.
    + destruct (readDevices getTime now body) as [ds|] eqn:Hb; simpl.
      * apply WorkerSpec.readDevices_Some in Hb as (raws & -> & _).
        split; [|split; [|split]]; [| |done|].
        -- split; [eauto|done].
        -- split; [done|]. intros (_ & _ & st' & body' & [= _ <-] & Hno).
           by destruct (Hno raws).
        -- intros ? ? _ _ [=].
      * pose proof (proj1 (readDevices_None _ _ _) Hb) as Hno.
        split; [|split; [|split]]; [| |done|].
        -- split; [done|]. intros (_ & _ & st' & raws & [= _ ->]).
           by destruct (Hno raws).
        -- split; [eauto 10|done].
        -- intros ? ? _ _ [=].
    + split; [|split; [|split]]; [| |done|].
      * split.
        -- intros H. exfalso. repeat case_match; try done.
           all: injection H as H; subst.
           all: match goal with
                | Hor : _ || _ = true |- _ =>
                    apply orb_true_iff in Hor as [Hor%Nat.eqb_eq | Hor%Nat.eqb_eq];
                    done
                end.
        -- by intros (_ & _ & ? & ? & [=]).
      * split; [by repeat case_match|]. by intros (_ & _ & ? & ? & [=] & _).
      * intros st' b' _ _ [= <- <-] H1 H3.
        apply Nat.eqb_neq in H1, H3. by rewrite H1, H3.
Qed.

Lemma fetch_status_witness :
  replyStatus (fetch sampleGetTime 0 "/api/devices" (Some "tskey") "GET"
                 (FetchResponse false 429 BodyInvalid)) = Some 502 ∧
  replyStatus (fetch sampleGetTime 0 "/api/devices" (Some "tskey") "GET"
                 (FetchResponse true 200 (BodyData (DevicesArray [ElemNull]))))
    = None.
Proof.
  split.
  - apply (proj2 (proj2 (proj2 (proj2 (proj2 (fetch_status sampleGetTime 0
             "/api/devices" (Some "tskey") "GET"
             (FetchResponse false 429 BodyInvalid))) eq_refl)))
             429 BodyInvalid); first [reflexivity | discriminate].
  - apply (proj1 (proj2 (proj2 (proj2 (fetch_status sampleGetTime 0
             "/api/devices" (Some "tskey") "GET"
             (FetchResponse true 200 (BodyData (DevicesArray [ElemNull])))))
             eq_refl))).
    split; [reflexivity|]. split; [reflexivity|].
    eexists _, _. split; [reflexivity|]. by intros [[|? ?]|].
Defined.

(** X2: a successful answer lists exactly the upstream devices that have a
    name, in the upstream order, one record for each; a missing [devices]
    field gives the empty list.  It is given only for a body whose
    [devices] field is absent or an array of device objects. *)
Theorem handleDevices_keeps_named getTime now token method upstream devices :
  handleDevices getTime now token method upstream = Devices devices →
  ∃ status raws,
    upstream = FetchResponse true status (jsonBody raws) ∧
    Forall2 (λ d r,
               raw_name r = Some (dev_name d) ∧ dev_name d ≠ "" ∧
               dev_id d = raw_id r ∧
               dev_lastSeen d = raw_lastSeen r ∧
               dev_addresses d = default [] (raw_addresses r))
      devices (List.filter (λ r, truthy (raw_name r)) (default [] raws)).
Proof.
  intros (_ & _ & status & raws & -> & ->)%WorkerSpec.handleDevices_Devices.
  exists status, raws. split; [done|].
  induction (default [] raws) as [|r l IH]; simpl; [constructor|].
  unfold trimDevice at 1. destruct (truthy (raw_name r)) eqn:Hn; simpl; [|done].
  constructor; [|done].
  destruct (raw_name r) as [n|]; [|done]. simpl in *.
  repeat split. intros ->. done.
Qed.

Lemma handleDevices_keeps_named_witness :
  ∃ status raws,
    FetchResponse true 200
      (jsonBody (Some [sampleRaw "" "x" true; sampleRaw "b.ts.net" "y" false]))
    = FetchResponse true status (jsonBody raws) ∧
    Forall2 (λ d r,
               raw_name r = Some (dev_name d) ∧ dev_name d ≠ "" ∧
               dev_id d = raw_id r ∧
               dev_lastSeen d = raw_lastSeen r ∧
               dev_addresses d = default [] (raw_addresses r))
      [mkDevice "n1" "b.ts.net" "b" "" [] "" false (Some "y") false]
      (List.filter (λ r, truthy (raw_name r)) (default [] raws)).
Proof.
  apply (handleDevices_keeps_named sampleGetTime 0%Z (Some "tskey") "GET"
           (FetchResponse true 200
              (jsonBody (Some [sampleRaw "" "x" true; sampleRaw "b.ts.net" "y" false])))).
  reflexivity.
Defined.

Lemma splitHead_no_dot s : includes (splitHead s) "." = false.
Proof.
  induction s as [|c s IH]; [done|]. cbn [splitHead].
  destruct (Ascii.eqb_spec c ".") as [->|Hc]; [done|].
  change (includes (String c (splitHead s)) ".")
    with ((if ascii_dec "." c then String.prefix "" (splitHead s) else false)
          || includes (splitHead s) ".").
  rewrite IH. by destruct (ascii_dec "." c) as [<-|_].
Qed.

Lemma splitHead_prefix s :
  s = splitHead s ∨ ∃ rest, s = splitHead s +:+ "." +:+ rest.
Proof.
  induction s as [|c s IH]; [by left|]. simpl.
  destruct (Ascii.eqb_spec c ".") as [->|Hc].
  - right. by exists s.
  - destruct IH as [IH|[rest IH]].
    + left. by rewrite <- IH.
    + right. exists rest.
      change (String c s = String c (splitHead s +:+ "." +:+ rest)).
      by rewrite <- IH.
Qed.

(** X3: the display name of a returned record contains no dot and is the
    part of its name before the first dot. *)
Theorem displayName_is_first_label
    getTime now token method upstream devices (d : Device) :
  handleDevices getTime now token method upstream = Devices devices →
  d ∈ devices →
  includes (dev_displayName d) "." = false ∧
  (dev_name d = dev_displayName d ∨
   ∃ rest, dev_name d = dev_displayName d +:+ "." +:+ rest).
Proof.
  intros Hresp Hd.
  destruct (WorkerSpec.handleDevices_elem _ _ _ _ _ _ _ Hresp Hd) as (r & Hr).
  unfold trimDevice in Hr. destruct (truthy (raw_name r)); [|by inversion Hr].
  apply list_elem_of_singleton in Hr as ->. simpl.
  split; [apply splitHead_no_dot | apply splitHead_prefix].
Qed.

Lemma displayName_is_first_label_witness :
  let d := mkDevice "n1" "jkt02.tail.ts.net" "jkt02" "" [] "" false (Some "y") true in
  includes (dev_displayName d) "." = false ∧
  (dev_name d = dev_displayName d ∨
   ∃ rest, dev_name d = dev_displayName d +:+ "." +:+ rest).
Proof.
  intros d.
  apply (displayName_is_first_label sampleGetTime 0%Z (Some "tskey") "GET"
           (FetchResponse true 200
              (jsonBody (Some [sampleRaw "jkt02.tail.ts.net" "y" true])))
           [d] d).
  - reflexivity.
  - apply list_elem_of_here.
Defined.

End RouterSpec.

(** ** Device cards and the search box *)

Module CardSpec.
Import Worker Picker Cards App Obs.

#[local] Open Scope Z_scope.

(** X4: for a valid date the text names the elapsed time rounded down:
    "just now" below one minute, then 1 to 59 whole minutes, then 1 to 23
    whole hours, then whole days. *)
Theorem relativeAge_bounds getTime now iso t :
  truthy iso = true → getTime (default "" iso) = Some t →
  match relativeAge getTime now iso with
  | Never => False
  | JustNow => now - t < 60000
  | MinutesAgo m => 1 ≤ m ≤ 59 ∧ m * 60000 ≤ now - t < (m + 1) * 60000
  | HoursAgo h => 1 ≤ h ≤ 23 ∧ h * 3600000 ≤ now - t < (h + 1) * 3600000
  | DaysAgo (Some d) => 1 ≤ d ∧ d * 86400000 ≤ now - t < (d + 1) * 86400000
  | DaysAgo None => False
  end.
Proof.
  intros Hiso Ht. unfold relativeAge. rewrite Hiso, Ht. simpl. cbv zeta.
  assert (Hh : (now - t) / 60000 / 60 = (now - t) / 3600000).
  { by rewrite Z.div_div by lia. }
  assert (Hd : (now - t) / 60000 / 60 / 24 = (now - t) / 86400000).
  { by rewrite !Z.div_div by lia. }
  destruct (Z.ltb_spec ((now - t) / 60000) 1) as [H1|H1].
  { Z.div_mod_to_equations. lia. }
  destruct (Z.ltb_spec ((now - t) / 60000) 60) as [H2|H2].
  { Z.div_mod_to_equations. lia. }
  rewrite Hd, Hh.
  destruct (Z.ltb_spec ((now - t) / 3600000) 24) as [H3|H3].
  { rewrite Hh in *. Z.div_mod_to_equations. lia. }
  rewrite Hh in *. Z.div_mod_to_equations. lia.
Qed.

Lemma relativeAge_bounds_witness :
  match relativeAge sampleGetTime 1767229200000
          (Some "2026-01-01T00:00:00Z") with
  | HoursAgo h =>
      1 ≤ h ≤ 23 ∧
      h * 3600000 ≤ 1767229200000 - 1767225600000 < (h + 1) * 3600000
  | _ => False
  end.
Proof.
  apply (relativeAge_bounds sampleGetTime 1767229200000
           (Some "2026-01-01T00:00:00Z") 1767225600000); reflexivity.
Defined.

(** X5: the text is "never" exactly for a missing or empty date; a date
    that does not parse gives "NaNd ago"; a date that is not in the past
    gives "just now". *)
Theorem relativeTime_edges getTime now iso :
  (relativeAge getTime now iso = Never ↔ truthy iso = false) ∧
  (truthy iso = false → relativeTime getTime now iso = "never") ∧
  (truthy iso = true → getTime (default "" iso) = None →
   relativeTime getTime now iso = "NaNd ago") ∧
  (∀ t, truthy iso = true → getTime (default "" iso) = Some t → now ≤ t →
        relativeTime getTime now iso = "just now").
Proof.
  unfold relativeTime, relativeAge.
  destruct (truthy iso) eqn:Hiso; simpl.
  - split; [|split; [done|split]].
    + split; [|done]. destruct (getTime (default "" iso)); [|done].
      cbv zeta. by repeat case_match.
    + by intros _ ->.
    + intros t _ -> Hle. cbv zeta.
      destruct (Z.ltb_spec ((now - t) / 60000) 1) as [_|H1]; [done|].
      exfalso. Z.div_mod_to_equations. lia.
  - split; [done|]. split; [done|]. split; [done|]. by intros.
Qed.

Lemma relativeTime_edges_witness :
  relativeTime sampleGetTime 0 (Some "not a date") = "NaNd ago".
Proof.
  apply (proj1 (proj2 (proj2 (relativeTime_edges sampleGetTime 0
                                (Some "not a date"))))); reflexivity.
Defined.

Lemma find_some_elem {A} (p : A → bool) (l : list A) x :
  List.find p l = Some x → x ∈ l ∧ p x = true.
Proof.
  intros [Hin Hp]%List.find_some. split; [by apply list_elem_of_In | done].
Qed.

Lemma find_none_all {A} (p : A → bool) (l : list A) :
  List.find p l = None → Forall (λ x, p x = false) l.
Proof.
  intros Hnone. apply Forall_forall. intros x Hx.
  apply (List.find_none _ _ Hnone). by apply list_elem_of_In.
Qed.

Lemma find_first {A} (p : A → bool) (l : list A) x :
  List.find p l = Some x ↔ firstWith p l x.
Proof.
  unfold firstWith. revert x. induction l as [|y l IH]; intros x; simpl.
  - split; [done|]. by intros ([|? ?] & ? & ? & _).
  - destruct (p y) eqn:Hy.
    + split.
      * intros [= <-]. by exists [], l.
      * intros ([|z pre] & post & Hl & Hpre & Hx); simpl in Hl.
        -- by injection Hl as ->.
        -- injection Hl as -> _. apply Forall_cons in Hpre as [Hz _]. congruence.
    + rewrite IH. split.
      * intros (pre & post & -> & Hpre & Hx). exists (y :: pre), post.
        split; [done|]. split; [by constructor | done].
      * intros ([|z pre] & post & Hl & Hpre & Hx); simpl in Hl.
        -- injection Hl as -> _. congruence.
        -- injection Hl as -> ->. apply Forall_cons in Hpre as [_ Hpre]. eauto.
Qed.

(** X8: a card's button is enabled exactly for a device that is online and
    has SSH enabled, and only then does it carry a click listener; a
    disabled button always has a tooltip, which says "Device is offline"
    whenever the device is offline.  The address shown and connected to is
    the first address without a colon, or the device name when every
    address has one; the second address shown is the first address with a
    colon, and there is none when no address has one. *)
Theorem buildCard_connectable getTime now (d : Device) :
  let c := buildCard getTime now d in
  let colon a := includes a ":" in
  (card_disabled c = false ↔ dev_online d = true ∧ dev_sshEnabled d = true) ∧
  (card_onClick c = None ↔ card_disabled c = true) ∧
  (card_disabled c = true →
   ∃ reason, card_title c = Some reason ∧
             (dev_online d = false → reason = "Device is offline")) ∧
  (card_disabled c = false →
   card_title c = None ∧ card_button c = "Connect" ∧ card_badge c = "Online" ∧
   card_onClick c = Some (card_ipv4 c, card_name c)) ∧
  (firstWith (λ a, negb (colon a)) (dev_addresses d) (card_ipv4 c) ∨
   (card_ipv4 c = dev_name d ∧
    Forall (λ a, colon a = true) (dev_addresses d))) ∧
  match card_ipv6 c with
  | Some a => firstWith colon (dev_addresses d) a
  | None => Forall (λ a, colon a = false) (dev_addresses d)
  end.
Proof.
  intros c colon. unfold c, buildCard, canConnect. simpl.
  split; [|split; [|split; [|split; [|split]]]].
  - destruct (dev_online d), (dev_sshEnabled d); simpl; split; try done;
      intros [? ?]; done.
  - destruct (dev_online d), (dev_sshEnabled d); simpl; split; done.
  - destruct (dev_online d), (dev_sshEnabled d); simpl; intros H; try done;
      (eexists; split; [reflexivity|]; by intros).
  - destruct (dev_online d), (dev_sshEnabled d); simpl; done.
  - unfold cardAddr.
    destruct (List.find _ (dev_addresses d)) as [a|] eqn:Hfind.
    + left. exact (proj1 (find_first _ _ _) Hfind).
    + right. split; [done|]. apply find_none_all in Hfind.
      eapply Forall_impl; [exact Hfind|]. intros a Ha. simpl in Ha.
      by apply negb_false_iff.
  - destruct (List.find _ (dev_addresses d)) as [a|] eqn:Hfind.
    + exact (proj1 (find_first _ _ _) Hfind).
    + exact (find_none_all _ _ Hfind).
Qed.

Lemma buildCard_connectable_witness :
  let d := mkDevice "n1" "a.ts.net" "a" "host-a"
             ["fd7a::1"; "100.64.0.1"; "100.64.0.2"] "linux" true None true in
  let c := buildCard sampleGetTime 0 d in
  card_ipv4 c = "100.64.0.1" ∧
  card_title c = None ∧ card_button c = "Connect" ∧ card_badge c = "Online" ∧
  card_onClick c = Some (card_ipv4 c, card_name c).
Proof.
  intros d c. split; [reflexivity|].
  apply (proj1 (proj2 (proj2 (proj2
           (buildCard_connectable sampleGetTime 0 d))))).
  reflexivity.
Defined.

#[local] Close Scope Z_scope.

(** The code units below 256 that [trim] strips and that [toLowerCase]
    changes. *)
Lemma trim_units (n : N) :
  (n < 256)%N →
  (trim (String (ascii_of_N n) "") = "" ↔ n ∈ [9; 10; 11; 12; 13; 32; 160]%N).
Proof.
  intros Hn.
  assert (Hw : isWhiteSpace (ascii_of_N n) = true ↔
               n ∈ [9; 10; 11; 12; 13; 32; 160]%N).
  { unfold isWhiteSpace. rewrite N_ascii_embedding by done. cbv zeta.
    rewrite !orb_true_iff, andb_true_iff, !N.leb_le, !N.eqb_eq.
    rewrite !elem_of_cons, elem_of_nil. lia. }
  rewrite <- Hw. unfold trim. cbn [trimStart].
  destruct (isWhiteSpace (ascii_of_N n)) eqn:E; [done|].
  cbn. rewrite E. cbn. split; discriminate.
Qed.

Lemma toLowerCase_units (n : N) :
  (n < 256)%N →
  toLowerCase (String (ascii_of_N n) "") =
  String (ascii_of_N
            (if decide ((65 ≤ n ≤ 90)%N ∨ ((192 ≤ n ≤ 222)%N ∧ n ≠ 215%N))
             then n + 32 else n)) "".
Proof.
  intros Hn. cbn [toLowerCase]. unfold lowerUnit.
  rewrite N_ascii_embedding by done. cbv zeta.
  case_decide as Hd.
  - assert (Hb : ((65 <=? n) && (n <=? 90)
                  || (192 <=? n) && (n <=? 222) && negb (n =? 215))%N = true).
    { rewrite orb_true_iff, !andb_true_iff, negb_true_iff, !N.leb_le, N.eqb_neq.
      lia. }
    by rewrite Hb.
  - assert (Hb : ((65 <=? n) && (n <=? 90)
                  || (192 <=? n) && (n <=? 222) && negb (n =? 215))%N = false).
    { apply not_true_is_false. intros Hb. apply Hd.
      rewrite orb_true_iff, !andb_true_iff, negb_true_iff, !N.leb_le, N.eqb_neq
        in Hb. lia. }
    by rewrite Hb.
Qed.

Lemma renderCards_sublist (cards : list Device) (query : string) :
  renderCards cards query `sublist_of` cards.
Proof.
  unfold renderCards. cbv zeta.
  induction cards as [|d l IH]; simpl; [done|].
  case_match; by constructor.
Qed.

Lemma renderCards_elem (cards : list Device) (query : string) (d : Device) :
  d ∈ renderCards cards query ↔
  d ∈ cards ∧ includes (haystack d) (toLowerCase (trim query)) = true.
Proof.
  assert (Hempty : ∀ h, includes h "" = true).
  { intros h. by destruct h. }
  unfold renderCards. cbv zeta.
  rewrite list_elem_of_In, filter_In, <- list_elem_of_In.
  split; intros [Hin Hm]; (split; [done|]).
  - apply orb_true_iff in Hm as [Hq%String.eqb_eq|Hm]; [|done].
    rewrite Hq. apply Hempty.
  - rewrite Hm. apply orb_true_r.
Qed.

(** X6: what the search box shows is the cards that match, in the order
    they had: a card is shown exactly when the query, trimmed and
    lower-cased, occurs in its text, which is the display name, the host
    name, the OS and the addresses, joined by blanks and lower-cased.  The
    full name, the id and the flags of a device are not looked at.  A
    query of blanks shows every card. *)
Theorem renderCards_filter (cards : list Device) (query : string) :
  renderCards cards query `sublist_of` cards ∧
  (∀ d, d ∈ renderCards cards query ↔
        d ∈ cards ∧ includes (haystack d) (toLowerCase (trim query)) = true) ∧
  (∀ d, haystack d =
        toLowerCase (String.concat " "
          (dev_displayName d :: dev_hostname d :: dev_os d :: dev_addresses d))) ∧
  (∀ d d', dev_displayName d = dev_displayName d' →
           dev_hostname d = dev_hostname d' → dev_os d = dev_os d' →
           dev_addresses d = dev_addresses d' →
           (renderCards [d] query = [] ↔ renderCards [d'] query = [])) ∧
  (trim query = "" → renderCards cards query = cards).
Proof.
  split; [apply renderCards_sublist|].
  split; [apply renderCards_elem|].
  split; [done|]. split.
  - intros d d' H1 H2 H3 H4. unfold renderCards, haystack. simpl.
    rewrite H1, H2, H3, H4. by case_match.
  - unfold renderCards. cbv zeta. intros ->. simpl.
    induction cards as [|d l IH]; simpl; [done|]. by rewrite IH.
Qed.

Lemma renderCards_filter_witness :
  renderCards [sampleDevice] "   " = [sampleDevice] ∧
  renderCards [sampleDevice] "ts.net" = [].
Proof.
  split; [|reflexivity].
  apply (proj2 (proj2 (proj2 (proj2 (renderCards_filter [sampleDevice] "   "))))).
  reflexivity.
Defined.

Section Collation.
Variable localeCompare : string → string → Z.
(** As for the picker's order: [localeCompare] is only taken to be a
    consistent comparison function. *)
Hypothesis localeCompare_total :
  ∀ x y, (localeCompare x y ≤ 0 ∨ localeCompare y x ≤ 0)%Z.
Hypothesis localeCompare_trans :
  ∀ x y z, (localeCompare x y ≤ 0)%Z → (localeCompare y z ≤ 0)%Z →
           (localeCompare x z ≤ 0)%Z.

(** X7: the order is the same on the first render and after every
    filtering: whatever the query, the cards shown are the matching devices
    of the list, remote-shell-enabled first, then online first, then the
    names ascending in the order of the runtime's [localeCompare]. *)
Theorem renderCards_keeps_order (devices : list Device) (query : string) :
  let shown := renderCards (arraySort (compareDevices localeCompare) devices) query in
  StronglySorted (pickerOrder (collates localeCompare)) shown ∧
  (∀ d, d ∈ shown ↔
        d ∈ devices ∧ includes (haystack d) (toLowerCase (trim query)) = true).
Proof using localeCompare_total localeCompare_trans.
  intros shown. split.
  - eapply TabIdSpec.StronglySorted_sublist.
    + apply renderCards_sublist.
    + by apply PickerSpec.arraySort_pickerOrder.
  - intros d. unfold shown. rewrite renderCards_elem.
    by rewrite PickerSpec.arraySort_perm.
Qed.
End Collation.

Lemma renderCards_keeps_order_witness :
  renderCards
    (arraySort (compareDevices ciCompare)
       [ mkDevice "2" "Beta.ts.net" "Beta" "" [] "" false None true;
         mkDevice "3" "gamma.ts.net" "gamma" "" [] "" true None true;
         mkDevice "1" "alpha.ts.net" "alpha" "" [] "" false None true ])
    "a"
  = [ mkDevice "3" "gamma.ts.net" "gamma" "" [] "" true None true;
      mkDevice "1" "alpha.ts.net" "alpha" "" [] "" false None true;
      mkDevice "2" "Beta.ts.net" "Beta" "" [] "" false None true ] ∧
  StronglySorted (pickerOrder (collates ciCompare))
    (renderCards
       (arraySort (compareDevices ciCompare)
          [ mkDevice "2" "Beta.ts.net" "Beta" "" [] "" false None true;
            mkDevice "3" "gamma.ts.net" "gamma" "" [] "" true None true;
            mkDevice "1" "alpha.ts.net" "alpha" "" [] "" false None true ])
       "a").
Proof.
  split; [reflexivity|].
  apply (renderCards_keeps_order ciCompare PickerSpec.ciCompare_total
           PickerSpec.ciCompare_trans).
Defined.

End CardSpec.

(** ** Remembered user names *)

Module StoredUserSpec.
Import App Obs AppFacts TeardownSpec ArbiterSpec OpenSessionSpec.

Lemma getStoredUser_stored st hostname username :
  ls_blocked (localStorage st) = false →
  username = "" ∨ ls_full (localStorage st) = false →
  getStoredUser hostname (setStoredUser hostname username st) = username.
Proof.
  intros Hb Hw. unfold getStoredUser, setStoredUser, getItem, setItem, removeItem.
  cbv zeta. destruct (localStorage st) as [m b f]. simpl in *. subst b.
  destruct (String.eqb_spec username "") as [->|Hu]; simpl.
  - by rewrite lookup_delete_eq.
  - destruct Hw as [?| ->]; [done|]. simpl. by rewrite lookup_insert_eq.
Qed.

Lemma setStoredUser_refused st hostname username :
  ls_blocked (localStorage st) = true ∨
  (username ≠ "" ∧ ls_full (localStorage st) = true) →
  setStoredUser hostname username st = st.
Proof.
  unfold setStoredUser, setItem, removeItem. cbv zeta.
  intros [Hb|[Hu%String.eqb_neq Hf]].
  - rewrite Hb. simpl. by destruct (String.eqb username "").
  - rewrite Hu, Hf. by rewrite orb_true_r.
Qed.

Lemma getStoredUser_blocked st hostname :
  ls_blocked (localStorage st) = true → getStoredUser hostname st = "".
Proof. intros Hb. unfold getStoredUser, getItem. by rewrite Hb. Qed.

(** X9: while the browser lets the page use its storage, reading back the
    name stored for a host gives that name, the empty name included, which
    removes the entry, and the names stored for other hosts are not
    touched.  A write the browser refuses, because storage is blocked or
    the quota is used up, is dropped and changes nothing, and every read
    of a blocked storage gives the empty name. *)
Theorem storedUser_roundtrip st hostname username :
  let s := localStorage st in
  let st' := setStoredUser hostname username st in
  (ls_blocked s = false → username = "" ∨ ls_full s = false →
   getStoredUser hostname st' = username ∧
   (∀ other, other ≠ hostname → getStoredUser other st' = getStoredUser other st)) ∧
  (ls_blocked s = true ∨ (username ≠ "" ∧ ls_full s = true) → st' = st) ∧
  (ls_blocked s = true →
   ∀ h, getStoredUser h st = "" ∧ getStoredUser h st' = "").
Proof.
  intros s st'. unfold s, st'. split; [|split].
  - intros Hb Hw. split; [by apply getStoredUser_stored|].
    assert (Hkey : ∀ other, other ≠ hostname →
              LS_PREFIX +:+ hostname ≠ LS_PREFIX +:+ other).
    { intros other Hne Heq. apply Hne. symmetry. by eapply (inj (String.app _)). }
    unfold getStoredUser, setStoredUser, getItem, setItem, removeItem.
    cbv zeta. destruct (localStorage st) as [m b f]. simpl in *. subst b.
    destruct (String.eqb_spec username "") as [->|Hu]; simpl.
    + intros other Hne. by rewrite lookup_delete_ne by auto.
    + destruct Hw as [?| ->]; [done|]. simpl.
      intros other Hne. by rewrite lookup_insert_ne by auto.
  - apply setStoredUser_refused.
  - intros Hb h. rewrite setStoredUser_refused by auto.
    split; by apply getStoredUser_blocked.
Qed.

Lemma storedUser_roundtrip_witness :
  getStoredUser "a" (setStoredUser "a" "alice" init) = "alice" ∧
  getStoredUser "b" (setStoredUser "a" "alice" init) = getStoredUser "b" init ∧
  (let full := set_localStorage
                 {| ls_items := ∅; ls_blocked := false; ls_full := true |} init in
   setStoredUser "a" "alice" full = full).
Proof.
  destruct (proj1 (storedUser_roundtrip init "a" "alice") eq_refl
              (or_intror eq_refl)) as [H1 H2].
  split; [exact H1|]. split; [apply H2; discriminate|].
  intros full.
  apply (proj1 (proj2 (storedUser_roundtrip full "a" "alice"))).
  right. split; [discriminate | reflexivity].
Defined.

Lemma localStorage_openSession_resume_open k name st :
  heapSessions st !! k_tab k = Some None → name ≠ "" →
  localStorage (openSession_resume k (Some name) st) =
  localStorage
    (setStoredUser (orElse (dev_displayName (k_device k)) (dev_name (k_device k)))
       name st).
Proof.
  rewrite heapSessions_lookup. intros Hh Hname%String.eqb_neq.
  destruct (heap st !! k_tab k) as [t|] eqn:Ht; [|done].
  simpl in Hh. injection Hh as Hs.
  unfold openSession_resume. rewrite Hname, Ht, Hs. cbv zeta.
  set (key := orElse _ _). set (lbl := name +:+ _).
  change (localStorage (setTabLabel (tab_id t) lbl (setStoredUser key name st)) =
          localStorage (setStoredUser key name st)).
  by rewrite setTabLabel_nf.
Qed.

(** X10: once a session was opened on a device under a name, and the
    browser accepted the write, the name is stored for the device and the
    next prompt for it comes up with that name filled in; when it refused
    the write, the store is as it was.  For a device without a stored
    name, or with storage blocked, the prompt comes up with [root], or
    empty when the device's OS mentions darwin. *)
Theorem prompt_prefill k name st d k' st' :
  let key d := orElse (dev_displayName d) (dev_name d) in
  let fallback := if includes (toLowerCase (dev_os d)) "darwin" then "" else "root" in
  (heapSessions st !! k_tab k = Some None → name ≠ "" →
   (ls_blocked (localStorage st) = false → ls_full (localStorage st) = false →
    getStoredUser (key (k_device k)) (openSession_resume k (Some name) st) = name) ∧
   (ls_blocked (localStorage st) = true ∨ ls_full (localStorage st) = true →
    localStorage (openSession_resume k (Some name) st) = localStorage st)) ∧
  (modalBusy st' = false →
   (getStoredUser (key d) st' = name → name ≠ "" →
    usernameInput (promptUsername d k' st') = name) ∧
   (getStoredUser (key d) st' = "" →
    usernameInput (promptUsername d k' st') = fallback) ∧
   (ls_blocked (localStorage st') = true →
    usernameInput (promptUsername d k' st') = fallback)).
Proof.
  intros key fallback. split.
  - intros Hh Hname. split.
    + intros Hb Hf. unfold getStoredUser.
      rewrite localStorage_openSession_resume_open by done.
      apply (getStoredUser_stored st (key (k_device k)) name); auto.
    + intros Hrefused.
      rewrite localStorage_openSession_resume_open by done.
      rewrite setStoredUser_refused; [done|].
      destruct Hrefused; auto.
  - intros Hfree.
    assert (Hinput : usernameInput (promptUsername d k' st') =
                     orElse (getStoredUser (key d) st') fallback).
    { unfold promptUsername. rewrite Hfree. reflexivity. }
    rewrite Hinput. split; [|split].
    + intros -> Hname%String.eqb_neq. unfold orElse. by rewrite Hname.
    + by intros ->.
    + intros Hb. by rewrite getStoredUser_blocked.
Qed.

Lemma prompt_prefill_witness :
  usernameInput
    (promptUsername sampleDevice (cardCont 0 sampleDevice)
       (run [SshDone 0] connected)) = "alice" ∧
  usernameInput
    (promptUsername sampleDevice (cardCont 0 sampleDevice)
       (run [SshDone 0;
             StorageEvent {| ls_items := ∅; ls_blocked := true; ls_full := false |}]
          connected)) = "root".
Proof.
  split.
  - apply (proj1 (proj2 (prompt_prefill (cardCont 0 sampleDevice) "alice" init
                           sampleDevice (cardCont 0 sampleDevice)
                           (run [SshDone 0] connected)) eq_refl));
      first [reflexivity | discriminate].
  - apply (proj2 (proj2 (proj2 (prompt_prefill (cardCont 0 sampleDevice) "alice"
                           init sampleDevice (cardCont 0 sampleDevice)
                           (run [SshDone 0;
                                 StorageEvent {| ls_items := ∅; ls_blocked := true;
                                                 ls_full := false |}]
                              connected)) eq_refl)));
      reflexivity.
Defined.

(** X11: cancelling the prompt, by the button or by Escape, leaves the tab
    as it was: no session is started, no tab object, no stored name and no
    label changes, and the modal is free again. *)
Theorem cancelled_prompt_changes_nothing st r d cancel :
  heapSessions st !! r = Some None → canConnect d = true →
  modalBusy st = false → microtasks st = [] →
  cancel = ModalCancelClick ∨ cancel = ModalKey "Escape" →
  let st' := run [ConnectClick r d; cancel; Microtask] st in
  heap st' = heap st ∧ sessions st' = sessions st ∧
  localStorage st' = localStorage st ∧ skeleton st' = skeleton st ∧
  modalBusy st' = false ∧ listeners st' = None ∧ microtasks st' = [] ∧
  trace st' = trace st ++ [GateRelease; Resolve (cardCont r d) None].
Proof.
  intros Hr Hd Hfree Hq Hcancel st'.
  assert (E1 : step st (ConnectClick r d) =
               promptUsername d (cardCont r d) st).
  { simpl. rewrite Hd. by apply openSession_free. }
  assert (E2 : step (step st (ConnectClick r d)) cancel =
               cleanup (cardCont r d) None (promptUsername d (cardCont r d) st)).
  { rewrite E1.
    assert (Hl : listeners (promptUsername d (cardCont r d) st)
                 = Some (cardCont r d)).
    { unfold promptUsername. by rewrite Hfree. }
    destruct Hcancel as [-> | ->]; simpl.
    - by apply onCancel_open.
    - unfold onKey. simpl. by apply onCancel_open. }
  unfold st'. change (run _ st)
    with (step (step (step st (ConnectClick r d)) cancel) Microtask).
  rewrite E2. unfold promptUsername. rewrite Hfree. unfold cleanup. simpl.
  rewrite Hq. simpl. by rewrite <- app_assoc.
Qed.

Lemma cancelled_prompt_changes_nothing_witness :
  let st := run [NotifyState "Running"] init in
  let st' := run [ConnectClick 0 sampleDevice; ModalKey "Escape"; Microtask] st in
  heap st' = heap st ∧ sessions st' = sessions st ∧
  localStorage st' = localStorage st ∧ skeleton st' = skeleton st ∧
  modalBusy st' = false ∧ listeners st' = None ∧ microtasks st' = [] ∧
  trace st' = trace st ++ [GateRelease; Resolve (cardCont 0 sampleDevice) None].
Proof.
  intros st.
  apply (cancelled_prompt_changes_nothing st 0 sampleDevice (ModalKey "Escape"));
    first [reflexivity | by right].
Defined.

End StoredUserSpec.

(** ** What one turn of the event loop does to the registry *)

Module LoopFacts.
Import App Obs Inv AppFacts LastTabSpec TeardownSpec SessionEndSpec
  OpenSessionSpec OrderSyncSpec.

Lemma skeleton_activeTabId st st' :
  skeleton st' = skeleton st → activeTabId st' = activeTabId st.
Proof. unfold skeleton. by intros [=]. Qed.

Lemma quiet_skeleton st st' :
  skeleton st' = skeleton st → heapIds st' = heapIds st →
  quiet st st' ∧ activeTabId st' = activeTabId st.
Proof.
  intros Hsk Hids. split; [|by apply skeleton_activeTabId].
  repeat split; [by apply skeleton_tabs | done | by apply skeleton_tabIdSeq
                | by apply skeleton_coord | by apply skeleton_tabList].
Qed.

Lemma promptView_heapIds st st' :
  promptView st' = promptView st → heapIds st' = heapIds st.
Proof. unfold promptView, heapIds. by intros [= -> _]. Qed.

Lemma heapIds_onError sid st : heapIds (onError sid st) = heapIds st.
Proof. unfold onError. repeat case_match; try done. apply heapIds_onSessionEnd. Qed.

Lemma heapIds_onDone sid st : heapIds (onDone sid st) = heapIds st.
Proof. unfold onDone. repeat case_match; try done. apply heapIds_onSessionEnd. Qed.

(** Every input is a state notification, a panic, a click on the new-tab
    or on a close button, a drop, or it is quiet; a quiet input changes the
    active tab only when it is a click on a tab. *)
Lemma step_cases st i :
  (quiet st (step st i) ∧
   (activeTabId (step st i) = activeTabId st ∨
    ∃ id, i = TabClick id ∧ activeTabId (step st i) = Some id)) ∨
  (∃ state, i = NotifyState state) ∨
  i = NotifyPanicRecover ∨
  (i = NewTabClick ∧ buttonsWired st = true) ∨
  (∃ id, i = TabCloseClick id) ∨
  (∃ id, i = Drop id).
Proof.
  destruct i; simpl; eauto 10.
  - destruct (buttonsWired st) eqn:E; [eauto 10|]. left. by repeat split; [..|left].
  - left. case_match; by repeat split; [..|left].
  - left. split; [done|]. right. eauto.
  - left. by repeat split; [..|left].
  - left. by repeat split; [..|left].
  - left. case_match; [|by repeat split; [..|left]].
    destruct (quiet_skeleton st (openSession r d (cardAddr d) (cardDisplayName d) st))
      as [Hq Ha]; [apply skeleton_openSession| |by split; [|left]].
    apply promptView_heapIds, promptView_openSession.
  - left. by repeat split; [..|left].
  - left. destruct (quiet_skeleton st (onConnect st)) as [Hq Ha];
      [apply skeleton_onConnect| |by split; [|left]].
    apply promptView_heapIds, promptView_onConnect.
  - left. destruct (quiet_skeleton st (onCancel st)) as [Hq Ha];
      [apply skeleton_onCancel| |by split; [|left]].
    apply promptView_heapIds, promptView_onCancel.
  - left. destruct (quiet_skeleton st (onKey key st)) as [Hq Ha];
      [apply skeleton_onKey| |by split; [|left]].
    apply promptView_heapIds, promptView_onKey.
  - left. case_match; [by repeat split; [..|left]|]. case_match.
    destruct (quiet_skeleton st (openSession_resume c o (set_microtasks l st)))
      as [Hq Ha]; [by rewrite skeleton_openSession_resume| |by split; [|left]].
    by rewrite heapIds_openSession_resume.
  - left. destruct (quiet_skeleton st (onError sid st)) as [Hq Ha];
      [apply skeleton_onError|apply heapIds_onError|by split; [|left]].
  - left. destruct (quiet_skeleton st (onDone sid st)) as [Hq Ha];
      [apply skeleton_onDone|apply heapIds_onDone|by split; [|left]].
  - left. case_match; by repeat split; [..|left].
  - left. by repeat split; [..|left].
Qed.

(** *** The operations that do touch the registry *)

Lemma createTab_spec st :
  tabs (createTab st) = tabs st ++ [length (heap st)] ∧
  heapIds (createTab st) = heapIds st ++ [(tabIdSeq st + 1)%N] ∧
  tabIdSeq (createTab st) = (tabIdSeq st + 1)%N ∧
  coord (createTab st) = coord st ∧
  activeTabId (createTab st) = Some (tabIdSeq st + 1)%N.
Proof.
  split; [apply tabs_createTab|]. split; [apply heapIds_createTab|].
  split; [apply tabIdSeq_createTab|]. split; [apply coord_createTab|].
  by rewrite createTab_nf.
Qed.

Lemma heapIds_fold_destroyTab l st :
  heapIds (fold_left destroyTab l st) = heapIds st ∧
  tabIdSeq (fold_left destroyTab l st) = tabIdSeq st.
Proof.
  revert st. induction l as [|r l IH]; intros st; simpl; [done|].
  destruct (IH (destroyTab st r)) as [-> ->]. split.
  - apply heapIds_closeSessionOf.
  - apply (skeleton_tabIdSeq _ _ (skeleton_closeSessionOf r st)).
Qed.

Lemma clearAllTabs_spec st :
  tabs (clearAllTabs st) = [] ∧
  heapIds (clearAllTabs st) = heapIds st ∧
  tabIdSeq (clearAllTabs st) = tabIdSeq st ∧
  coord (clearAllTabs st) = coord st ∧
  activeTabId (clearAllTabs st) = None.
Proof.
  split; [done|].
  destruct (heapIds_fold_destroyTab (tabs st) st) as [Hids Hseq].
  split; [exact Hids|]. split; [exact Hseq|].
  split; [apply coord_clearAllTabs | done].
Qed.

Lemma onDrop_spec id st :
  tabs (onDrop id st) ≡ₚ tabs st ∧ heap (onDrop id st) = heap st ∧
  tabIdSeq (onDrop id st) = tabIdSeq st ∧ coord (onDrop id st) = coord st ∧
  activeTabId (onDrop id st) = activeTabId st.
Proof.
  unfold onDrop.
  destruct (dragSrcId st) as [src|]; [|done].
  destruct (N.eqb src id); [done|].
  destruct (findIndex (hasId st src) (tabs st)) as [i|] eqn:Hi; [|done].
  destruct (findIndex (hasId st id) (tabs st)) as [j|] eqn:Hj; [|done].
  destruct (tabs st !! i) as [a|] eqn:Ha; [|done].
  destruct (tabs st !! j) as [b|] eqn:Hb; [|done].
  cbv zeta.
  assert (Hperm : insertAt j a (delete i (tabs st)) ≡ₚ tabs st).
  { rewrite insertAt_perm. symmetry. by apply delete_Permutation. }
  by destruct (insertBefore _ _ _).
Qed.

(** What [notifyState] comes to, state by state. *)
Lemma notifyState_cases state st :
  (state = "Running" ∧
   ∃ st3, tabs st3 = tabs st ∧ heap st3 = heap st ∧ tabIdSeq st3 = tabIdSeq st ∧
          activeTabId st3 = activeTabId st ∧ trace st3 = trace st ∧
          sessions st3 = sessions st ∧
          status st3 = "Running" ∧ loginTimer st3 = false ∧
          buttonsWired st3 = true ∧
          globalIpn st3 = (globalIpn st || negb (buttonsWired st)) ∧
          notifyState state st =
            match tabs st with [] => createTab st3 | _ :: _ => st3 end) ∨
  ((state = "NeedsLogin" ∨ state = "NeedsMachineAuth") ∧
   notifyState state st = scheduleLogin (clearAllTabs (setStatus state st))) ∨
  (state = "Stopped" ∧ notifyState state st = clearAllTabs (setStatus state st)) ∨
  (¬ tearsDown state ∧ state ≠ "Running" ∧ notifyState state st = setStatus state st).
Proof.
  unfold notifyState. cbv zeta.
  destruct (String.eqb_spec state "Running") as [->|Hrun].
  { left. split; [done|].
    set (st3 := if buttonsWired _ then _ else _).
    exists st3. unfold st3.
    change (buttonsWired (set_ipnEverRan true
              (set_loginTimer false (setStatus "Running" st))))
      with (buttonsWired st).
    destruct (buttonsWired st) eqn:E; simpl; rewrite ?orb_false_r, ?orb_true_r;
      by repeat split. }
  right.
  destruct (String.eqb_spec state "NeedsLogin") as [->|Hl]; [left; auto|].
  destruct (String.eqb_spec state "NeedsMachineAuth") as [->|Hm]; [left; auto|].
  right. simpl.
  destruct (String.eqb_spec state "Stopped") as [->|Hs]; [left; auto|].
  right. split; [|done]. unfold tearsDown. tauto.
Qed.

(** [closeTab] on a tab that is in the array. *)
Lemma closeTab_spec id st r :
  getTab id st = Some r →
  ∃ i st1,
    findIndex (hasId st id) (tabs st) = Some i ∧ tabs st !! i = Some r ∧
    tabs st1 = delete i (tabs st) ∧ heapIds st1 = heapIds st ∧
    tabIdSeq st1 = tabIdSeq st ∧ coord st1 = coord st ∧
    activeTabId st1 = activeTabId st ∧
    ((delete i (tabs st) = [] ∧ globalIpn st = true ∧
      closeTab id st = createTab st1) ∨
     (delete i (tabs st) = [] ∧ globalIpn st = false ∧ closeTab id st = st1) ∨
     (delete i (tabs st) ≠ [] ∧ activeTabId st ≠ Some id ∧ closeTab id st = st1) ∨
     (delete i (tabs st) ≠ [] ∧ activeTabId st = Some id ∧
      match delete i (tabs st)
              !! Nat.min i (length (delete i (tabs st)) - 1) with
      | Some next =>
          match heapIds st !! next with
          | Some nid => closeTab id st = activateTab nid st1
          | None => closeTab id st = st1
          end
      | None => closeTab id st = st1
      end)).
Proof.
  intros Hget. rewrite (closeTab_unfold id st r Hget). cbv zeta.
  set (st0 := closeSessionOf r st).
  assert (Ht0 : tabs st0 = tabs st) by apply skeleton_tabs, skeleton_closeSessionOf.
  assert (Hids0 : heapIds st0 = heapIds st) by apply heapIds_closeSessionOf.
  assert (Hseq0 : tabIdSeq st0 = tabIdSeq st)
    by apply skeleton_tabIdSeq, skeleton_closeSessionOf.
  assert (Hc0 : coord st0 = coord st)
    by apply skeleton_coord, skeleton_closeSessionOf.
  assert (Ha0 : activeTabId st0 = activeTabId st)
    by apply skeleton_activeTabId, skeleton_closeSessionOf.
  apply getTab_findIndex in Hget as (i & Hi & Hri).
  assert (Hidx : findIndex (hasId st0 id) (tabs st0) = Some i).
  { rewrite Ht0, <- Hi. apply findIndex_ext. by apply hasId_ext. }
  rewrite Hidx. cbn [spliceOut]. rewrite Ht0.
  set (st1 := emit (TabsSplice r) _).
  exists i, st1. split; [done|]. split; [done|].
  split; [done|]. split; [exact Hids0|]. split; [exact Hseq0|].
  split; [exact Hc0|]. split; [exact Ha0|].
  rewrite (coord_globalIpn _ _ Hc0), Ha0.
  destruct (delete i (tabs st)) as [|x l'] eqn:Hdel.
  - destruct (globalIpn st); [left | right; left]; done.
  - right. right. case_bool_decide as Hact; [right | left; done].
    split; [done|]. split; [done|].
    destruct ((x :: l') !! _) as [next|]; [|done].
    assert (Hnext : heapIds st !! next = tab_id <$> heap st0 !! next).
    { rewrite <- Hids0. unfold heapIds. by rewrite list_lookup_fmap. }
    rewrite Hnext. by destruct (heap st0 !! next).
Qed.

End LoopFacts.

(** ** Invariants of the tab registry under every input *)

Module RegistrySpec.
Import App Obs Inv AppFacts LastTabSpec TabIdSpec TeardownSpec LoopFacts.

Lemma submseteq_NoDup {A} (l k : list A) : l ⊆+ k → NoDup k → NoDup l.
Proof.
  intros (k' & Hk)%submseteq_Permutation Hnd. rewrite Hk in Hnd.
  by apply NoDup_app in Hnd as [? _].
Qed.

Lemma wellFormed_init : wellFormed init.
Proof.
  repeat split; simpl; constructor.
Qed.

Lemma wellFormed_shrinks st st' : shrinks st st' → wellFormed st → wellFormed st'.
Proof.
  intros (Hids & Hseq & Hsub) (Hnd & Hval & Hsort & Hle).
  unfold wellFormed. rewrite Hids, Hseq.
  split; [by eapply submseteq_NoDup|].
  split; [|done].
  rewrite <- (length_heapIds st'), Hids, length_heapIds.
  rewrite Forall_forall in Hval |- *. intros r Hr.
  apply Hval. by eapply elem_of_submseteq.
Qed.

Lemma wellFormed_createTab st : wellFormed st → wellFormed (createTab st).
Proof.
  intros (Hnd & Hval & Hsort & Hle).
  destruct (createTab_spec st) as (Ht & Hids & Hseq & _).
  unfold wellFormed. rewrite Ht, Hids, Hseq, length_heap_createTab.
  split; [|split; [|split]].
  - apply NoDup_app. split; [done|]. split; [|apply NoDup_singleton].
    intros r Hr ->%list_elem_of_singleton.
    rewrite Forall_forall in Hval. specialize (Hval _ Hr). lia.
  - apply Forall_app. split; [|by repeat constructor; lia].
    eapply Forall_impl; [exact Hval|]. simpl. lia.
  - apply StronglySorted_snoc; [done|].
    eapply Forall_impl; [exact Hle|]. simpl. lia.
  - apply Forall_app. split; [|by repeat constructor; lia].
    eapply Forall_impl; [exact Hle|]. simpl. lia.
Qed.

Lemma shrinks_refl st : shrinks st st.
Proof. by repeat split. Qed.

Lemma shrinks_quiet st st' : quiet st st' → shrinks st st'.
Proof. intros (Ht & Hids & Hseq & _). unfold shrinks. by rewrite Ht. Qed.

Lemma shrinks_clearAllTabs st st0 :
  heapIds st0 = heapIds st → tabIdSeq st0 = tabIdSeq st →
  shrinks st (clearAllTabs st0).
Proof.
  intros Hids Hseq. destruct (clearAllTabs_spec st0) as (Ht & Hi & Hs & _).
  unfold shrinks. rewrite Ht, Hi, Hs. repeat split; try done.
  apply submseteq_nil_l.
Qed.

(** A turn of the loop removes tabs, reorders them, or removes some and
    appends one fresh tab. *)
Lemma step_shape st i :
  shrinks st (step st i) ∨ ∃ mid, shrinks st mid ∧ step st i = createTab mid.
Proof.
  destruct (step_cases st i)
    as [[Hq _]|[[state ->]|[->|[[-> Hw]|[[id ->]|[id ->]]]]]].
  - left. by apply shrinks_quiet.
  - simpl.
    destruct (notifyState_cases state st)
      as [[_ (st3 & Ht & Hh & Hseq & _ & _ & _ & _ & _ & _ & _ & ->)]
         |[[_ ->]|[[_ ->]|(_ & _ & ->)]]].
    + assert (Hs : shrinks st st3).
      { unfold shrinks, heapIds. by rewrite Ht, Hh, Hseq. }
      destruct (tabs st); [right; eauto | by left].
    + left. change (shrinks st (set_loginTimer true
                      (clearAllTabs (setStatus state st)))).
      destruct (clearAllTabs_spec (setStatus state st)) as (Ht & Hi & Hs & _).
      unfold shrinks, heapIds in *. simpl in *. rewrite Hi, Hs.
      repeat split; try done. apply submseteq_nil_l.
    + left. by apply shrinks_clearAllTabs.
    + left. by repeat split.
  - left. simpl. unfold notifyPanicRecover.
    by apply shrinks_clearAllTabs.
  - right. exists st. split; [apply shrinks_refl|]. simpl. by rewrite Hw.
  - simpl. destruct (getTab id st) as [r|] eqn:Hget.
    + destruct (closeTab_spec id st r Hget)
        as (i & st1 & Hi & Hr & Ht & Hids & Hseq & _ & _ & Hres).
      assert (Hs : shrinks st st1).
      { unfold shrinks. rewrite Ht. repeat split; try done.
        apply sublist_submseteq, sublist_delete. }
      destruct Hres as [(_ & _ & ->)|[(_ & _ & ->)|[(_ & _ & ->)|(_ & _ & Hres)]]];
        [right; eauto | by left | by left |].
      left. repeat case_match; rewrite Hres; done.
    + left. unfold closeTab. rewrite Hget. apply shrinks_refl.
  - left. simpl. destruct (onDrop_spec id st) as (Hp & Hh & Hseq & _).
    unfold shrinks, heapIds. rewrite Hh, Hseq. repeat split; try done.
    by apply Permutation_submseteq.
Qed.

Lemma wellFormed_step st i : wellFormed st → wellFormed (step st i).
Proof.
  intros Hwf. destruct (step_shape st i) as [Hs|(mid & Hs & ->)].
  - by eapply wellFormed_shrinks.
  - by eapply wellFormed_createTab, wellFormed_shrinks.
Qed.

Lemma wellFormed_run inputs st : wellFormed st → wellFormed (run inputs st).
Proof.
  revert st. induction inputs as [|i inputs IH]; intros st Hwf; simpl; [done|].
  by apply IH, wellFormed_step.
Qed.

Lemma elem_of_tabIds st id :
  id ∈ tabIds st ↔ ∃ r, r ∈ tabs st ∧ heapIds st !! r = Some id.
Proof. rewrite tabIds_heapIds. apply list_elem_of_omap. Qed.

Lemma heapIds_inj st r r' id :
  wellFormed st → heapIds st !! r = Some id → heapIds st !! r' = Some id → r = r'.
Proof.
  intros (_ & _ & Hsort & _). apply NoDup_lookup.
  apply (StronglySorted_NoDup N.lt); [intros x; lia | done].
Qed.

Lemma omap_lookup_total {A B} (f : A → option B) (l : list A) k :
  Forall (λ x, is_Some (f x)) l → omap f l !! k = l !! k ≫= f.
Proof.
  intros Hl. revert k. induction Hl as [|x l [y Hy] Hl IH]; intros k; [done|].
  cbn [omap list_omap]. rewrite Hy. destruct k as [|k]; simpl; [done|]. apply IH.
Qed.

Lemma omap_delete_total {A B} (f : A → option B) (l : list A) i :
  Forall (λ x, is_Some (f x)) l → omap f (delete i l) = delete i (omap f l).
Proof.
  intros Hl. revert i. induction Hl as [|x l [y Hy] Hl IH]; intros i; [done|].
  destruct i as [|i]; simpl; rewrite Hy; simpl; [done|].
  by rewrite IH.
Qed.

Lemma wellFormed_total st :
  wellFormed st → Forall (λ r, is_Some (heapIds st !! r)) (tabs st).
Proof.
  intros (_ & Hval & _). eapply Forall_impl; [exact Hval|]. simpl.
  intros r Hr. apply lookup_lt_is_Some. by rewrite length_heapIds.
Qed.

Lemma tabIds_lookup st k :
  wellFormed st → tabIds st !! k = tabs st !! k ≫= (heapIds st !!.).
Proof.
  intros Hwf. rewrite tabIds_heapIds.
  by apply omap_lookup_total, wellFormed_total.
Qed.

Lemma wellFormed_tabIds st :
  wellFormed st →
  NoDup (tabIds st) ∧ length (tabIds st) = length (tabs st) ∧
  Forall (λ id, (id ≤ tabIdSeq st)%N) (tabIds st).
Proof.
  intros Hwf. pose proof (wellFormed_total st Hwf) as Htot.
  destruct Hwf as (Hnd & _ & Hsort & Hle).
  assert (Hinj : ∀ r r' id,
    heapIds st !! r = Some id → heapIds st !! r' = Some id → r = r').
  { intros r r' id. apply NoDup_lookup.
    apply (StronglySorted_NoDup N.lt); [intros x; lia | done]. }
  rewrite tabIds_heapIds.
  induction Htot as [|r l [id Hid] Htot IH]; [by repeat constructor|].
  apply NoDup_cons in Hnd as [Hr Hnd]. destruct (IH Hnd) as (IH1 & IH2 & IH3).
  cbn [omap list_omap]. rewrite Hid. simpl.
  split; [|split; [by rewrite IH2|]].
  - constructor; [|done].
    intros (r' & Hr' & Hid')%list_elem_of_omap.
    by rewrite (Hinj _ _ _ Hid Hid') in Hr.
  - constructor; [|done].
    rewrite Forall_forall in Hle. apply Hle. by eapply list_elem_of_lookup_2.
Qed.

(** X12: whatever the inputs (state notifications, clicks, drags and
    drops, prompts, session callbacks), the [tabs] array never holds a tab
    object twice, every entry is an object that was created, no two tabs
    of the array share an id, and no id exceeds the counter [tabIdSeq]. *)
Theorem tabs_distinct_under_all_inputs (inputs : list Input) :
  let st := run inputs init in
  NoDup (tabs st) ∧ Forall (λ r, r < length (heap st)) (tabs st) ∧
  NoDup (tabIds st) ∧ length (tabIds st) = length (tabs st) ∧
  Forall (λ id, (id ≤ tabIdSeq st)%N) (tabIds st).
Proof.
  intros st.
  assert (Hwf : wellFormed st) by apply wellFormed_run, wellFormed_init.
  destruct (wellFormed_tabIds st Hwf) as (H1 & H2 & H3).
  destruct Hwf as (Hnd & Hval & _). done.
Qed.

(** *** The active tab *)

Lemma activeOk_same st st' :
  tabs st' ≡ₚ tabs st → heapIds st' = heapIds st →
  activeTabId st' = activeTabId st → activeOk st → activeOk st'.
Proof.
  intros Ht Hids Ha Hok Hne.
  destruct Hok as (id & Hid & Hin).
  { intros Hnil. rewrite Hnil in Ht. by apply Permutation_nil_r in Ht. }
  exists id. split; [by rewrite Ha|].
  apply elem_of_tabIds in Hin as (r & Hr & Hlk). apply elem_of_tabIds.
  exists r. by rewrite Ht, Hids.
Qed.

Lemma activeOk_createTab st : wellFormed st → activeOk (createTab st).
Proof.
  intros Hwf _. destruct (createTab_spec st) as (Ht & Hids & _ & _ & Ha).
  exists (tabIdSeq st + 1)%N. split; [done|].
  apply elem_of_tabIds. exists (length (heap st)). rewrite Ht, Hids. split.
  - apply elem_of_app. right. by apply list_elem_of_singleton.
  - rewrite <- (length_heapIds st). by rewrite list_lookup_middle.
Qed.

Lemma elem_of_delete_ne {A} (l : list A) i x y :
  l !! i = Some y → x ∈ l → x ≠ y → x ∈ delete i l.
Proof.
  intros Hi (k & Hk)%list_elem_of_lookup_1 Hne.
  destruct (decide (k < i)).
  - apply (list_elem_of_lookup_2 _ k). by rewrite list_lookup_delete_lt.
  - assert (k ≠ i) by (intros ->; congruence).
    apply (list_elem_of_lookup_2 _ (k - 1)).
    rewrite list_lookup_delete_ge by lia. by replace (S (k - 1)) with k by lia.
Qed.

Lemma activeOk_closeTab id st :
  wellFormed st → activeOk st → activeOk (closeTab id st).
Proof.
  intros Hwf Hok. destruct (getTab id st) as [r|] eqn:Hget;
    [|by unfold closeTab; rewrite Hget].
  destruct (closeTab_spec id st r Hget)
    as (i & st1 & Hi & Hr & Ht & Hids & Hseq & _ & Ha & Hres).
  assert (Hwf1 : wellFormed st1).
  { apply (wellFormed_shrinks st); [|done]. unfold shrinks. rewrite Ht.
    repeat split; try done. apply sublist_submseteq, sublist_delete. }
  apply findIndex_Some in Hi as (r' & Hr' & Hhas).
  assert (r' = r) as -> by congruence.
  rewrite hasId_heapIds in Hhas. apply bool_decide_eq_true in Hhas.
  destruct Hres as [(_ & _ & ->)|[(Hnil & _ & ->)|[(Hne & Hna & ->)|(Hne & Hact & Hres)]]].
  - by apply activeOk_createTab.
  - intros Hne. by rewrite Ht in Hne.
  - intros _. destruct Hok as (a & Hacta & Hin).
    { intros Hnil. by rewrite Hnil in Hr. }
    exists a. split; [by rewrite Ha|].
    apply elem_of_tabIds in Hin as (ra & Hra & Hlk). apply elem_of_tabIds.
    exists ra. rewrite Ht, Hids. split; [|done].
    eapply elem_of_delete_ne; [done..|].
    intros ->. congruence.
  - assert (Hlen : length (delete i (tabs st)) ≠ 0).
    { by destruct (delete i (tabs st)). }
    destruct (lookup_lt_is_Some_2 (delete i (tabs st))
                (Nat.min i (length (delete i (tabs st)) - 1))) as [next Hnext];
      [lia|].
    rewrite Hnext in Hres.
    assert (Hin : next ∈ tabs st1).
    { rewrite Ht. by eapply list_elem_of_lookup_2. }
    pose proof (wellFormed_total st1 Hwf1) as Htot.
    rewrite Forall_forall in Htot. destruct (Htot _ Hin) as [nid Hnid].
    rewrite Hids in Hnid. rewrite Hnid in Hres. rewrite Hres.
    intros _. exists nid. split; [done|].
    apply elem_of_tabIds. exists next. split; [done|].
    change (heapIds (activateTab nid st1)) with (heapIds st1). by rewrite Hids.
Qed.

Lemma activeOk_step st i :
  wellFormed st → activeOk st → (∀ id, i = TabClick id → id ∈ tabIds st) →
  activeOk (step st i).
Proof.
  intros Hwf Hok Hclick.
  destruct (step_cases st i)
    as [[Hq Ha]|[[state ->]|[->|[[-> Hw]|[[id ->]|[id ->]]]]]].
  - destruct Hq as (Ht & Hids & _). destruct Ha as [Ha|(id & -> & Ha)].
    + apply (activeOk_same st); [by rewrite Ht|done..].
    + intros _. exists id. split; [done|].
      specialize (Hclick id eq_refl).
      apply elem_of_tabIds in Hclick as (r & Hr & Hlk). apply elem_of_tabIds.
      exists r. by rewrite Ht, Hids.
  - simpl.
    destruct (notifyState_cases state st)
      as [[_ (st3 & Ht & Hh & Hseq & Ha & _ & _ & _ & _ & _ & _ & ->)]
         |[[_ ->]|[[_ ->]|(_ & _ & ->)]]].
    + assert (Hs : shrinks st st3).
      { unfold shrinks, heapIds. by rewrite Ht, Hh, Hseq. }
      destruct (tabs st) eqn:E.
      * by eapply activeOk_createTab, wellFormed_shrinks.
      * apply (activeOk_same st);
          [by rewrite Ht, E|by unfold heapIds; rewrite Hh|done..].
    + by intros Hne.
    + by intros Hne.
    + by apply (activeOk_same st).
  - by intros Hne.
  - simpl. rewrite Hw. by apply activeOk_createTab.
  - by apply activeOk_closeTab.
  - simpl. destruct (onDrop_spec id st) as (Hp & Hh & _ & _ & Ha).
    apply (activeOk_same st); [done|by unfold heapIds; rewrite Hh|done..].
Qed.

(** X13: as long as tabs are only clicked while they are in the array,
    whenever the array is not empty the active tab id is the id of one of
    its tabs: closing the active tab, reordering, a new tab and a teardown
    never leave the highlight on a tab that is gone. *)
Theorem active_tab_is_live (inputs : list Input) :
  clicksLive inputs init → activeOk (run inputs init).
Proof.
  assert (H : ∀ st, wellFormed st → activeOk st → clicksLive inputs st →
                    activeOk (run inputs st)).
  { induction inputs as [|i inputs IH]; intros st Hwf Hok Hcl; simpl; [done|].
    destruct Hcl as [Hi Hcl].
    apply IH; [by apply wellFormed_step | by apply activeOk_step | done]. }
  apply H; [apply wellFormed_init|].
  by intros Hne.
Qed.

Lemma active_tab_is_live_witness :
  activeOk (run [NotifyState "Running"; NewTabClick; TabClick 2%N;
                 DragStart 2%N; Drop 1%N; TabCloseClick 2%N] init).
Proof.
  apply active_tab_is_live. cbn [clicksLive].
  repeat split; intros id [=]. subst id.
  apply elem_of_tabIds. exists 1. split; vm_compute.
  - apply list_elem_of_further, list_elem_of_here.
  - reflexivity.
Defined.

(** *** Closing tabs *)

Lemma findIndex_unique {A} (p : A → bool) (l : list A) i x :
  l !! i = Some x → p x = true → (∀ j y, l !! j = Some y → p y = true → j = i) →
  findIndex p l = Some i.
Proof.
  intros Hi Hp Huniq.
  destruct (findIndex p l) as [j|] eqn:Hj.
  - apply findIndex_Some in Hj as (y & Hy & Hpy). f_equal. by eapply Huniq.
  - exfalso. revert i Hi Huniq Hj. induction l as [|z l IH]; intros i Hi Huniq; [done|].
    simpl. destruct (p z) eqn:Hz; [done|].
    destruct (findIndex p l) eqn:E; [done|]. intros _.
    destruct i as [|i]; simpl in Hi; [congruence|].
    eapply (IH i); [done| |done].
    intros j y Hj' Hy. specialize (Huniq (S j) y Hj' Hy). lia.
Qed.

Lemma tabIds_findIndex st i id :
  wellFormed st → tabIds st !! i = Some id →
  ∃ r, tabs st !! i = Some r ∧ heapIds st !! r = Some id ∧
       findIndex (hasId st id) (tabs st) = Some i ∧ getTab id st = Some r.
Proof.
  intros Hwf Hi. rewrite tabIds_lookup in Hi by done.
  destruct (tabs st !! i) as [r|] eqn:Hr; [|done]. simpl in Hi.
  exists r. split; [done|]. split; [done|].
  assert (Hidx : findIndex (hasId st id) (tabs st) = Some i).
  { apply (findIndex_unique _ _ _ r); [done|..].
    - rewrite hasId_heapIds. by apply bool_decide_eq_true.
    - intros j y Hj Hy. rewrite hasId_heapIds in Hy.
      apply bool_decide_eq_true in Hy.
      rewrite (heapIds_inj st y r id Hwf Hy Hi) in Hj.
      destruct Hwf as (Hnd & _). by eapply NoDup_lookup. }
  split; [done|]. apply getTab_findIndex. eauto.
Qed.

Lemma tabIds_delete st st1 i :
  wellFormed st → tabs st1 = delete i (tabs st) → heapIds st1 = heapIds st →
  tabIds st1 = delete i (tabIds st).
Proof.
  intros Hwf Ht Hids. rewrite !tabIds_heapIds, Ht, Hids.
  by apply omap_delete_total, wellFormed_total.
Qed.

(** X14: closing the active tab while other tabs remain removes only
    that tab and activates the tab that stood to its right, or the tab to
    its left when it was the last one of the bar. *)
Theorem closeTab_activates_neighbour (inputs : list Input) (id : N) (i : nat) :
  let st := run inputs init in
  tabIds st !! i = Some id → activeTabId st = Some id → 2 ≤ length (tabIds st) →
  tabIds (closeTab id st) = delete i (tabIds st) ∧
  activeTabId (closeTab id st) =
    tabIds st !! (if S i <? length (tabIds st) then S i else i - 1) ∧
  is_Some (activeTabId (closeTab id st)).
Proof.
  intros st Hi Hact Hlen.
  assert (Hwf : wellFormed st) by apply wellFormed_run, wellFormed_init.
  destruct (wellFormed_tabIds st Hwf) as (_ & Hl & _).
  destruct (tabIds_findIndex st i id Hwf Hi) as (r & Hr & Hid & Hidx & Hget).
  destruct (closeTab_spec id st r Hget)
    as (i' & st1 & Hi' & _ & Ht & Hids & _ & _ & _ & Hres).
  assert (i' = i) as -> by congruence.
  pose proof (lookup_lt_Some _ _ _ Hr) as Hlt.
  assert (Hdl : length (delete i (tabs st)) = length (tabs st) - 1).
  { rewrite length_delete; [done|eauto]. }
  assert (Hne : delete i (tabs st) ≠ []).
  { intros Hnil. rewrite Hnil in Hdl. simpl in Hdl. lia. }
  destruct Hres as [(? & _)|[(? & _)|[(_ & ? & _)|(_ & _ & Hres)]]]; try done.
  set (k := if S i <? length (tabIds st) then S i else i - 1).
  assert (Hk : delete i (tabs st) !! Nat.min i (length (delete i (tabs st)) - 1)
               = tabs st !! k).
  { unfold k. rewrite Hdl, Hl. destruct (Nat.ltb_spec (S i) (length (tabs st))).
    - rewrite Nat.min_l by lia. rewrite list_lookup_delete_ge by lia. done.
    - rewrite Nat.min_r by lia. replace (length (tabs st) - 1 - 1) with (i - 1) by lia.
      rewrite list_lookup_delete_lt by lia. done. }
  rewrite Hk in Hres.
  assert (Hklt : k < length (tabs st)).
  { unfold k. rewrite Hl. destruct (Nat.ltb_spec (S i) (length (tabs st))); lia. }
  destruct (lookup_lt_is_Some_2 _ _ Hklt) as [next Hnext]. rewrite Hnext in Hres.
  pose proof (wellFormed_total st Hwf) as Htot. rewrite Forall_forall in Htot.
  destruct (Htot next) as [nid Hnid]; [by eapply list_elem_of_lookup_2|].
  rewrite Hnid in Hres. rewrite Hres.
  split; [by apply (tabIds_delete st st1)|].
  rewrite tabIds_lookup, Hnext by done. simpl. rewrite Hnid. split; [done|eauto].
Qed.

Lemma closeTab_activates_neighbour_witness :
  let inputs := [NotifyState "Running"; NewTabClick; NewTabClick; TabClick 2%N] in
  tabIds (closeTab 2 (run inputs init)) = [1%N; 3%N] ∧
  activeTabId (closeTab 2 (run inputs init)) = Some 3%N.
Proof.
  destruct (closeTab_activates_neighbour
              [NotifyState "Running"; NewTabClick; NewTabClick; TabClick 2%N]
              2%N 1 eq_refl eq_refl) as (H1 & H2 & _).
  - vm_compute. lia.
  - split; [exact H1 | exact H2].
Defined.

Lemma getTab_None st id : getTab id st = None ↔ id ∉ tabIds st.
Proof.
  unfold getTab. rewrite elem_of_tabIds. split.
  - intros Hnone (r & Hr & Hid).
    apply list_elem_of_In in Hr.
    pose proof (List.find_none _ _ Hnone r Hr) as Hf.
    rewrite hasId_heapIds in Hf. by apply bool_decide_eq_false in Hf.
  - intros Hno. destruct (List.find _ _) as [r|] eqn:Hf; [|done].
    apply List.find_some in Hf as [Hr Hp]. exfalso. apply Hno. exists r.
    split; [by apply list_elem_of_In|].
    rewrite hasId_heapIds in Hp. by apply bool_decide_eq_true in Hp.
Qed.

Lemma retired_shrinks id st st' : shrinks st st' → retired id st → retired id st'.
Proof.
  intros (Hids & Hseq & Hsub) [Hle Hno]. split; [by rewrite Hseq|].
  rewrite elem_of_tabIds. intros (r & Hr & Hid). apply Hno, elem_of_tabIds.
  exists r. rewrite <- Hids. split; [by eapply elem_of_submseteq | done].
Qed.

Lemma retired_createTab id st : wellFormed st → retired id st → retired id (createTab st).
Proof.
  intros Hwf [Hle Hno]. destruct (createTab_spec st) as (Ht & Hids & Hseq & _).
  split; [rewrite Hseq; lia|].
  rewrite elem_of_tabIds, Ht, Hids. intros (r & Hr & Hid).
  apply elem_of_app in Hr as [Hr| ->%list_elem_of_singleton].
  - apply Hno, elem_of_tabIds. exists r. split; [done|].
    destruct Hwf as (_ & Hval & _). rewrite Forall_forall in Hval.
    rewrite lookup_app_l in Hid; [done|]. rewrite length_heapIds. by apply Hval.
  - rewrite <- (length_heapIds st), list_lookup_middle in Hid by done.
    injection Hid as <-. lia.
Qed.

Lemma retired_step id st i : wellFormed st → retired id st → retired id (step st i).
Proof.
  intros Hwf Hre. destruct (step_shape st i) as [Hs|(mid & Hs & ->)].
  - by eapply retired_shrinks.
  - apply retired_createTab; [by eapply wellFormed_shrinks|by eapply retired_shrinks].
Qed.

Lemma retired_run id inputs st :
  wellFormed st → retired id st → retired id (run inputs st).
Proof.
  revert st. induction inputs as [|i inputs IH]; intros st Hwf Hre; simpl; [done|].
  apply IH; [by apply wellFormed_step | by apply retired_step].
Qed.

Lemma retired_closeTab id st :
  wellFormed st → (id ≤ tabIdSeq st)%N → retired id (closeTab id st).
Proof.
  intros Hwf Hle. destruct (getTab id st) as [r|] eqn:Hget.
  2:{ unfold closeTab. rewrite Hget. split; [done|]. by apply getTab_None. }
  destruct (closeTab_spec id st r Hget)
    as (i & st1 & Hi & Hr & Ht & Hids & Hseq & _ & _ & Hres).
  assert (Hs : shrinks st st1).
  { unfold shrinks. rewrite Ht. repeat split; try done.
    apply sublist_submseteq, sublist_delete. }
  assert (Hre : retired id st1).
  { split; [by rewrite Hseq|]. rewrite elem_of_tabIds, Ht, Hids.
    intros (r' & Hr' & Hid').
    apply findIndex_Some in Hi as (r0 & Hr0 & Hhas).
    assert (r0 = r) as -> by congruence.
    rewrite hasId_heapIds in Hhas. apply bool_decide_eq_true in Hhas.
    rewrite (heapIds_inj st r' r id Hwf Hid' Hhas) in Hr'.
    destruct Hwf as (Hnd & _).
    apply list_elem_of_lookup_1 in Hr' as (k & Hk).
    destruct (decide (k < i)).
    - rewrite list_lookup_delete_lt in Hk by done.
      pose proof (NoDup_lookup _ _ _ _ Hnd Hk Hr). lia.
    - rewrite list_lookup_delete_ge in Hk by lia.
      pose proof (NoDup_lookup _ _ _ _ Hnd Hk Hr). lia. }
  destruct Hres as [(_ & _ & ->)|[(_ & _ & ->)|[(_ & _ & ->)|(_ & _ & Hres)]]];
    try done.
  - apply retired_createTab; [by eapply wellFormed_shrinks | done].
  - repeat case_match; rewrite Hres; done.
Qed.

(** X15: a tab id is never reused.  Once a tab that was created is closed,
    its id is in the array under no later inputs, so a second click on its
    close button closes nothing, not even the tab that replaced it. *)
Theorem closed_tab_id_never_returns (inputs more : list Input) (id : N) :
  let st := run inputs init in
  (id ≤ tabIdSeq st)%N →
  (let st' := run more (closeTab id st) in
   getTab id st' = None ∧ closeTab id st' = st' ∧ id ∉ tabIds st').
Proof.
  intros st Hle st'.
  assert (Hwf : wellFormed st) by apply wellFormed_run, wellFormed_init.
  assert (Hre : retired id st').
  { apply retired_run; [|by apply retired_closeTab].
    change (closeTab id st) with (step st (TabCloseClick id)).
    by apply wellFormed_step. }
  destruct Hre as [_ Hno].
  apply getTab_None in Hno as Hget. split; [done|]. split; [|done].
  unfold closeTab. by rewrite Hget.
Qed.

Lemma closed_tab_id_never_returns_witness :
  let st := run [NotifyState "Running"] init in
  let st' := run [NewTabClick; NewTabClick] (closeTab 1 st) in
  tabIds st' = [2%N; 3%N; 4%N] ∧ closeTab 1 st' = st'.
Proof.
  destruct (closed_tab_id_never_returns [NotifyState "Running"]
              [NewTabClick; NewTabClick] 1%N) as (_ & H & _).
  - vm_compute. discriminate.
  - split; [reflexivity | exact H].
Defined.

(** *** Tabs and the connectivity state *)

Lemma shown_step st i :
  linked st → shown st → i ≠ NotifyPanicRecover → shown (step st i).
Proof.
  intros Hl Hsh Hi.
  destruct (step_cases st i)
    as [[Hq _]|[[state ->]|[->|[[-> Hw]|[[id ->]|[id ->]]]]]]; try done.
  - destruct Hq as (Ht & _ & _ & Hc & _). unfold shown.
    by rewrite Ht, (coord_status _ _ Hc).
  - simpl.
    destruct (notifyState_cases state st)
      as [[_ (st3 & Ht & _ & _ & _ & _ & _ & _ & _ & _ & _ & ->)]
         |[[Hs ->]|[[Hs ->]|(_ & Hs & ->)]]].
    + intros _. destruct (tabs st) eqn:E.
      * rewrite tabs_createTab. by destruct (tabs st3).
      * by rewrite Ht.
    + intros Hrun. exfalso.
      change (status (scheduleLogin (clearAllTabs (setStatus state st))))
        with (status (clearAllTabs (setStatus state st))) in Hrun.
      destruct (clearAllTabs_spec (setStatus state st)) as (_ & _ & _ & Hc & _).
      rewrite (coord_status _ _ Hc) in Hrun. simpl in Hrun.
      destruct Hs; congruence.
    + intros Hrun. exfalso.
      destruct (clearAllTabs_spec (setStatus state st)) as (_ & _ & _ & Hc & _).
      rewrite (coord_status _ _ Hc) in Hrun. simpl in Hrun. congruence.
    + intros Hrun. by simpl in Hrun.
  - simpl. rewrite Hw. intros _. rewrite tabs_createTab. by destruct (tabs st).
  - simpl. destruct (getTab id st) as [r|] eqn:Hget;
      [|by unfold closeTab; rewrite Hget].
    destruct (closeTab_spec id st r Hget)
      as (i & st1 & _ & Hr & Ht & _ & _ & Hc & _ & Hres).
    assert (Hipn : status st = "Running" → globalIpn st = true) by apply Hl.
    assert (Hst : ∀ st2, coord st2 = coord st1 → tabs st2 ≠ [] → shown st2).
    { by intros st2 _ Hne _. }
    destruct Hres as [(_ & _ & ->)|[(Hnil & Hg & ->)|[(Hne & _ & ->)|(Hne & _ & Hres)]]].
    + intros _. rewrite tabs_createTab. by destruct (tabs st1).
    + intros Hrun. rewrite (coord_status _ _ Hc) in Hrun.
      rewrite Hipn in Hg; done.
    + intros _. by rewrite Ht.
    + assert (Hne1 : tabs st1 ≠ []) by by rewrite Ht.
      repeat case_match; rewrite Hres; by intros _.
  - simpl. destruct (onDrop_spec id st) as (Hp & _ & _ & Hc & _).
    intros Hrun. rewrite (coord_status _ _ Hc) in Hrun.
    specialize (Hsh Hrun). intros Hnil. rewrite Hnil in Hp.
    by apply Permutation_nil_l in Hp.
Qed.

(** X16: as long as the node does not report a panic, the page never
    shows the state Running with an empty tab bar: the first Running opens
    a tab, and closing the last tab while Running opens a new one. *)
Theorem running_has_a_tab (inputs : list Input) :
  NotifyPanicRecover ∉ inputs →
  (let st := run inputs init in
   status st = "Running" → tabs st ≠ []).
Proof.
  intros Hno st.
  assert (H : ∀ st0, linked st0 → shown st0 →
                     linked (run inputs st0) ∧ shown (run inputs st0)).
  { induction inputs as [|i inputs IH]; intros st0 Hl Hsh; simpl; [done|].
    apply IH.
    - intros Hin. apply Hno. by apply list_elem_of_further.
    - by apply linked_step.
    - apply shown_step; [done..|]. intros ->. apply Hno, list_elem_of_here. }
  apply H; [apply linked_init|]. intros Hrun. by simpl in Hrun.
Qed.

Lemma running_has_a_tab_witness :
  let inputs := [NotifyState "Running"; TabCloseClick 1%N] in
  status (run inputs init) = "Running" ∧ tabIds (run inputs init) = [2%N] ∧
  tabs (run inputs init) ≠ [].
Proof.
  split; [reflexivity|]. split; [reflexivity|].
  apply (running_has_a_tab [NotifyState "Running"; TabCloseClick 1%N]).
  - intros Hin. apply elem_of_cons in Hin as [Hin|Hin]; [discriminate|].
    apply elem_of_cons in Hin as [Hin|Hin]; [discriminate|].
    by apply elem_of_nil in Hin.
  - reflexivity.
Defined.

(** After a panic the state shown is still the last one notified: a panic
    while Running leaves Running with no tab at all. *)
Lemma panic_leaves_running_blank st :
  status st = "Running" →
  status (step st NotifyPanicRecover) = "Running" ∧
  tabs (step st NotifyPanicRecover) = [].
Proof.
  intros Hrun. destruct (clearAllTabs_spec st) as (Ht & _ & _ & Hc & _).
  split; [|done].
  change (status (clearAllTabs st) = "Running").
  by rewrite (coord_status _ _ Hc).
Qed.

End RegistrySpec.

(** ** Connectivity notifications *)

Module ConnectivitySpec.
Import App Obs Inv AppFacts LastTabSpec TeardownSpec OrderSyncSpec LoopFacts.

Lemma clearAllTabs_teardown st :
  let st' := clearAllTabs st in
  tabs st' = [] ∧ activeTabId st' = None ∧ heapIds st' = heapIds st ∧
  (registryOk st → tabList st' = []) ∧
  (∀ r, r ∈ tabs st → r < length (heap st) →
        heapSessions st' !! r = Some None) ∧
  (∀ r sid, r ∈ tabs st → heapSessions st !! r = Some (Some sid) →
            is_Some (sessions st !! sid) → closedAt st' sid).
Proof.
  intros st'. destruct (clearAllTabs_spec st) as (Ht & Hids & _ & _ & Ha).
  split; [done|]. split; [done|]. split; [done|]. split; [|split].
  - intros Hok. apply registryOk_clearAllTabs in Hok as (Hsync & _).
    fold st' in Hsync. by rewrite Hsync.
  - intros r Hr Hlt.
    change (heapSessions st') with (heapSessions (fold_left destroyTab (tabs st) st)).
    by apply heapSessions_fold_destroyTab.
  - intros r sid Hr Hs Hsome. rewrite heapSessions_lookup in Hs.
    destruct (heap st !! r) as [t|] eqn:Hh; [|done]. injection Hs as Hs.
    destruct (fold_destroyTab_closes (tabs st) st r t sid Hr Hh Hs)
      as (pre & post & _ & _ & Hcl).
    apply (Hcl Hsome).
Qed.

(** X17: a panic and each of the notifications NeedsLogin,
    NeedsMachineAuth and Stopped empty the array and the tab bar, leave no
    tab active, close the session of every tab that was in the array and
    clear its session field; no tab object is created or renumbered. *)
Theorem teardown_clears_workspace (st : State) (i : Input) :
  isTeardown i →
  let st' := step st i in
  tabs st' = [] ∧ activeTabId st' = None ∧ heapIds st' = heapIds st ∧
  (registryOk st → tabList st' = []) ∧
  (∀ r, r ∈ tabs st → r < length (heap st) →
        heapSessions st' !! r = Some None) ∧
  (∀ r sid, r ∈ tabs st → heapSessions st !! r = Some (Some sid) →
            is_Some (sessions st !! sid) → closedAt st' sid).
Proof.
  intros [->|(state & -> & Htd)].
  - apply clearAllTabs_teardown.
  - simpl.
    destruct (notifyState_cases state st)
      as [[-> _]|[[_ ->]|[[_ ->]|(Hn & _)]]]; [|..|done].
    + destruct Htd as [?|[?|?]]; discriminate.
    + apply (clearAllTabs_teardown (setStatus state st)).
    + apply (clearAllTabs_teardown (setStatus state st)).
Qed.

Lemma teardown_clears_workspace_witness :
  let st := connected in
  let st' := step st (NotifyState "Stopped") in
  isTeardown (NotifyState "Stopped") ∧ tabs st = [0] ∧
  heapSessions st !! 0 = Some (Some 0) ∧
  tabs st' = [] ∧ tabList st' = [] ∧ heapSessions st' !! 0 = Some None ∧
  closedAt st' 0.
Proof.
  assert (Htd : isTeardown (NotifyState "Stopped")).
  { right. exists "Stopped". split; [done|]. right. by right. }
  destruct (teardown_clears_workspace connected _ Htd)
    as (H1 & _ & _ & H4 & H5 & H6).
  split; [done|]. split; [reflexivity|]. split; [reflexivity|].
  split; [exact H1|]. split; [|split].
  - apply H4. vm_compute. repeat split; repeat constructor; set_solver.
  - apply H5; [apply list_elem_of_here | vm_compute; lia].
  - apply (H6 0 0); [apply list_elem_of_here | reflexivity | vm_compute; eauto].
Defined.

Lemma notifyState_Running_fixed st :
  status st = "Running" → loginTimer st = false → ipnEverRan st = true →
  buttonsWired st = true → tabs st ≠ [] → notifyState "Running" st = st.
Proof.
  destruct st. simpl. intros -> -> -> -> Hne. unfold notifyState. simpl.
  by destruct tabs0.
Qed.

Lemma notifyState_Running_fields st :
  let st' := notifyState "Running" st in
  status st' = "Running" ∧ loginTimer st' = false ∧ ipnEverRan st' = true ∧
  buttonsWired st' = true ∧ length (tabs st') = Nat.max 1 (length (tabs st)).
Proof.
  unfold notifyState. cbv zeta.
  change (String.eqb "Running" "Running") with true. cbv iota.
  change (buttonsWired (set_ipnEverRan true
            (set_loginTimer false (setStatus "Running" st))))
    with (buttonsWired st).
  destruct (buttonsWired st) eqn:Hw.
  - change (tabs (set_ipnEverRan true
              (set_loginTimer false (setStatus "Running" st)))) with (tabs st).
    destruct (tabs st) eqn:Ht.
    + rewrite createTab_nf. simpl. by rewrite Ht.
    + simpl. rewrite Ht. repeat split; try done; simpl; lia.
  - change (tabs (set_globalIpn true (set_buttonsWired true (set_ipnEverRan true
              (set_loginTimer false (setStatus "Running" st)))))) with (tabs st).
    destruct (tabs st) eqn:Ht.
    + rewrite createTab_nf. simpl. by rewrite Ht.
    + simpl. rewrite Ht. repeat split; try done; simpl; lia.
Qed.

(** X18: a Running notification that follows a Running notification
    changes nothing: the buttons are wired once and no second tab is
    opened.  A tab is opened only when the array is empty. *)
Theorem running_notification_idempotent (st : State) :
  let st' := notifyState "Running" st in
  notifyState "Running" st' = st' ∧
  length (tabs st') = Nat.max 1 (length (tabs st)) ∧
  status st' = "Running" ∧ buttonsWired st' = true ∧ loginTimer st' = false.
Proof.
  intros st'.
  destruct (notifyState_Running_fields st) as (H1 & H2 & H3 & H4 & H5).
  fold st' in H1, H2, H3, H4, H5. split; [|done].
  apply notifyState_Running_fixed; try done.
  intros Hnil. rewrite Hnil in H5. simpl in H5. lia.
Qed.

(** *** The deferred login *)

Lemma filter_isLogin_app l k :
  length (List.filter isLogin (l ++ k)) =
  length (List.filter isLogin l) + length (List.filter isLogin k).
Proof. by rewrite List.filter_app, length_app. Qed.

Lemma logins_closeSessionOf r st : logins (closeSessionOf r st) = logins st.
Proof.
  unfold logins. rewrite trace_closeSessionOf, filter_isLogin_app.
  unfold closeEvents. repeat case_match; simpl; lia.
Qed.

Lemma logins_fold_destroyTab l st : logins (fold_left destroyTab l st) = logins st.
Proof.
  revert st. induction l as [|r l IH]; intros st; simpl; [done|].
  rewrite IH. unfold logins. rewrite trace_destroyTab, !filter_isLogin_app.
  unfold closeEvents. repeat case_match; simpl; lia.
Qed.

Lemma logins_clearAllTabs st : logins (clearAllTabs st) = logins st.
Proof.
  unfold logins.
  change (trace (clearAllTabs st))
    with (trace (fold_left destroyTab (tabs st) st) ++ [TabsClear]).
  rewrite filter_isLogin_app. simpl.
  fold (logins (fold_left destroyTab (tabs st) st)).
  rewrite logins_fold_destroyTab. unfold logins. lia.
Qed.

Lemma logins_createTab st : logins (createTab st) = logins st.
Proof.
  unfold logins. rewrite trace_createTab, filter_isLogin_app. simpl. lia.
Qed.

Lemma needsAuth_step state st :
  needsAuth state →
  logins (step st (NotifyState state)) = logins st ∧
  loginTimer (step st (NotifyState state)) = true.
Proof.
  intros Hs. simpl.
  destruct (notifyState_cases state st)
    as [[-> _]|[[_ ->]|[[-> _]|(Hn & _)]]].
  - destruct Hs; discriminate.
  - split; [|done].
    change (logins (scheduleLogin (clearAllTabs (setStatus state st))))
      with (logins (clearAllTabs (setStatus state st))).
    by rewrite logins_clearAllTabs.
  - destruct Hs; discriminate.
  - exfalso. apply Hn. destruct Hs; [by left | by right; left].
Qed.

Lemma needsAuth_burst state n st :
  needsAuth state →
  logins (run (replicate (S n) (NotifyState state)) st) = logins st ∧
  loginTimer (run (replicate (S n) (NotifyState state)) st) = true.
Proof.
  intros Hs. revert st. induction n as [|n IH]; intros st.
  - by apply needsAuth_step.
  - change (run (replicate (S (S n)) (NotifyState state)) st)
      with (run (replicate (S n) (NotifyState state)) (step st (NotifyState state))).
    destruct (IH (step st (NotifyState state))) as [-> ->].
    split; [|done]. by apply needsAuth_step.
Qed.

Lemma timer_idle k st :
  loginTimer st = false → run (replicate k LoginTimerFires) st = st.
Proof.
  intros H. induction k as [|k IH]; [done|]. simpl. by rewrite H.
Qed.

Lemma run_app l k st : run (l ++ k) st = run k (run l st).
Proof. apply fold_left_app. Qed.

(** X19: the login is deferred and debounced.  However many times in a
    row the node reports that it needs a login, [ipn.login()] is called
    once, when the timer fires, and not again by further firings; if
    Running arrives first, it is not called at all. *)
Theorem login_debounced (state : string) (n k : nat) (st : State) :
  needsAuth state →
  let burst := replicate (S n) (NotifyState state) in
  logins (run burst st) = logins st ∧
  logins (run (burst ++ replicate (S k) LoginTimerFires) st) = S (logins st) ∧
  logins (run (burst ++ NotifyState "Running" :: replicate k LoginTimerFires) st)
    = logins st.
Proof.
  intros Hs burst.
  destruct (needsAuth_burst state n st Hs) as [Hl Ht]. fold burst in Hl, Ht.
  split; [done|]. rewrite !run_app. split.
  - change (run (replicate (S k) LoginTimerFires) (run burst st))
      with (run (replicate k LoginTimerFires) (step (run burst st) LoginTimerFires)).
    assert (Hstep : step (run burst st) LoginTimerFires =
                    emit IpnLogin (set_loginTimer false (run burst st))).
    { unfold step. by rewrite Ht. }
    rewrite Hstep, timer_idle by done. unfold logins in *.
    change (trace (emit IpnLogin (set_loginTimer false (run burst st))))
      with (trace (run burst st) ++ [IpnLogin]).
    rewrite filter_isLogin_app, Hl.
    change (length (List.filter isLogin [IpnLogin])) with 1. lia.
  - change (run (NotifyState "Running" :: replicate k LoginTimerFires) (run burst st))
      with (run (replicate k LoginTimerFires)
              (notifyState "Running" (run burst st))).
    destruct (notifyState_Running_fields (run burst st)) as (_ & Hoff & _).
    rewrite timer_idle by done.
    destruct (notifyState_cases "Running" (run burst st))
      as [[_ (st3 & _ & _ & _ & _ & Htr & _ & _ & _ & _ & _ & ->)]
         |[[[?|?] _]|[[? _]|(_ & ? & _)]]]; try done.
    assert (H3 : logins st3 = logins st) by (unfold logins in *; by rewrite Htr).
    destruct (tabs (run burst st)); [by rewrite logins_createTab|done].
Qed.

Lemma login_debounced_witness :
  logins (run [NotifyState "NeedsLogin"; NotifyState "NeedsLogin";
               NotifyState "NeedsLogin"; LoginTimerFires; LoginTimerFires] init) = 1 ∧
  logins (run [NotifyState "NeedsLogin"; NotifyState "NeedsLogin";
               NotifyState "NeedsLogin"; NotifyState "Running";
               LoginTimerFires] init) = 0.
Proof.
  destruct (login_debounced "NeedsLogin" 2 1 init) as (_ & H1 & H2); [by left|].
  split; [exact H1 | exact H2].
Defined.

End ConnectivitySpec.

(** ** The tab bar and the array hold the same tabs *)

Module BarSpec.
Import App Obs Inv AppFacts LastTabSpec TeardownSpec OrderSyncSpec LoopFacts
  RegistrySpec.

Lemma removeNode_Permutation x (l k : list nat) :
  l ≡ₚ k → removeNode x l ≡ₚ removeNode x k.
Proof.
  unfold removeNode.
  induction 1 as [|y l k _ IH|y z l|l k m _ IH1 _ IH2]; simpl.
  - done.
  - destruct (negb (y =? x)); [by constructor | done].
  - destruct (negb (y =? x)), (negb (z =? x)); try done. apply perm_swap.
  - by etransitivity.
Qed.

Lemma removeNode_cons x (l : list nat) :
  NoDup l → x ∈ l → l ≡ₚ x :: removeNode x l.
Proof.
  intros Hnd (i & Hi)%list_elem_of_lookup_1.
  rewrite (removeNode_delete x l i Hnd Hi). by apply delete_Permutation.
Qed.

Lemma insertBefore_Permutation a b (l c : list nat) :
  NoDup l → a ∈ l → insertBefore a b l = Some c → c ≡ₚ l.
Proof.
  intros Hnd Ha. unfold insertBefore.
  destruct (negb (existsb (Nat.eqb b) l)); [done|].
  destruct (a =? b); [by intros [= <-]|]. cbv zeta.
  destruct (findIndex _ _) as [i|]; [|done]. intros [= <-].
  rewrite insertAt_perm. symmetry. by apply removeNode_cons.
Qed.

Lemma sameTabs_createTab st : sameTabs st → sameTabs (createTab st).
Proof.
  unfold sameTabs. intros H. by rewrite tabs_createTab, tabList_createTab, H.
Qed.

Lemma sameTabs_clearAllTabs st : sameTabs st → sameTabs (clearAllTabs st).
Proof.
  unfold sameTabs. intros H.
  change (tabs (clearAllTabs st)) with (@nil nat).
  change (tabList (clearAllTabs st))
    with (tabList (fold_left destroyTab (tabs st) st)).
  rewrite tabList_fold_destroyTab, fold_removeNode_all; [done|].
  intros x Hx. by rewrite <- H.
Qed.

Lemma sameTabs_closeTab id st :
  NoDup (tabs st) → sameTabs st → sameTabs (closeTab id st).
Proof.
  intros Hnd Hsame. destruct (getTab id st) as [r|] eqn:Hget.
  2:{ unfold closeTab. by rewrite Hget. }
  rewrite (closeTab_unfold id st r Hget). cbv zeta.
  set (st0 := closeSessionOf r st).
  set (idx := findIndex (hasId st0 id) (tabs st0)).
  set (st1 := emit (TabsSplice r) _).
  assert (Ht0 : tabs st0 = tabs st).
  { apply skeleton_tabs, skeleton_closeSessionOf. }
  assert (Hl0 : tabList st0 = tabList st).
  { apply skeleton_tabList, skeleton_closeSessionOf. }
  apply getTab_findIndex in Hget as (i & Hi & Hri).
  assert (Hidx : idx = Some i).
  { unfold idx. rewrite Ht0, <- Hi. apply findIndex_ext.
    apply hasId_ext, heapIds_closeSessionOf. }
  assert (Hok1 : sameTabs st1).
  { unfold sameTabs.
    change (tabList st1) with (removeNode r (tabList st0)).
    change (tabs st1) with (spliceOut idx (tabs st0)).
    rewrite Hidx, Ht0, Hl0. simpl.
    rewrite <- (removeNode_delete r (tabs st) i Hnd Hri).
    by apply removeNode_Permutation. }
  repeat case_match; try done.
  by apply sameTabs_createTab.
Qed.

Lemma sameTabs_onDrop id st :
  NoDup (tabs st) → sameTabs st → sameTabs (onDrop id st).
Proof.
  unfold sameTabs. intros Hnd Hsame. unfold onDrop.
  destruct (dragSrcId st) as [src|]; [|done].
  destruct (N.eqb src id); [done|].
  destruct (findIndex (hasId st src) (tabs st)) as [i|] eqn:Hi; [|done].
  destruct (findIndex (hasId st id) (tabs st)) as [j|] eqn:Hj; [|done].
  destruct (tabs st !! i) as [a|] eqn:Ha; [|done].
  destruct (tabs st !! j) as [b|] eqn:Hb; [|done].
  cbv zeta.
  change (tabList (set_tabs ?v st)) with (tabList st).
  assert (Hperm : insertAt j a (delete i (tabs st)) ≡ₚ tabs st).
  { rewrite insertAt_perm. symmetry. by apply delete_Permutation. }
  destruct (insertBefore a b (tabList st)) as [c|] eqn:Hc; simpl.
  - rewrite Hperm, <- Hsame. apply (insertBefore_Permutation a b); [..|done].
    + by rewrite Hsame.
    + rewrite Hsame. by eapply list_elem_of_lookup_2.
  - by rewrite Hperm.
Qed.

Lemma sameTabs_step st i : wellFormed st → sameTabs st → sameTabs (step st i).
Proof.
  intros Hwf Hsame. pose proof Hwf as (Hnd & _).
  destruct (step_cases st i)
    as [[Hq _]|[[state ->]|[->|[[-> Hw]|[[id ->]|[id ->]]]]]].
  - destruct Hq as (Ht & _ & _ & _ & Hl). unfold sameTabs. by rewrite Ht, Hl.
  - simpl. assert (Hst : sameTabs (setStatus state st)) by done.
    unfold notifyState. cbv zeta.
    destruct (String.eqb state "Running").
    { set (st3 := if buttonsWired _ then _ else _).
      assert (Hok3 : sameTabs st3) by (unfold st3; by case_match).
      destruct (tabs st3); [by apply sameTabs_createTab | exact Hok3]. }
    destruct (String.eqb state "NeedsLogin" || String.eqb state "NeedsMachineAuth").
    { by apply (sameTabs_clearAllTabs (setStatus state st)). }
    destruct (String.eqb state "Stopped"); [|done].
    by apply (sameTabs_clearAllTabs (setStatus state st)).
  - by apply sameTabs_clearAllTabs.
  - simpl. rewrite Hw. by apply sameTabs_createTab.
  - by apply sameTabs_closeTab.
  - by apply sameTabs_onDrop.
Qed.

(** X20: under every input, drops included, the tab bar and the array
    hold the same tabs, each of them once: a reorder can leave the two in
    different orders, but no tab is ever shown without being in the array
    or kept in the array without being shown. *)
Theorem bar_and_array_hold_the_same_tabs (inputs : list Input) :
  let st := run inputs init in
  tabList st ≡ₚ tabs st ∧ tabListIds st ≡ₚ tabIds st ∧
  NoDup (tabList st) ∧ NoDup (tabListIds st).
Proof.
  intros st.
  assert (H : ∀ st0, wellFormed st0 → sameTabs st0 →
                     wellFormed (run inputs st0) ∧ sameTabs (run inputs st0)).
  { induction inputs as [|i inputs IH]; intros st0 Hwf Hs; simpl; [done|].
    apply IH; [by apply wellFormed_step | by apply sameTabs_step]. }
  destruct (H init wellFormed_init) as [Hwf Hsame]; [by unfold sameTabs|].
  fold st in Hwf, Hsame. unfold sameTabs in Hsame.
  assert (Hids : tabListIds st ≡ₚ tabIds st).
  { unfold tabListIds, tabIds. by rewrite Hsame. }
  split; [done|]. split; [done|].
  destruct (wellFormed_tabIds st Hwf) as (Hnd & _).
  pose proof Hwf as (Hndt & _).
  split; [by rewrite Hsame | by rewrite Hids].
Qed.

End BarSpec.

(** ** The sessions the tab objects hold *)

Module HeldSessionSpec.
Import App Obs Inv AppFacts LastTabSpec TeardownSpec SessionEndSpec
  OpenSessionSpec OrderSyncSpec LoopFacts RegistrySpec.

Lemma view_same live st st' :
  heapSessions st' = heapSessions st → sessions st' = sessions st →
  rtc (viewStep live) (view st) (view st').
Proof. intros Hh Hs. unfold view. by rewrite Hh, Hs. Qed.

Lemma view_promptView live st st' :
  promptView st' = promptView st → rtc (viewStep live) (view st) (view st').
Proof.
  intros H. apply view_same;
    [by apply promptView_heapSessions | by apply promptView_sessions].
Qed.

Lemma view_createTab live st : rtc (viewStep live) (view st) (view (createTab st)).
Proof.
  unfold view. rewrite heapSessions_createTab, sessions_createTab.
  apply rtc_once. constructor.
Qed.

Lemma view_closeSessionOf live r st :
  r ∈ live → rtc (viewStep live) (view st) (view (closeSessionOf r st)).
Proof.
  intros Hr. unfold view. rewrite heapSessions_closeSessionOf.
  destruct (heapSessions st !! r) as [[sid|]|] eqn:Hh.
  - assert (Hs : sessions (closeSessionOf r st)
                 = alter (set_closed true) sid (sessions st)).
    { rewrite heapSessions_lookup in Hh. unfold closeSessionOf.
      destruct (heap st !! r) as [t|]; [|done]. injection Hh as ->. done. }
    rewrite Hs. apply rtc_once. by constructor.
  - assert (Hs : closeSessionOf r st = st).
    { rewrite heapSessions_lookup in Hh. unfold closeSessionOf.
      destruct (heap st !! r) as [t|]; [|done]. injection Hh as ->. done. }
    rewrite Hs, list_insert_id by done. done.
  - assert (Hs : closeSessionOf r st = st).
    { rewrite heapSessions_lookup in Hh. unfold closeSessionOf.
      by destruct (heap st !! r) as [t|]. }
    rewrite Hs. apply lookup_ge_None in Hh. by rewrite list_insert_ge.
Qed.

Lemma view_fold_destroyTab live l st :
  l ⊆ live → rtc (viewStep live) (view st) (view (fold_left destroyTab l st)).
Proof.
  revert st. induction l as [|r l IH]; intros st Hsub; simpl; [done|].
  etransitivity; [|apply IH; set_solver].
  change (view (destroyTab st r)) with (view (closeSessionOf r st)).
  apply view_closeSessionOf. set_solver.
Qed.

Lemma view_clearAllTabs st :
  rtc (viewStep (tabs st)) (view st) (view (clearAllTabs st)).
Proof.
  change (view (clearAllTabs st)) with (view (fold_left destroyTab (tabs st) st)).
  by apply view_fold_destroyTab.
Qed.

Lemma view_closeTab id st :
  rtc (viewStep (tabs st)) (view st) (view (closeTab id st)).
Proof.
  destruct (getTab id st) as [r|] eqn:Hget.
  2:{ unfold closeTab. by rewrite Hget. }
  rewrite (closeTab_unfold id st r Hget). cbv zeta.
  set (st0 := closeSessionOf r st).
  set (st1 := emit (TabsSplice r) _).
  assert (H0 : rtc (viewStep (tabs st)) (view st) (view st1)).
  { change (view st1) with (view st0). apply view_closeSessionOf.
    apply getTab_findIndex in Hget as (i & _ & Hi).
    by eapply list_elem_of_lookup_2. }
  repeat case_match; try done.
  etransitivity; [exact H0 | apply view_createTab].
Qed.

Lemma view_openSession_resume live k u st :
  rtc (viewStep live) (view st) (view (openSession_resume k u st)).
Proof.
  destruct u as [name|]; [|done].
  destruct (decide (name = "")) as [->|Hname]; [done|].
  destruct (heapSessions st !! k_tab k) as [[sid|]|] eqn:Hh.
  - by rewrite (openSession_resume_guarded k _ st sid).
  - destruct (openSession_resume_open k name st Hh Hname) as (Hs & Hhs & _).
    unfold view. rewrite Hs, Hhs. apply rtc_once. by constructor.
  - by rewrite openSession_resume_absent.
Qed.

Lemma view_onSessionEnd live r st :
  rtc (viewStep live) (view st) (view (onSessionEnd r st)).
Proof.
  unfold view. rewrite heapSessions_onSessionEnd, sessions_onSessionEnd.
  apply rtc_once. constructor.
Qed.

Lemma sessions_onDrop id st :
  heap (onDrop id st) = heap st ∧ sessions (onDrop id st) = sessions st.
Proof. unfold onDrop. by repeat case_match. Qed.

(** One turn of the loop, seen from the sessions. *)
Lemma view_step st i : rtc (viewStep (tabs st)) (view st) (view (step st i)).
Proof.
  destruct i; simpl; try done.
  - destruct (notifyState_cases state st)
      as [[_ (st3 & Ht & Hh & _ & _ & _ & Hs & _ & _ & _ & _ & ->)]
         |[[_ ->]|[[_ ->]|(_ & _ & ->)]]]; try done.
    + assert (H3 : rtc (viewStep (tabs st)) (view st) (view st3)).
      { apply view_same; [by unfold heapSessions; rewrite Hh | done]. }
      destruct (tabs st); [|done].
      etransitivity; [exact H3 | apply view_createTab].
    + apply (view_clearAllTabs (setStatus state st)).
    + apply (view_clearAllTabs (setStatus state st)).
  - apply view_clearAllTabs.
  - case_match; [apply view_createTab | done].
  - by case_match.
  - apply view_closeTab.
  - destruct (sessions_onDrop targetId st) as [Hh Hs].
    apply view_same; [by unfold heapSessions; rewrite Hh | done].
  - case_match; [|done]. apply view_promptView, promptView_openSession.
  - apply view_promptView, promptView_onConnect.
  - apply view_promptView, promptView_onCancel.
  - apply view_promptView, promptView_onKey.
  - case_match; [done|]. case_match.
    apply (view_openSession_resume _ c o (set_microtasks l st)).
  - unfold onError. repeat case_match; try done. apply view_onSessionEnd.
  - unfold onDone. repeat case_match; try done. apply view_onSessionEnd.
  - by case_match.
Qed.

(** *** What the steps keep *)

Lemma heldOpen_viewStep live v v' : viewStep live v v' → heldOpen v → heldOpen v'.
Proof.
  intros Hstep Hheld r' sid'. destruct Hstep as [hs ss|hs ss r a u Hr|hs ss r sid Hr Hh|hs ss r]; simpl.
  - intros Hl. apply lookup_app_Some in Hl as [Hl|[_ Hl]].
    + by apply Hheld.
    + by destruct (r' - length hs) as [|[|?]].
  - intros Hl. destruct (decide (r' = r)) as [->|Hne].
    + rewrite list_lookup_insert_eq in Hl by by eapply lookup_lt_Some.
      injection Hl as <-. eexists. by rewrite list_lookup_middle.
    + rewrite list_lookup_insert_ne in Hl by done.
      destruct (Hheld _ _ Hl) as (s & Hs & Hrest). exists s.
      split; [|done]. apply lookup_app_l_Some, Hs.
  - intros Hl. destruct (decide (r' = r)) as [->|Hne].
    + rewrite list_lookup_insert_eq in Hl by by eapply lookup_lt_Some. done.
    + rewrite list_lookup_insert_ne in Hl by done.
      destruct (Hheld _ _ Hl) as (s & Hs & Hrest). exists s.
      split; [|done]. rewrite list_lookup_alter_ne; [done|].
      intros ->. destruct (Hheld _ _ Hh) as (s' & Hs' & Ht' & _).
      destruct Hrest as [Ht _]. congruence.
  - intros Hl. destruct (decide (r' = r)) as [->|Hne].
    + destruct (decide (r < length hs)).
      * rewrite list_lookup_insert_eq in Hl by done. done.
      * rewrite list_insert_ge in Hl by lia. by apply Hheld.
    + rewrite list_lookup_insert_ne in Hl by done. by apply Hheld.
Qed.

Lemma heldOpen_viewSteps live v v' :
  rtc (viewStep live) v v' → heldOpen v → heldOpen v'.
Proof. induction 1; eauto using heldOpen_viewStep. Qed.

Lemma openFor_viewStep live sid r0 v v' :
  viewStep live v v' → r0 ∉ live → heldOpen v → openFor sid r0 v → openFor sid r0 v'.
Proof.
  intros Hstep Hr0 Hheld (s & Hs & Ht & Hc).
  unfold openFor.
  destruct Hstep as [hs ss|hs ss r a u Hr|hs ss r sid' Hr Hh|hs ss r];
    simpl in *; try by exists s.
  - exists s. split; [|done]. by apply lookup_app_l_Some.
  - exists s. split; [|done]. rewrite list_lookup_alter_ne; [done|].
    intros ->. destruct (Hheld _ _ Hh) as (s' & Hs' & Ht' & _). simpl in Hs'.
    apply Hr0. congruence.
Qed.

Lemma openFor_viewSteps live sid r0 v v' :
  rtc (viewStep live) v v' → r0 ∉ live → heldOpen v → openFor sid r0 v → openFor sid r0 v'.
Proof.
  induction 1 as [|v1 v2 v3 H12 _ IH]; [done|]. intros Hr0 Hheld Hopen.
  apply IH; [done|by eapply heldOpen_viewStep|by eapply openFor_viewStep].
Qed.

Lemma heldOpen_run inputs st : heldOpen (view st) → heldOpen (view (run inputs st)).
Proof.
  revert st. induction inputs as [|i inputs IH]; intros st H; simpl; [done|].
  apply IH. eapply heldOpen_viewSteps; [apply view_step | done].
Qed.

(** X21: under every input, a tab object whose [session] field is set
    holds a session that was opened for that very tab and whose [close()]
    has not been called; so no two tab objects ever share a session. *)
Theorem held_session_is_open (inputs : list Input) (r sid : nat) :
  let st := run inputs init in
  heapSessions st !! r = Some (Some sid) →
  (∃ s, sessions st !! sid = Some s ∧ s_tab s = r ∧ closed s = false) ∧
  (∀ r', heapSessions st !! r' = Some (Some sid) → r' = r).
Proof.
  intros st Hr.
  assert (Hheld : heldOpen (view st)).
  { apply heldOpen_run. by intros [|?] ?. }
  destruct (Hheld r sid Hr) as (s & Hs & Ht & Hc).
  split; [by exists s|].
  intros r' Hr'. destruct (Hheld r' sid Hr') as (s' & Hs' & Ht' & _).
  simpl in *. congruence.
Qed.

Lemma held_session_is_open_witness :
  heapSessions connected !! 0 = Some (Some 0) ∧
  ∃ s, sessions connected !! 0 = Some s ∧ s_tab s = 0 ∧ closed s = false.
Proof.
  split; [reflexivity|].
  exact (proj1 (held_session_is_open
    [NotifyState "Running"; ConnectClick 0 sampleDevice; UsernameType "alice";
     ModalConnectClick; Microtask] 0 0 eq_refl)).
Defined.

(** *** A prompt that outlives its tab *)

Lemma notin_shrinks r st st' : shrinks st st' → r ∉ tabs st → r ∉ tabs st'.
Proof. intros (_ & _ & Hsub) Hr Hin. apply Hr. by eapply elem_of_submseteq. Qed.

Lemma gone_step r st i :
  wellFormed st → r < length (heap st) → r ∉ tabs st →
  r < length (heap (step st i)) ∧ r ∉ tabs (step st i).
Proof.
  intros Hwf Hlt Hr.
  assert (Hlen : ∀ st', heapIds st' = heapIds st → r < length (heap st')).
  { intros st' H. by rewrite <- (length_heapIds st'), H, length_heapIds. }
  destruct (step_shape st i) as [Hs|(mid & Hs & ->)].
  - split; [apply Hlen, Hs | by eapply notin_shrinks].
  - pose proof (Hlen mid (proj1 Hs)) as Hmid.
    rewrite length_heap_createTab, tabs_createTab. split; [lia|].
    intros [Hin| ->%list_elem_of_singleton]%elem_of_app; [|lia].
    by eapply notin_shrinks.
Qed.

Lemma orphan_run more r sid st :
  wellFormed st → heldOpen (view st) → r < length (heap st) → r ∉ tabs st →
  openFor sid r (view st) → openFor sid r (view (run more st)).
Proof.
  revert st. induction more as [|i more IH]; intros st Hwf Hheld Hlt Hr Hopen;
    simpl; [done|].
  destruct (gone_step r st i Hwf Hlt Hr) as [Hlt' Hr'].
  apply IH; [by apply wellFormed_step| |done|done|].
  - eapply heldOpen_viewSteps; [apply view_step | done].
  - eapply openFor_viewSteps; [apply view_step | done..].
Qed.

(** X22: [openSession] does not look whether its tab is still in the
    array when the prompt resolves.  If the tab was removed while the
    prompt was open, confirming a user name still starts an SSH session for
    it, and nothing the page does afterwards calls that session's
    [close()]: teardown and [closeTab] only reach the tabs of the array. *)
Theorem session_of_removed_tab_is_never_closed
    (inputs more : list Input) (k : Cont) (name : string) :
  let st := run inputs init in
  heapSessions st !! k_tab k = Some None → k_tab k ∉ tabs st → name ≠ "" →
  (let st' := openSession_resume k (Some name) st in
   let sid := length (sessions st) in
   trace st' = trace st ++ [RunSSH (k_tab k) sid] ∧
   heapSessions st' !! k_tab k = Some (Some sid) ∧
   closed <$> sessions (run more st') !! sid = Some false).
Proof.
  intros st Hh Hr Hname st' sid.
  assert (Hwf : wellFormed st) by apply wellFormed_run, wellFormed_init.
  assert (Hheld : heldOpen (view st)).
  { apply heldOpen_run. by intros [|?] ?. }
  destruct (openSession_resume_open k name st Hh Hname)
    as (Hs & Hhs & _ & _ & _ & Htr).
  fold st' in Hs, Hhs, Htr. fold sid in Hhs, Htr.
  pose proof (lookup_lt_Some _ _ _ Hh) as Hlt.
  split; [done|]. split.
  { rewrite Hhs. by apply list_lookup_insert_eq. }
  assert (Hstep : st' = step (set_microtasks ((k, Some name) :: microtasks st) st)
                          Microtask).
  { simpl. unfold st'. f_equal. by destruct st. }
  assert (Hopen : openFor sid (k_tab k) (view (run more st'))).
  { unfold heapSessions in Hlt. rewrite length_fmap in Hlt.
    apply orphan_run.
    - rewrite Hstep. by apply wellFormed_step.
    - eapply heldOpen_viewSteps; [apply (view_openSession_resume [] k (Some name) st)|done].
    - unfold st'.
      by rewrite <- (length_heapIds (openSession_resume k (Some name) st)),
        heapIds_openSession_resume, length_heapIds.
    - unfold st'.
      by rewrite (skeleton_tabs _ _ (skeleton_openSession_resume k (Some name) st)).
    - eexists. simpl. rewrite Hs. by rewrite list_lookup_middle. }
  destruct Hopen as (s & Hsid & _ & Hc). simpl in Hsid. by rewrite Hsid, <- Hc.
Qed.

Lemma session_of_removed_tab_is_never_closed_witness :
  let st := run [NotifyState "Running"; ConnectClick 0 sampleDevice;
                 NotifyState "NeedsLogin"] init in
  let k := cardCont 0 sampleDevice in
  let st' := openSession_resume k (Some "alice") st in
  tabs st = [] ∧ trace st' = trace st ++ [RunSSH 0 0] ∧
  closed <$> sessions (run [NotifyState "Stopped"; NotifyPanicRecover] st') !! 0
    = Some false.
Proof.
  destruct (session_of_removed_tab_is_never_closed
              [NotifyState "Running"; ConnectClick 0 sampleDevice;
               NotifyState "NeedsLogin"]
              [NotifyState "Stopped"; NotifyPanicRecover]
              (cardCont 0 sampleDevice) "alice") as (H1 & _ & H3).
  - reflexivity.
  - vm_compute. apply not_elem_of_nil.
  - discriminate.
  - split; [reflexivity|]. split; [exact H1 | exact H3].
Defined.

End HeldSessionSpec.

(** ** A held session is closed before its tab goes *)

Module RemovalSpec.
Import App Obs Inv AppFacts LastTabSpec TeardownSpec LoopFacts RegistrySpec.

Lemma NoDup_delete_notin {A} (l : list A) i x :
  NoDup l → l !! i = Some x → x ∉ delete i l.
Proof.
  intros Hnd Hi (k & Hk)%list_elem_of_lookup_1.
  destruct (decide (k < i)).
  - rewrite list_lookup_delete_lt in Hk by done.
    pose proof (NoDup_lookup _ _ _ _ Hnd Hk Hi). lia.
  - rewrite list_lookup_delete_ge in Hk by lia.
    pose proof (NoDup_lookup _ _ _ _ Hnd Hk Hi). lia.
Qed.

Lemma closeTab_removes id st r :
  getTab id st = Some r → NoDup (tabs st) → r < length (heap st) →
  r ∉ tabs (closeTab id st).
Proof.
  intros Hget Hnd Hlt.
  destruct (closeTab_spec id st r Hget)
    as (i & st1 & _ & Hr & Ht & Hids & _ & _ & _ & Hres).
  assert (Hgone : r ∉ tabs st1) by (rewrite Ht; by apply NoDup_delete_notin).
  destruct Hres as [(_ & _ & ->)|[(_ & _ & ->)|[(_ & _ & ->)|(_ & _ & Hres)]]];
    try done.
  - rewrite tabs_createTab. intros [?| ->%list_elem_of_singleton]%elem_of_app;
      [done|].
    rewrite <- (length_heapIds st1), Hids, length_heapIds in Hlt. lia.
  - repeat case_match; by rewrite Hres.
Qed.

(** X23: when [closeTab] or [clearAllTabs] meets a tab of the array that
    holds a session, it calls the session's [close] first; the tab's
    element is removed and the tab leaves the array only after that.
    Afterwards the tab is not in the array, its [session] field is clear
    and the session's [closed] flag is set. *)
Theorem close_precedes_removal :
  (∀ st id r sid,
     getTab id st = Some r → heapSessions st !! r = Some (Some sid) →
     (∃ rest, trace (closeTab id st) =
                trace st ++ SessionClose sid :: TabElRemove r :: TabsSplice r :: rest) ∧
     heapSessions (closeTab id st) !! r = Some None ∧
     (is_Some (sessions st !! sid) → closedAt (closeTab id st) sid) ∧
     (NoDup (tabs st) → r ∉ tabs (closeTab id st))) ∧
  (∀ st r sid,
     r ∈ tabs st → heapSessions st !! r = Some (Some sid) →
     (∃ pre post,
        trace (clearAllTabs st) =
          trace st ++ pre ++ SessionClose sid :: TabElRemove r :: post ++ [TabsClear] ∧
        Forall (λ e, e ≠ TabElRemove r ∧ e ≠ TabsClear) pre) ∧
     tabs (clearAllTabs st) = [] ∧
     heapSessions (clearAllTabs st) !! r = Some None ∧
     (is_Some (sessions st !! sid) → closedAt (clearAllTabs st) sid)).
Proof.
  split.
  - intros st id r sid Hget Hs. rewrite heapSessions_lookup in Hs.
    destruct (heap st !! r) as [t|] eqn:Ht; [|done]. injection Hs as Hs.
    destruct (proj1 session_closed_before_tab_removed st id r t sid Hget Ht Hs)
      as (H1 & H2 & H3).
    split; [done|]. split; [done|]. split; [done|].
    intros Hnd. apply closeTab_removes; [done..|]. by eapply lookup_lt_Some.
  - intros st r sid Hin Hs. rewrite heapSessions_lookup in Hs.
    destruct (heap st !! r) as [t|] eqn:Ht; [|done]. injection Hs as Hs.
    by apply (proj2 session_closed_before_tab_removed st r t sid).
Qed.

Lemma close_precedes_removal_witness :
  (∃ rest, trace (closeTab 1 connected) =
             trace connected ++ SessionClose 0 :: TabElRemove 0 :: TabsSplice 0 :: rest) ∧
  heapSessions (closeTab 1 connected) !! 0 = Some None ∧
  closedAt (closeTab 1 connected) 0 ∧
  0 ∉ tabs (closeTab 1 connected).
Proof.
  destruct (proj1 close_precedes_removal connected 1%N 0 0 eq_refl eq_refl)
    as (H1 & H2 & H3 & H4).
  split; [exact H1|]. split; [exact H2|]. split.
  - apply H3. vm_compute. eauto.
  - apply H4. vm_compute. repeat constructor. by intros ?%elem_of_nil.
Defined.

End RemovalSpec.
